(** * reader-plus: the AI panel's extraction, cache-key and summary pipeline

    A shallow embedding of [src/AIPanel.tsx] (content extraction, window
    selection, cache-key derivation, cache resolution and the streaming
    summary) and of the part of [src/storage.ts] it reads its configuration
    from, followed by the properties proved about them.

    JavaScript strings are sequences of UTF-16 code units; they are modelled
    as [list N], so that [length] is [String.prototype.length] and an element
    is what [charCodeAt] returns.  JavaScript numbers that hold lengths and
    indices are modelled as [Z]. *)

From Stdlib Require Import List Permutation ZArith NArith QArith Qround String Ascii Bool Lia.
From Stdlib Require Import DecimalString HexadecimalString DecimalZ HexadecimalN.
Import ListNotations.
Open Scope Z_scope.
Set Warnings "-register-all".

(** ** JavaScript strings and the built-ins the panel uses *)

Module JS.

Definition jsstring : Type := list N.

(** An ASCII literal of the source as a sequence of code units. *)
Definition lit (s : string) : jsstring :=
  map N_of_ascii (list_ascii_of_string s).

Definition len {A : Type} (l : list A) : Z := Z.of_nat (List.length l).

Definition eqb (a b : jsstring) : bool :=
  if list_eq_dec N.eq_dec a b then true else false.

(** Truthiness of a string: [!!s]. *)
Definition nonEmpty (s : jsstring) : bool :=
  match s with [] => false | _ :: _ => true end.

(** [a || b] on strings. *)
Definition orElse (a b : jsstring) : jsstring :=
  if nonEmpty a then a else b.

(** [s || null] on a possibly absent string. *)
Definition orNull (s : option jsstring) : option jsstring :=
  match s with
  | Some t => if nonEmpty t then Some t else None
  | None => None
  end.

(** The characters matched by [\s], which are also the ones [trim]
    removes: WhiteSpace and LineTerminator of ECMAScript. *)
Definition isWhiteSpace (c : N) : bool :=
  ((9 <=? c) && (c <=? 13) || (c =? 32) || (c =? 160) || (c =? 5760)
   || (8192 <=? c) && (c <=? 8202) || (c =? 8232) || (c =? 8233)
   || (c =? 8239) || (c =? 8287) || (c =? 12288) || (c =? 65279))%N.

Fixpoint dropWhile {A : Type} (p : A -> bool) (l : list A) : list A :=
  match l with
  | [] => []
  | x :: r => if p x then dropWhile p r else l
  end.

Definition trimStart (s : jsstring) : jsstring := dropWhile isWhiteSpace s.
Definition trimEnd (s : jsstring) : jsstring := rev (trimStart (rev s)).
Definition trim (s : jsstring) : jsstring := trimEnd (trimStart s).

(** [s.replace(/\s+/g, ' ')]: every maximal run of white space becomes one
    space.  [inRun] tells that the previous character was white space. *)
Fixpoint collapseRuns (inRun : bool) (s : jsstring) : jsstring :=
  match s with
  | [] => []
  | c :: r =>
      if isWhiteSpace c
      then (if inRun then collapseRuns true r else 32%N :: collapseRuns true r)
      else c :: collapseRuns false r
  end.

Definition replaceWhitespaceRuns (s : jsstring) : jsstring :=
  collapseRuns false s.

(** [s.slice(0, n)] for [n >= 0], and [s.slice(n)]. *)
Definition sliceTo (n : nat) (s : jsstring) : jsstring := firstn n s.
Definition sliceFrom (n : nat) (s : jsstring) : jsstring := skipn n s.

Fixpoint startsWith (s p : jsstring) {struct p} : bool :=
  match p, s with
  | [], _ => true
  | _ :: _, [] => false
  | a :: p', b :: s' => (a =? b)%N && startsWith s' p'
  end.

(** [parts.join(sep)]. *)
Fixpoint join (sep : jsstring) (parts : list jsstring) : jsstring :=
  match parts with
  | [] => []
  | [p] => p
  | p :: rest => p ++ sep ++ join sep rest
  end.

(** [s.split(sep)] for a one-character separator: the pieces between the
    separators, empty pieces included. *)
Fixpoint splitOn (sep : N) (s : jsstring) : list jsstring :=
  match s with
  | [] => [[]]
  | c :: r =>
      if (c =? sep)%N then [] :: splitOn sep r
      else match splitOn sep r with
           | [] => [[c]]
           | w :: ws => (c :: w) :: ws
           end
  end.

(** [s.split(/\s+/).filter(Boolean)]: the maximal runs of characters that
    are not white space, in order.  [cur] is the word being read, reversed. *)
Fixpoint wordsFrom (cur : jsstring) (s : jsstring) : list jsstring :=
  match s with
  | [] => match cur with [] => [] | _ => [rev cur] end
  | c :: r =>
      if isWhiteSpace c
      then match cur with
           | [] => wordsFrom [] r
           | _ => rev cur :: wordsFrom [] r
           end
      else wordsFrom (c :: cur) r
  end.

Definition words (s : jsstring) : list jsstring := wordsFrom [] s.

(** [String(n)] and [`${n}`] for an integer [n]. *)
Definition showInt (n : Z) : jsstring :=
  lit (DecimalString.NilZero.string_of_int (Z.to_int n)).

(** [n.toString(16)] for a non-negative integer [n]. *)
Definition showHex (n : Z) : jsstring :=
  lit (HexadecimalString.NilZero.string_of_uint (N.to_hex_uint (Z.to_N n))).

(** [new Set(l)]: the distinct elements in order of first insertion. *)
Fixpoint toSet (seen : list jsstring) (l : list jsstring) : list jsstring :=
  match l with
  | [] => rev seen
  | w :: r => if existsb (eqb w) seen then toSet seen r else toSet (w :: seen) r
  end.

Definition newSet (l : list jsstring) : list jsstring := toSet [] l.
Definition has (s : list jsstring) (w : jsstring) : bool := existsb (eqb w) s.

End JS.

Import JS.

(** ** The rendered document, as the panel sees it

    The rendering engine and the DOM are outside the repository; the panel
    reads them through a handful of calls.  Each call is a field of the
    records below, holding what the call returns. *)

(** What a call into the rendering engine does: return or throw. *)
Inductive outcome (A : Type) : Type :=
| Returns (a : A)
| Throws.
Arguments Returns {A} a.
Arguments Throws {A}.

(** An element of the document.  [el_ref] is the object's identity ([===]),
    [matchesParagraphSelector] is [el.matches && el.matches(PARAGRAPH_SELECTOR)]
    and [textContent] is [el.textContent]. *)
Record Element : Type := mkElement {
  el_ref : nat;
  matchesParagraphSelector : bool;
  textContent : jsstring
}.

Definition sameElement (a b : Element) : bool := Nat.eqb (el_ref a) (el_ref b).

(** A value of type [Node | null]: [NullNode] is [null], and a node carries
    its chain of parents.  [asElement] is read only when [nodeType] is 1. *)
Inductive DomNode : Type :=
| NullNode
| mkDomNode (nodeType : Z) (asElement : Element) (parentNode : DomNode).

(** A DOM [Range] as returned by [rendition.getRange]. *)
Record Range : Type := mkRange {
  startContainer : DomNode;
  endContainer : DomNode
}.

(** [body.textContent], the result of [body.querySelectorAll(PARAGRAPH_SELECTOR)]
    in document order, and, for the range the panel builds with
    [setStartBefore(startBlock)] and [setEndAfter(endBlock)], the answer of
    [intersectsNode(el)] (a call that throws is caught by the panel and
    counts as [false]). *)
Record Document : Type := mkDocument {
  body : option (jsstring * list Element);
  intersectsNode : Element -> Element -> Element -> bool
}.

(** One end of [rendition.currentLocation()]: [cfi] and [index]. *)
Record LocationEnd : Type := mkLocationEnd {
  cfi : option jsstring;
  index : option Z
}.

Record Location : Type := mkLocation {
  loc_start : option LocationEnd;
  loc_end : option LocationEnd
}.

(** The [rendition] prop.  [currentLocation] and [getRange] are [None] when
    they are not functions; [getContents] yields the [document] of each
    content, if any. *)
Record Rendition : Type := mkRendition {
  getContents : outcome (option (list (option Document)));
  currentLocation : option (outcome (option Location));
  getRange : option (jsstring -> outcome (option Range))
}.

Record Book : Type := mkBook {
  book_id : jsstring;
  book_title : jsstring;
  book_author : jsstring
}.

(** ** Text normalizer, block locator and paragraph collector *)

Definition normalizeWhitespace (text : jsstring) : jsstring :=
  trim (replaceWhitespaceRuns text).

(** The [while (current)] loop walks the parent chain, which is finite. *)
Fixpoint getNearestBlockElement (node : DomNode) : option Element :=
  match node with
  | NullNode => None
  | mkDomNode nodeType el parentNode =>
      if (nodeType =? 1) && matchesParagraphSelector el then Some el
      else getNearestBlockElement parentNode
  end.

Definition collectParagraphElements (blocks : list Element) : list Element :=
  filter (fun el => len (normalizeWhitespace (textContent el)) >=? 20) blocks.

(** ** Character budget *)

Definition CONTEXT_TOKENS_LIMIT : Z := 131072.
Definition TOKEN_TO_CHAR_APPROX : Z := 3.
Definition CONTEXT_SAFETY_RATIO : Q := 7 # 10.

(** [Math.floor(CONTEXT_TOKENS_LIMIT * TOKEN_TO_CHAR_APPROX * CONTEXT_SAFETY_RATIO)];
    the product is 275251.2, far from an integer, so the floor of the exact
    product is the floor of the floating-point one. *)
Definition charBudgetCap : Z :=
  Qfloor (inject_Z (CONTEXT_TOKENS_LIMIT * TOKEN_TO_CHAR_APPROX) * CONTEXT_SAFETY_RATIO).

Definition fallbackMaxChars : Z := Z.min charBudgetCap 20000.
Definition charBudget : Z := Z.min charBudgetCap 40000.
Definition maxParas : Z := 300.

(** ** Window selector *)

(** The three variables [pushIdx] updates. *)
Record Selection : Type := mkSelection {
  total : Z;
  texts : list jsstring;
  selectedIdxs : list Z
}.

Definition emptySelection : Selection := mkSelection 0 [] [].

Definition pushIdx (inBetween : list Element) (idx : Z) (s : Selection)
  : bool * Selection :=
  if (idx <? 0) || (idx >=? len inBetween) then (false, s)
  else if existsb (Z.eqb idx) (selectedIdxs s) then (false, s)
  else match nth_error inBetween (Z.to_nat idx) with
       | None => (false, s)
       | Some el =>
           let t := normalizeWhitespace (textContent el) in
           if negb (nonEmpty t) then (false, s)
           else
             let next := total s + len t + (if len (texts s) =? 0 then 0 else 2) in
             if len (texts s) >=? maxParas then (false, s)
             else if (len (texts s) >=? 2) && (next >? charBudget) then (false, s)
             else (true, mkSelection next (texts s ++ [t]) (selectedIdxs s ++ [idx]))
       end.

(** The forced inclusion of the two boundary paragraphs. *)
Definition pushBoundaries (inBetween : list Element) : Selection :=
  let s1 := snd (pushIdx inBetween 0 emptySelection) in
  if len inBetween >? 1 then snd (pushIdx inBetween (len inBetween - 1) s1) else s1.

(** The [while] loop that fills from both ends; [fuel] bounds the number of
    iterations ([fuel_enough] below: the length of [inBetween] suffices). *)
Fixpoint expandFromEnds (fuel : nat) (inBetween : list Element) (step : Z)
  (s : Selection) : Selection :=
  match fuel with
  | O => s
  | S fuel' =>
      if (len (texts s) <? maxParas) && (total s <? charBudget)
         && (step <? len inBetween)
      then
        let leftIdx := step in
        let rightIdx := len inBetween - 1 - step in
        let s' :=
          if leftIdx <=? rightIdx then
            let s1 := snd (pushIdx inBetween leftIdx s) in
            if negb (rightIdx =? leftIdx) then snd (pushIdx inBetween rightIdx s1)
            else s1
          else s in
        if leftIdx >? rightIdx then s'
        else expandFromEnds fuel' inBetween (step + 1) s'
      else s
  end.

Definition selectWindow (inBetween : list Element) : Selection :=
  expandFromEnds (List.length inBetween) inBetween 1 (pushBoundaries inBetween).

Definition newline2 : jsstring := [10; 10]%N.

(** ** Signature and key deriver *)

(** The loop of [stableHash]: [i] runs from its start value up to
    [str.length]; [n] is the number of iterations left. *)
Fixpoint stableHashLoop (str : jsstring) (n : nat) (i : nat) (h : Z) : Z :=
  match n with
  | O => h
  | S n' =>
      let charCode := Z.of_N (nth i str 0%N) in
      stableHashLoop str n' (S i) ((h * 131 + charCode) mod 2 ^ 32)
  end.

Definition stableHashValue (str : jsstring) : Z :=
  stableHashLoop str (List.length str) 0 0.

Definition stableHash (str : jsstring) : jsstring :=
  showHex (stableHashValue str).

(** [paragraphs.findIndex((el) => el === block)]. *)
Fixpoint findIndexFrom (i : Z) (paragraphs : list Element) (block : Element) : Z :=
  match paragraphs with
  | [] => -1
  | el :: rest =>
      if sameElement el block then i else findIndexFrom (i + 1) rest block
  end.

Definition findIndex (paragraphs : list Element) (block : Element) : Z :=
  findIndexFrom 0 paragraphs block.

Definition textOfOpt (el : option Element) : jsstring :=
  match el with
  | Some e => textContent e
  | None => []
  end.

Definition paraHashSourceOf (inBetween : list Element) : jsstring :=
  let startText := normalizeWhitespace (textOfOpt (nth_error inBetween 0)) in
  let endText :=
    normalizeWhitespace (textOfOpt (nth_error inBetween (List.length inBetween - 1))) in
  sliceTo 120 startText ++ lit "|" ++ sliceTo 120 endText.

Definition bookIdOf (book : option Book) : jsstring :=
  match book with
  | Some b => orElse (book_id b) (lit "unknown")
  | None => lit "unknown"
  end.

Definition spinePartOf (spineId : option jsstring) : jsstring :=
  match orNull spineId with
  | Some s => s
  | None => lit "0"
  end.

Definition centerPartOf (startIdx endIdx : Z) : jsstring :=
  showInt (Z.min startIdx endIdx) ++ lit "-" ++ showInt (Z.max startIdx endIdx).

Definition groupPrefixOf (bookId spinePart : jsstring) : jsstring :=
  lit "ai-summary:" ++ bookId ++ lit ":" ++ spinePart ++ lit ":".

Definition cacheKeyOf (bookId spinePart centerPart contentSig : jsstring) : jsstring :=
  lit "ai-summary:" ++ bookId ++ lit ":" ++ spinePart ++ lit ":" ++ centerPart
  ++ lit ":" ++ contentSig.

(** The literal '无法提取页面内容'. *)
Definition msgNoPageContent : jsstring :=
  [26080; 27861; 25552; 21462; 39029; 38754; 20869; 23481]%N.

(** The literal '无法获取页面文档'. *)
Definition msgNoDocument : jsstring :=
  [26080; 27861; 33719; 21462; 39029; 38754; 25991; 26723]%N.

(** The literal '无法提取有效内容'. *)
Definition msgNoValidContent : jsstring :=
  [26080; 27861; 25552; 21462; 26377; 25928; 20869; 23481]%N.

(** The literal '提取页面内容时出现错误'. *)
Definition msgExtractError : jsstring :=
  [25552; 21462; 39029; 38754; 20869; 23481; 26102; 20986; 29616; 38169;
   35823]%N.

(** ** Panel state and effects

    The component's React state and refs, the [localforage] store, the
    requests handed to [fetch] and the console form the world the panel's
    functions act on.  A function of the component reads state variables from
    the render that created it (its closure, a [PanelState] passed as [snap])
    and writes them through the setters, which change the state of the next
    render (the [panel] of the world). *)

Record ConfigStatus : Type := mkConfigStatus {
  configured : bool;
  missing : list jsstring
}.

(** The state variables ([useState]) and the refs ([useRef]) of the
    component.  [abortControllerRef] and [pendingTimerRef] tell whether the
    ref holds a controller or a timer; [lastLocationRef] is [None] for
    [null]. *)
Record PanelState : Type := mkPanelState {
  aiConfigStatus : ConfigStatus;
  pageContent : jsstring;
  isExtractingContent : bool;
  completion : jsstring;
  isLoading : bool;
  pagePromptDraft : jsstring;
  pagePromptSaved : jsstring;
  lastLocationRef : option jsstring;
  isInitializedRef : bool;
  abortControllerRef : bool;
  pendingTimerRef : bool
}.

(** One message of the request body. *)
Inductive Role : Type := RoleSystem | RoleUser.

(** The request handed to [fetch]: the URL, the [Authorization] header and
    the fields of the JSON body. *)
Record Request : Type := mkRequest {
  req_url : jsstring;
  req_authorization : jsstring;
  req_model : jsstring;
  req_messages : list (Role * jsstring);
  req_stream : bool;
  req_max_tokens : Z;
  req_temperature : Q
}.

(** The calls to [console] the panel makes. *)
Inductive LogEvent : Type :=
| WarnExtractFailed
| LogRequestInfo (contentLength : Z) (messageCount : Z)
| LogStreamDelta (delta : jsstring)
| WarnParseFailed
| LogSummaryDone (full : jsstring)
| LogCancelled
| ErrorSummaryFailed
| LogCacheHit (key : jsstring)
| LogFuzzyHit (key : jsstring)
| LogCacheWrite (key : jsstring).

(** The [localforage] store: the entries in the order [keys()] lists them. *)
Definition Store : Type := list (jsstring * jsstring).

Record World : Type := mkWorld {
  panel : PanelState;
  cache : Store;
  requests : list Request;
  console : list LogEvent
}.

Definition Panel (A : Type) : Type := World -> A * World.

Definition ret {A : Type} (a : A) : Panel A := fun w => (a, w).

Definition bind {A B : Type} (c : Panel A) (k : A -> Panel B) : Panel B :=
  fun w => let (a, w') := c w in k a w'.

Notation "x <- c ;; k" := (bind c (fun x => k))
  (at level 61, c at next level, right associativity).
Notation "c ;;; k" := (bind c (fun _ => k))
  (at level 61, right associativity).

Definition modifyPanel (f : PanelState -> PanelState) : Panel unit :=
  fun w => (tt, mkWorld (f (panel w)) (cache w) (requests w) (console w)).

Definition consoleLog (e : LogEvent) : Panel unit :=
  fun w => (tt, mkWorld (panel w) (cache w) (requests w) (console w ++ [e])).

Definition setAiConfigStatus (v : ConfigStatus) : Panel unit :=
  modifyPanel (fun p =>
    mkPanelState v (pageContent p) (isExtractingContent p) (completion p)
      (isLoading p) (pagePromptDraft p) (pagePromptSaved p) (lastLocationRef p)
      (isInitializedRef p) (abortControllerRef p) (pendingTimerRef p)).

Definition setPageContent (v : jsstring) : Panel unit :=
  modifyPanel (fun p =>
    mkPanelState (aiConfigStatus p) v (isExtractingContent p) (completion p)
      (isLoading p) (pagePromptDraft p) (pagePromptSaved p) (lastLocationRef p)
      (isInitializedRef p) (abortControllerRef p) (pendingTimerRef p)).

Definition setIsExtractingContent (v : bool) : Panel unit :=
  modifyPanel (fun p =>
    mkPanelState (aiConfigStatus p) (pageContent p) v (completion p)
      (isLoading p) (pagePromptDraft p) (pagePromptSaved p) (lastLocationRef p)
      (isInitializedRef p) (abortControllerRef p) (pendingTimerRef p)).

Definition setCompletion (v : jsstring) : Panel unit :=
  modifyPanel (fun p =>
    mkPanelState (aiConfigStatus p) (pageContent p) (isExtractingContent p) v
      (isLoading p) (pagePromptDraft p) (pagePromptSaved p) (lastLocationRef p)
      (isInitializedRef p) (abortControllerRef p) (pendingTimerRef p)).

Definition setIsLoading (v : bool) : Panel unit :=
  modifyPanel (fun p =>
    mkPanelState (aiConfigStatus p) (pageContent p) (isExtractingContent p)
      (completion p) v (pagePromptDraft p) (pagePromptSaved p)
      (lastLocationRef p) (isInitializedRef p) (abortControllerRef p)
      (pendingTimerRef p)).

Definition setPagePromptDraft (v : jsstring) : Panel unit :=
  modifyPanel (fun p =>
    mkPanelState (aiConfigStatus p) (pageContent p) (isExtractingContent p)
      (completion p) (isLoading p) v (pagePromptSaved p) (lastLocationRef p)
      (isInitializedRef p) (abortControllerRef p) (pendingTimerRef p)).

Definition setPagePromptSaved (v : jsstring) : Panel unit :=
  modifyPanel (fun p =>
    mkPanelState (aiConfigStatus p) (pageContent p) (isExtractingContent p)
      (completion p) (isLoading p) (pagePromptDraft p) v (lastLocationRef p)
      (isInitializedRef p) (abortControllerRef p) (pendingTimerRef p)).

Definition setLastLocationRef (v : option jsstring) : Panel unit :=
  modifyPanel (fun p =>
    mkPanelState (aiConfigStatus p) (pageContent p) (isExtractingContent p)
      (completion p) (isLoading p) (pagePromptDraft p) (pagePromptSaved p) v
      (isInitializedRef p) (abortControllerRef p) (pendingTimerRef p)).

Definition setIsInitializedRef (v : bool) : Panel unit :=
  modifyPanel (fun p =>
    mkPanelState (aiConfigStatus p) (pageContent p) (isExtractingContent p)
      (completion p) (isLoading p) (pagePromptDraft p) (pagePromptSaved p)
      (lastLocationRef p) v (abortControllerRef p) (pendingTimerRef p)).

Definition setAbortControllerRef (v : bool) : Panel unit :=
  modifyPanel (fun p =>
    mkPanelState (aiConfigStatus p) (pageContent p) (isExtractingContent p)
      (completion p) (isLoading p) (pagePromptDraft p) (pagePromptSaved p)
      (lastLocationRef p) (isInitializedRef p) v (pendingTimerRef p)).

Definition setPendingTimerRef (v : bool) : Panel unit :=
  modifyPanel (fun p =>
    mkPanelState (aiConfigStatus p) (pageContent p) (isExtractingContent p)
      (completion p) (isLoading p) (pagePromptDraft p) (pagePromptSaved p)
      (lastLocationRef p) (isInitializedRef p) (abortControllerRef p) v).

(** *** The store's operations *)

Fixpoint lookupItem (key : jsstring) (s : Store) : option jsstring :=
  match s with
  | [] => None
  | (k, v) :: rest => if eqb k key then Some v else lookupItem key rest
  end.

Fixpoint putItem (key value : jsstring) (s : Store) : Store :=
  match s with
  | [] => [(key, value)]
  | (k, v) :: rest =>
      if eqb k key then (k, value) :: rest else (k, v) :: putItem key value rest
  end.

Definition dropItem (key : jsstring) (s : Store) : Store :=
  filter (fun kv => negb (eqb (fst kv) key)) s.

Definition getItem (key : jsstring) : Panel (option jsstring) :=
  fun w => (lookupItem key (cache w), w).

Definition keys : Panel (list jsstring) :=
  fun w => (map fst (cache w), w).

Definition setItem (key value : jsstring) : Panel unit :=
  fun w => (tt, mkWorld (panel w) (putItem key value (cache w)) (requests w) (console w)).

Definition removeItem (key : jsstring) : Panel unit :=
  fun w => (tt, mkWorld (panel w) (dropItem key (cache w)) (requests w) (console w)).

(** ** extractPageContent *)

Record ExtractResult : Type := mkExtractResult {
  content : jsstring;
  cacheKey : option jsstring;
  groupPrefix : option jsstring;
  sigSource : option jsstring
}.

Definition startOf (loc : option Location) : option LocationEnd :=
  match loc with Some l => loc_start l | None => None end.

Definition endOf (loc : option Location) : option LocationEnd :=
  match loc with Some l => loc_end l | None => None end.

Definition cfiOf (e : option LocationEnd) : option jsstring :=
  match e with Some x => cfi x | None => None end.

Definition indexOf (e : option LocationEnd) : option Z :=
  match e with Some x => index x | None => None end.

(** The inner [try] of [extractPageContent]: the start block, the end block
    and the spine id, each left [null] when the call that would set it is
    skipped or an earlier call throws. *)
Definition locateBlocks (r : Rendition)
  : option Element * option Element * option jsstring :=
  match currentLocation r with
  | Some Throws => (None, None, None)
  | called =>
      let loc := match called with Some (Returns l) => l | _ => None end in
      let startCfi := orNull (cfiOf (startOf loc)) in
      let endCfi := orNull (cfiOf (endOf loc)) in
      let spineId := option_map showInt (indexOf (startOf loc)) in
      let startBlock : outcome (option Element) :=
        match startCfi, getRange r with
        | Some c, Some range =>
            match range c with
            | Throws => Throws
            | Returns None => Returns (getNearestBlockElement NullNode)
            | Returns (Some r1) => Returns (getNearestBlockElement (startContainer r1))
            end
        | _, _ => Returns None
        end in
      match startBlock with
      | Throws => (None, None, spineId)
      | Returns sb =>
          match endCfi, getRange r with
          | Some c, Some range =>
              match range c with
              | Throws => (sb, None, spineId)
              | Returns None => (sb, getNearestBlockElement NullNode, spineId)
              | Returns (Some r2) =>
                  let node := match endContainer r2 with
                              | NullNode => startContainer r2
                              | n => n
                              end in
                  (sb, getNearestBlockElement node, spineId)
              end
          | _, _ => (sb, None, spineId)
          end
      end
  end.

Definition noKeys (c : jsstring) : ExtractResult := mkExtractResult c None None None.

(** The fallbacks for blocks that were not located ([middle] is
    [paragraphs[Math.floor(paragraphs.length / 2)]]). *)
Definition resolveBlocks (paragraphs : list Element)
  (startBlock0 endBlock0 : option Element) : option Element * option Element :=
  let middle := nth_error paragraphs (Z.to_nat (len paragraphs / 2)) in
  let startBlock1 := match startBlock0, endBlock0 with
                     | None, None => middle
                     | _, _ => startBlock0
                     end in
  let endBlock1 := match startBlock0, endBlock0 with
                   | None, None => startBlock1
                   | _, _ => endBlock0
                   end in
  let startBlock2 := match startBlock1, endBlock1 with
                     | None, Some e => Some e
                     | _, _ => startBlock1
                     end in
  let endBlock2 := match endBlock1, startBlock2 with
                   | None, Some s => Some s
                   | _, _ => endBlock1
                   end in
  (startBlock2, endBlock2).

(** The collected paragraphs that intersect the range from the start block
    to the end block, seeded with the start block when there is none. *)
Definition inBetweenOf (doc : Document) (paragraphs : list Element)
  (startBlock endBlock : Element) : list Element :=
  let found := filter (intersectsNode doc startBlock endBlock) paragraphs in
  if len found =? 0 then found ++ [startBlock] else found.

Definition windowContent (inBetween : list Element) : jsstring :=
  join newline2 (texts (selectWindow inBetween)).

(** The lines after the blocks are located, for a document with a body. *)
Definition extractFromBody (book : option Book) (doc : Document)
  (bodyText : jsstring) (blocks : list Element)
  (located : option Element * option Element * option jsstring) : ExtractResult :=
  let '(startBlock0, endBlock0, spineId) := located in
  let paragraphs := collectParagraphElements blocks in
  if len paragraphs =? 0 then
    noKeys (orElse (sliceTo 2000 (normalizeWhitespace bodyText)) msgNoValidContent)
  else
    match resolveBlocks paragraphs startBlock0 endBlock0 with
    | (Some startBlock, Some endBlock) =>
        let inBetween := inBetweenOf doc paragraphs startBlock endBlock in
        let context := windowContent inBetween in
        let paraHashSource := paraHashSourceOf inBetween in
        let bookId := bookIdOf book in
        let spinePart := spinePartOf spineId in
        let startIdx := findIndex paragraphs startBlock in
        let endIdx := findIndex paragraphs endBlock in
        let centerPart := centerPartOf startIdx endIdx in
        let contentSig := stableHash paraHashSource in
        let cacheKey := cacheKeyOf bookId spinePart centerPart contentSig in
        let groupPrefix := groupPrefixOf bookId spinePart in
        if nonEmpty context && (len context >=? 50) then
          mkExtractResult context (Some cacheKey) (Some groupPrefix) (Some paraHashSource)
        else
          mkExtractResult
            (orElse (sliceTo (Z.to_nat fallbackMaxChars) (normalizeWhitespace bodyText))
               msgNoValidContent)
            None (Some groupPrefix) (Some paraHashSource)
    | _ =>
        noKeys (orElse (sliceTo 2000 (normalizeWhitespace bodyText)) msgNoValidContent)
    end.

(** The outer [try] block; [Throws] is what its [catch] handles. *)
Definition extractTry (book : option Book) (r : Rendition) : outcome ExtractResult :=
  match getContents r with
  | Throws => Throws
  | Returns None | Returns (Some []) => Returns (noKeys msgNoPageContent)
  | Returns (Some (first :: _)) =>
      match first with
      | None => Returns (noKeys msgNoDocument)
      | Some doc =>
          match body doc with
          | None => Returns (noKeys msgNoDocument)
          | Some (bodyText, blocks) =>
              Returns (extractFromBody book doc bodyText blocks (locateBlocks r))
          end
      end
  end.

Definition extractPageContent (book : option Book) (rendition : option Rendition)
  : Panel ExtractResult :=
  match rendition with
  | None => ret (noKeys [])
  | Some r =>
      setIsExtractingContent true ;;;
      res <- match extractTry book r with
             | Returns res => ret res
             | Throws => consoleLog WarnExtractFailed ;;; ret (noKeys msgExtractError)
             end ;;
      setIsExtractingContent false ;;;
      ret res
  end.

(** ** Configuration ([storage.ts]) *)

(** [window.localStorage]; [None] when reading it throws. *)
Definition LocalStorage : Type := option (list (jsstring * jsstring)).

Record AIConfig : Type := mkAIConfig {
  apiKey : jsstring;
  baseUrl : jsstring;
  model : jsstring;
  userPrompt : jsstring
}.

Module STORAGE_KEYS.
Definition AI_API_KEY : jsstring := lit "ai:apiKey".
Definition AI_BASE_URL : jsstring := lit "ai:baseUrl".
Definition AI_MODEL : jsstring := lit "ai:model".
Definition AI_USER_PROMPT : jsstring := lit "ai:userPrompt".
Definition THEME : jsstring := lit "appTheme".
Definition READER_FONT_SIZE : jsstring := lit "reader:fontSize".
Definition READER_FONT_FAMILY : jsstring := lit "reader:fontFamily".
End STORAGE_KEYS.

(** [Storage.getItem(key, defaultValue)]: [localStorage.getItem(key) ?? defaultValue],
    and [defaultValue] when that throws. *)
Definition storageGetItem (ls : LocalStorage) (key defaultValue : jsstring) : jsstring :=
  match ls with
  | None => defaultValue
  | Some entries =>
      match lookupItem key entries with
      | Some v => v
      | None => defaultValue
      end
  end.

(** [Storage.setItem(key, value)]: [localStorage.setItem(key, value)], and
    nothing when that throws. *)
Definition storageSetItem (ls : LocalStorage) (key value : jsstring) : LocalStorage :=
  match ls with
  | None => None
  | Some entries => Some (putItem key value entries)
  end.

Module aiStorage.
Definition getApiKey (ls : LocalStorage) : jsstring :=
  storageGetItem ls STORAGE_KEYS.AI_API_KEY [].
Definition getBaseUrl (ls : LocalStorage) : jsstring :=
  storageGetItem ls STORAGE_KEYS.AI_BASE_URL (lit "https://api-inference.modelscope.cn/v1").
Definition getModel (ls : LocalStorage) : jsstring :=
  storageGetItem ls STORAGE_KEYS.AI_MODEL (lit "Qwen/Qwen3-235B-A22B-Instruct-2507").
Definition getUserPrompt (ls : LocalStorage) : jsstring :=
  storageGetItem ls STORAGE_KEYS.AI_USER_PROMPT [].
Definition getAll (ls : LocalStorage) : AIConfig :=
  mkAIConfig (getApiKey ls) (getBaseUrl ls) (getModel ls) (getUserPrompt ls).




Definition isConfigured (ls : LocalStorage) : bool :=
  let config := getAll ls in
  nonEmpty (apiKey config) && nonEmpty (baseUrl config) && nonEmpty (model config).
End aiStorage.

(** The [missing] array of [checkAiConfig]. *)
Definition missingItems (config : AIConfig) : list jsstring :=
  (if negb (nonEmpty (trim (apiKey config))) then [lit "API Key"] else [])
  ++ (if negb (nonEmpty (trim (baseUrl config))) then [lit "Base URL"] else [])
  ++ (if negb (nonEmpty (trim (model config))) then [lit "Model"] else []).

Definition checkAiConfig (ls : LocalStorage) : Panel unit :=
  let config := aiStorage.getAll ls in
  let missing := missingItems config in
  setAiConfigStatus (mkConfigStatus (len missing =? 0) missing).



(** ** The completion service's answer *)

Inductive FetchError : Type := AbortError | OtherError.

Inductive StreamEnd : Type :=
| StreamDone
| StreamFails (e : FetchError).

(** What [reader.read()] yields: the decoded text of each chunk, then the end
    of the stream or a rejection. *)
Record ResponseBody : Type := mkResponseBody {
  chunks : list jsstring;
  streamEnd : StreamEnd
}.

Inductive FetchResult : Type :=
| FetchRejects (e : FetchError)
| FetchResponds (ok : bool) (responseBody : option ResponseBody).

(** A value produced by [JSON.parse].  A number carries whether it is zero
    and its rendering by [String]. *)
Inductive json : Type :=
| JNull
| JBool (b : bool)
| JNum (isZero : bool) (shown : jsstring)
| JStr (s : jsstring)
| JArr (items : list json)
| JObj (fields : list (jsstring * json)).

Fixpoint lookupField (name : jsstring) (fields : list (jsstring * json)) : option json :=
  match fields with
  | [] => None
  | (k, v) :: rest => if eqb k name then Some v else lookupField name rest
  end.

(** [v.name] for a property name that is neither an index nor [length], on a
    value that is not [null]; [None] is [undefined]. *)
Definition getProp (v : json) (name : jsstring) : option json :=
  match v with
  | JObj fields => lookupField name fields
  | _ => None
  end.

(** [v[0]] on a value that is not [null]. *)
Definition getIndex0 (v : json) : option json :=
  match v with
  | JArr items => nth_error items 0
  | JStr (c :: _) => Some (JStr [c])
  | JObj fields => lookupField (lit "0") fields
  | _ => None
  end.

(** [jsonData.choices?.[0]?.delta?.content]; reading [choices] of [null]
    throws. *)
Definition deltaContentOf (jsonData : json) : outcome (option json) :=
  match jsonData with
  | JNull => Throws
  | _ =>
      match getProp jsonData (lit "choices") with
      | None | Some JNull => Returns None
      | Some choices =>
          match getIndex0 choices with
          | None | Some JNull => Returns None
          | Some choice =>
              match getProp choice (lit "delta") with
              | None | Some JNull => Returns None
              | Some delta => Returns (getProp delta (lit "content"))
              end
          end
      end
  end.

Definition truthy (v : option json) : bool :=
  match v with
  | None | Some JNull => false
  | Some (JBool b) => b
  | Some (JNum isZero _) => negb isZero
  | Some (JStr s) => nonEmpty s
  | Some (JArr _) | Some (JObj _) => true
  end.

(** The string [accumulatedContent += v] appends. *)
Fixpoint toStringForConcat (v : json) : jsstring :=
  match v with
  | JNull => lit "null"
  | JBool true => lit "true"
  | JBool false => lit "false"
  | JNum _ shown => shown
  | JStr s => s
  | JArr items =>
      join (lit ",")
        (map (fun x => match x with JNull => [] | _ => toStringForConcat x end) items)
  | JObj _ => lit "[object Object]"
  end.

(** The literal '生成总结时出现错误，请重试。'. *)
Definition msgGenerationError : jsstring :=
  [29983; 25104; 24635; 32467; 26102; 20986; 29616; 38169; 35823; 65292;
   35831; 37325; 35797; 12290]%N.

(** The literal '当前页提示词：\n'. *)
Definition pagePromptHeader : jsstring :=
  [24403; 21069; 39029; 25552; 31034; 35789; 65306; 10]%N.

(** The literal '全局用户提示词：\n'. *)
Definition userPromptHeader : jsstring :=
  [20840; 23616; 29992; 25143; 25552; 31034; 35789; 65306; 10]%N.

(** The literal '正文：\n'. *)
Definition bodyHeader : jsstring :=
  [27491; 25991; 65306; 10]%N.

(** The template literal [systemMsg] of [generateSummary] (84 code units). *)
Definition systemMsg : jsstring :=
  [20320; 26159; 31934; 28860; 30340; 20013; 25991; 38405; 35835; 24635;
   32467; 21161; 25163; 12290; 20005; 26684; 36981; 24490; 20197; 19979;
   20248; 20808; 32423; 24182; 25454; 27492; 29983; 25104; 22238; 31572;
   65306; 10; 49; 41; 32; 24403; 21069; 39029; 25552; 31034; 35789; 65288;
   26368; 39640; 20248; 20808; 32423; 65289; 10; 50; 41; 32; 20840; 23616;
   29992; 25143; 25552; 31034; 35789; 10; 51; 41; 32; 36755; 20986; 35201;
   27714; 10; 33509; 21508; 39033; 20986; 29616; 20914; 31361; 65292;
   22987; 32456; 20197; 21069; 32773; 20026; 20934; 12290]%N.

(** The template literal [rulesMsg] of [generateSummary] (263 code units). *)
Definition rulesMsg : jsstring :=
  [36755; 20986; 35201; 27714; 65306; 10; 45; 32; 33509; 23384; 22312;
   25552; 31034; 35789; 65292; 35831; 20808; 38405; 35835; 24182; 20005;
   26684; 36981; 24490; 25552; 31034; 35789; 30340; 35201; 27714; 65307;
   22312; 28385; 36275; 25552; 31034; 35789; 30340; 21069; 25552; 19979;
   23545; 27491; 25991; 36827; 34892; 24635; 32467; 65288; 25552; 31034;
   35789; 20248; 20808; 20110; 20854; 23427; 35268; 21017; 65289; 12290;
   10; 45; 32; 20808; 29992; 49; 45; 50; 21477; 32473; 20986; 25972;
   20307; 27010; 36848; 65288; 26680; 24515; 35266; 28857; 47; 24773;
   33410; 47; 20027; 39064; 65289; 12290; 10; 45; 32; 20877; 29992; 51;
   45; 55; 26465; 35201; 28857; 65288; 20351; 29992; 12300; 45; 32; 12301;
   21015; 34920; 65289; 23637; 24320; 20851; 38190; 20449; 24687; 65306;
   32972; 26223; 47; 21407; 22240; 47; 36807; 31243; 47; 32467; 35770; 47;
   24433; 21709; 47; 20851; 38190; 26415; 35821; 31561; 12290; 10; 45; 32;
   22914; 26377; 24517; 35201; 65292; 21487; 24341; 29992; 49; 21477;
   21407; 25991; 30701; 21477; 65288; 21152; 24341; 21495; 65289; 20304;
   35777; 25110; 28857; 39064; 65288; 21487; 36873; 65289; 12290; 10; 45;
   32; 21482; 36755; 20986; 24635; 32467; 20869; 23481; 26412; 36523;
   65292; 19981; 35201; 20219; 20309; 21069; 32512; 47; 21518; 32512; 47;
   33268; 35874; 47; 20813; 36131; 22768; 26126; 12290; 10; 45; 32; 19981;
   35201; 36755; 20986; 20070; 21517; 12289; 20316; 32773; 12289; 26469;
   28304; 31561; 20449; 24687; 65307; 19981; 35201; 20986; 29616; 8220;
   26412; 27573; 20986; 33258; 8230; 47; 20197; 19979; 26159; 8230; 8221;
   31561; 35805; 26415; 12290; 10; 45; 32; 24635; 38271; 24230; 19981;
   36229; 36807; 49; 48; 48; 48; 23383; 65292; 36991; 20813; 20887; 38271;
   21644; 37325; 22797; 12290]%N.

(** ** Summary streamer and cache resolver *)

Definition getPanel : Panel PanelState := fun w => (panel w, w).

Definition sendRequest (r : Request) : Panel unit :=
  fun w => (tt, mkWorld (panel w) (cache w) (requests w ++ [r]) (console w)).

Definition stopGeneration : Panel unit :=
  p <- getPanel ;;
  (if abortControllerRef p then setAbortControllerRef false else ret tt) ;;;
  setIsLoading false.

(** [baseUrl.replace(/\/$/, '')]: a slash at the very end is removed. *)
Definition stripTrailingSlash (s : jsstring) : jsstring :=
  match rev s with
  | c :: r => if (c =? 47)%N then rev r else s
  | [] => s
  end.

Definition buildMessages (pagePromptText userPromptText content : jsstring)
  : list (Role * jsstring) :=
  [(RoleSystem, systemMsg)]
  ++ (if nonEmpty pagePromptText then [(RoleUser, pagePromptHeader ++ pagePromptText)] else [])
  ++ (if nonEmpty userPromptText then [(RoleUser, userPromptHeader ++ userPromptText)] else [])
  ++ [(RoleUser, rulesMsg)]
  ++ [(RoleUser, bodyHeader ++ content)].

(** Similarity of two texts in [0, 1].  The quotient of the two counts is a
    rational number; the source computes it in floating point, where two
    quotients of counts below 2^26 compare as the rationals do and
    [x >= 0.8] holds exactly when the rational is at least 4/5. *)
Definition similarity (a b : jsstring) : Q :=
  let setA := newSet (words a) in
  let setB := newSet (words b) in
  let inter := len (filter (has setB) setA) in
  let union := len setA + len setB - inter in
  if union =? 0 then 0%Q else (inject_Z inter / inject_Z union)%Q.

Definition Qltb (x y : Q) : bool := negb (Qle_bool y x).

Definition threshold : Q := 8 # 10.

Section Runtime.

(** [JSON.parse]: [None] when it throws. *)
Variable JSON_parse : jsstring -> option json.
(** The answer of [fetch] to a request. *)
Variable fetch : Request -> FetchResult.
Variable localStorage : LocalStorage.

(** One iteration of [for (const line of lines)]; the result is the new
    value of [accumulatedContent]. *)
Definition processLine (accumulatedContent : jsstring) (line : jsstring)
  : Panel jsstring :=
  let trimmed := trim line in
  if negb (nonEmpty trimmed) || eqb trimmed (lit "data: [DONE]") then
    ret accumulatedContent
  else if startsWith trimmed (lit "data: ") then
    match JSON_parse (sliceFrom 6 trimmed) with
    | None => consoleLog WarnParseFailed ;;; ret accumulatedContent
    | Some jsonData =>
        match deltaContentOf jsonData with
        | Throws => consoleLog WarnParseFailed ;;; ret accumulatedContent
        | Returns delta =>
            if truthy delta then
              let d := match delta with Some v => toStringForConcat v | None => [] end in
              let acc := accumulatedContent ++ d in
              setCompletion acc ;;;
              consoleLog (LogStreamDelta d) ;;;
              ret acc
            else ret accumulatedContent
        end
    end
  else ret accumulatedContent.

Fixpoint processLines (accumulatedContent : jsstring) (lines : list jsstring)
  : Panel jsstring :=
  match lines with
  | [] => ret accumulatedContent
  | line :: rest =>
      acc <- processLine accumulatedContent line ;;
      processLines acc rest
  end.

(** The [while (true)] loop over the chunks the reader yields. *)
Fixpoint readLoop (accumulatedContent : jsstring) (pending : list jsstring)
  : Panel jsstring :=
  match pending with
  | [] => ret accumulatedContent
  | chunk :: rest =>
      acc <- processLines accumulatedContent (splitOn 10 chunk) ;;
      readLoop acc rest
  end.

(** The [catch] and [finally] blocks of [generateSummary]. *)
Definition onGenerationError (e : FetchError) : Panel unit :=
  match e with
  | AbortError => consoleLog LogCancelled
  | OtherError => consoleLog ErrorSummaryFailed ;;; setCompletion msgGenerationError
  end.

Definition finishGeneration : Panel unit :=
  setIsLoading false ;;; setAbortControllerRef false.

(** The lines of [generateSummary] between its guard and the call of
    [fetch]; the result is the request about to be sent. *)
Definition startGeneration (snap : PanelState) (content : jsstring)
  (overridePagePrompt : option jsstring) : Panel Request :=
  stopGeneration ;;;
  let userPromptText := trim (aiStorage.getUserPrompt localStorage) in
  let pagePromptText :=
    trim (match overridePagePrompt with
          | Some p => p
          | None => pagePromptSaved snap
          end) in
  let messages := buildMessages pagePromptText userPromptText content in
  consoleLog (LogRequestInfo (len content) (len messages)) ;;;
  let config := aiStorage.getAll localStorage in
  setAbortControllerRef true ;;;
  setIsLoading true ;;;
  setCompletion [] ;;;
  ret (mkRequest (stripTrailingSlash (baseUrl config) ++ lit "/chat/completions")
         (lit "Bearer " ++ apiKey config) (model config) messages true
         CONTEXT_TOKENS_LIMIT (7 # 10)).

(** The rest of the [try] block, given the answer of [fetch], with the
    [catch] block. *)
Definition consumeResponse (answer : FetchResult) : Panel unit :=
  match answer with
  | FetchRejects e => onGenerationError e
  | FetchResponds false _ => onGenerationError OtherError
  | FetchResponds true None => onGenerationError OtherError
  | FetchResponds true (Some stream) =>
      acc <- readLoop [] (chunks stream) ;;
      match streamEnd stream with
      | StreamDone => consoleLog (LogSummaryDone acc)
      | StreamFails e => onGenerationError e
      end
  end.

(** [generateSummary(content, overridePagePrompt)] of the render [snap]. *)
Definition generateSummary (snap : PanelState) (content : jsstring)
  (overridePagePrompt : option jsstring) : Panel unit :=
  if negb (nonEmpty content) || negb (configured (aiConfigStatus snap)) then ret tt
  else
    request <- startGeneration snap content overridePagePrompt ;;
    sendRequest request ;;;
    consumeResponse (fetch request) ;;;
    finishGeneration.

(** The fuzzy lookup's loop over [groupKeys]; [best] is
    [(bestKey, bestScore)]. *)
Fixpoint scanGroup (content : jsstring) (groupKeys : list jsstring)
  (best : option jsstring * Q) : Panel (option jsstring * Q) :=
  match groupKeys with
  | [] => ret best
  | k :: rest =>
      cachedText <- getItem k ;;
      match orNull cachedText with
      | None => scanGroup content rest best
      | Some text =>
          let cachedWindow := sliceTo 400 text in
          let curWindow := sliceTo 400 content in
          let score := similarity curWindow cachedWindow in
          if Qltb (snd best) score then scanGroup content rest (Some k, score)
          else scanGroup content rest best
      end
  end.

(** The fuzzy path; [true] when it showed a cached summary and the handler
    returns. *)
Definition fuzzyLookup (content groupPrefix : jsstring) : Panel bool :=
  allKeys <- keys ;;
  let groupKeys := filter (fun k => startsWith k groupPrefix) allKeys in
  best <- scanGroup content groupKeys (None, 0%Q) ;;
  match orNull (fst best) with
  | Some bestKey =>
      if Qle_bool threshold (snd best) then
        cached <- getItem bestKey ;;
        match orNull cached with
        | Some text =>
            consoleLog (LogFuzzyHit bestKey) ;;;
            setCompletion text ;;;
            ret true
        | None => ret false
        end
      else ret false
  | None => ret false
  end.

(** The exact path; [true] when it showed a cached summary. *)
Definition exactLookup (key : option jsstring) : Panel bool :=
  match orNull key with
  | Some k =>
      cached <- getItem k ;;
      match orNull cached with
      | Some text =>
          consoleLog (LogCacheHit k) ;;;
          setCompletion text ;;;
          ret true
      | None => ret false
      end
  | None => ret false
  end.

(** The callback of the second [setTimeout]: it reads [completion], a
    variable of the render that created the effect. *)
Definition deferredCacheWrite (snap : PanelState) (key : jsstring) : Panel unit :=
  if nonEmpty (completion snap) then
    setItem key (completion snap) ;;;
    consoleLog (LogCacheWrite key)
  else ret tt.

(** What runs once [extractPageContent()] has resolved, in the page-change
    effect. *)
Definition resolveAndGenerate (snap : PanelState) (res : ExtractResult) : Panel unit :=
  let key := cacheKey res in
  setPagePromptDraft [] ;;;
  setPagePromptSaved [] ;;;
  setPageContent (content res) ;;;
  hit <- exactLookup key ;;
  if hit then ret tt
  else
    fuzzyHit <-
      match orNull key, orNull (groupPrefix res), orNull (sigSource res) with
      | None, Some prefix, Some _ => fuzzyLookup (content res) prefix
      | _, _, _ => ret false
      end ;;
    if fuzzyHit then ret tt
    else
      generateSummary snap (content res) None ;;;
      match orNull key with
      | Some k => deferredCacheWrite snap k
      | None => ret tt
      end.

(** The page-change effect of the render [snap] with its two timers, run
    without any other event in between. *)
Definition pageChangeEffect (snap : PanelState) (open : bool)
  (book : option Book) (rendition : option Rendition)
  (location : option jsstring) : Panel unit :=
  if negb open || negb (configured (aiConfigStatus snap)) then ret tt
  else
    refs <- getPanel ;;
    let changed :=
      match location, lastLocationRef refs with
      | Some l, Some l' => negb (eqb l l')
      | Some _, None => true
      | None, _ => false
      end in
    let shouldTriggerSummary := negb (isInitializedRef refs) || changed in
    if shouldTriggerSummary then
      (if pendingTimerRef refs then setPendingTimerRef false else ret tt) ;;;
      stopGeneration ;;;
      setPendingTimerRef true ;;;
      setLastLocationRef location ;;;
      setIsInitializedRef true ;;;
      res <- extractPageContent book rendition ;;
      resolveAndGenerate snap res
    else ret tt.

Definition handleRefreshSummary (snap : PanelState) (book : option Book)
  (rendition : option Rendition) : Panel unit :=
  stopGeneration ;;;
  res <- extractPageContent book rendition ;;
  setPageContent (content res) ;;;
  match orNull (cacheKey res) with
  | Some k => removeItem k
  | None => ret tt
  end ;;;
  generateSummary snap (content res) None.

End Runtime.

(** ** Definitions used to state the properties *)

(** The number of characters of [ts.join('\n\n')], counted as the claim
    does: each text's length, and two more for every text after the first. *)
Fixpoint windowChars (ts : list jsstring) : Z :=
  match ts with
  | [] => 0
  | t :: rest =>
      len t + match rest with
              | [] => 0
              | _ :: _ => 2 + windowChars rest
              end
  end.

(** The normalized text of the paragraph at index [i] of [inBetween]. *)
Definition normalizedAt (inBetween : list Element) (i : Z) : jsstring :=
  normalizeWhitespace (textOfOpt (nth_error inBetween (Z.to_nat i))).

(** An index of [inBetween] is a boundary when it is the first or the last. *)
Definition isBoundary (inBetween : list Element) (i : Z) : Prop :=
  i = 0 \/ i = len inBetween - 1.

(** The rolling hash in the words of the specification: multiply by 131, add
    the character code, truncate to 32 bits, for each character in turn. *)
Definition rollingHash (s : jsstring) : Z :=
  fold_left (fun h c => (h * 131 + Z.of_N c) mod 2 ^ 32) s 0.

(** The same sum without any truncation. *)
Definition hornerSum (s : jsstring) : Z :=
  fold_left (fun h c => h * 131 + Z.of_N c) s 0.

(** The stored entries whose key starts with the group prefix. *)
Definition groupEntries (prefix : jsstring) (s : Store) : Store :=
  filter (fun kv => startsWith (fst kv) prefix) s.

(** Similarity of the first 400 characters of the current content and of a
    cached text. *)
Definition windowScore (content cached : jsstring) : Q :=
  similarity (sliceTo 400 content) (sliceTo 400 cached).

Definition Qmaxb (x y : Q) : Q := if Qle_bool x y then y else x.

(** The largest similarity over the entries of the group (0 for an empty
    group). *)
Definition maxScore (content prefix : jsstring) (s : Store) : Q :=
  fold_left (fun m kv => Qmaxb m (windowScore content (snd kv))) (groupEntries prefix s) 0%Q.

(** The text one line of the stream contributes to the summary. *)
Definition lineDelta (JSON_parse : jsstring -> option json) (line : jsstring) : jsstring :=
  let trimmed := trim line in
  if negb (nonEmpty trimmed) || eqb trimmed (lit "data: [DONE]") then []
  else if startsWith trimmed (lit "data: ") then
    match JSON_parse (sliceFrom 6 trimmed) with
    | None => []
    | Some jsonData =>
        match deltaContentOf jsonData with
        | Returns (Some v) => if truthy (Some v) then toStringForConcat v else []
        | _ => []
        end
    end
  else [].


(** The request [generateSummary] builds. *)
Definition requestFor (localStorage : LocalStorage) (snap : PanelState)
  (content : jsstring) (overridePagePrompt : option jsstring) : Request :=
  let config := aiStorage.getAll localStorage in
  mkRequest (stripTrailingSlash (baseUrl config) ++ lit "/chat/completions")
    (lit "Bearer " ++ apiKey config) (model config)
    (buildMessages
       (trim (match overridePagePrompt with
              | Some p => p
              | None => pagePromptSaved snap
              end))
       (trim (aiStorage.getUserPrompt localStorage)) content)
    true CONTEXT_TOKENS_LIMIT (7 # 10).

(** The key the specification describes, for the boundary blocks
    [startBlock] and [endBlock] and the first and last paragraph of the
    in-between sequence. *)
Definition specifiedKey (book : option Book) (spineId : option jsstring)
  (paragraphs : list Element) (startBlock endBlock firstPara lastPara : Element)
  : jsstring :=
  let startIndex := findIndex paragraphs startBlock in
  let endIndex := findIndex paragraphs endBlock in
  let signatureSource :=
    sliceTo 120 (normalizeWhitespace (textContent firstPara)) ++ lit "|"
    ++ sliceTo 120 (normalizeWhitespace (textContent lastPara)) in
  lit "ai-summary:" ++ bookIdOf book ++ lit ":" ++ spinePartOf spineId ++ lit ":"
  ++ showInt (Z.min startIndex endIndex) ++ lit "-"
  ++ showInt (Z.max startIndex endIndex) ++ lit ":"
  ++ showHex (rollingHash signatureSource).

(** [key] is the specified key of the extraction from [blocks]. *)
Definition keyAsSpecified (book : option Book) (doc : Document)
  (blocks : list Element) (startBlock0 endBlock0 : option Element)
  (spineId : option jsstring) (key : jsstring) : Prop :=
  exists startBlock endBlock firstPara lastPara,
    let paragraphs := collectParagraphElements blocks in
    let inBetween := inBetweenOf doc paragraphs startBlock endBlock in
    resolveBlocks paragraphs startBlock0 endBlock0 = (Some startBlock, Some endBlock)
    /\ nth_error inBetween 0 = Some firstPara
    /\ nth_error inBetween (List.length inBetween - 1) = Some lastPara
    /\ key = specifiedKey book spineId paragraphs startBlock endBlock firstPara lastPara.

(** *** Sample documents *)

Definition para (ref : nat) (text : string) : Element := mkElement ref true (lit text).

(** Two paragraphs of prose; every range meets every paragraph. *)
Definition twoParagraphs : list Element :=
  [para 1 "It was the best of times, it was the worst";
   para 2 "of times, it was the age of wisdom and folly"].

Definition twoParagraphDoc : Document :=
  mkDocument (Some (lit "It was the best of times", twoParagraphs)) (fun _ _ _ => true).

Definition sampleBook : option Book := Some (mkBook (lit "b1") (lit "T") (lit "A")).

Definition twoParagraphKey : jsstring := lit "ai-summary:b1:3:0-1:89989628".

(** Three blocks: an empty paragraph the viewport starts in, and prose that
    the range around it does not meet. *)
Definition blankBlock : Element := para 7 "   ".

Definition blankThenProse : list Element :=
  [blankBlock; para 8 "A paragraph with more than twenty characters."].

Definition blankDoc : Document :=
  mkDocument (Some (lit "", blankThenProse))
    (fun startBlock endBlock el => sameElement el startBlock || sameElement el endBlock).

Definition threeParagraphs : list Element :=
  [para 1 "first paragraph"; para 2 "middle"; para 3 "last paragraph"].

(** One paragraph of exactly twenty characters. *)
Definition shortParagraph : list Element := [para 1 "aaaaaaaaaaaaaaaaaaaa"].

Definition shortDoc : Document :=
  mkDocument (Some (lit "aaaaaaaaaaaaaaaaaaaa", shortParagraph)) (fun _ _ _ => true).

Definition shortRendition : Rendition :=
  mkRendition (Returns (Some [Some shortDoc])) None None.

(** The state of a panel that has just been mounted, and a world around it
    with an empty store. *)
Definition initialPanel : PanelState :=
  mkPanelState (mkConfigStatus false []) [] false [] false [] [] None false false false.

Definition emptyWorld : World := mkWorld initialPanel [] [] [].

Definition twoParagraphRendition : Rendition :=
  mkRendition (Returns (Some [Some twoParagraphDoc])) None None.

(** The result of [extractPageContent], whatever the state of the panel. *)
Definition extractionResult (book : option Book) (rendition : option Rendition)
  : ExtractResult :=
  match rendition with
  | None => noKeys []
  | Some r =>
      match extractTry book r with
      | Returns res => res
      | Throws => noKeys msgExtractError
      end
  end.

(** The text a sequence of chunks contributes: the deltas of their lines, in
    the order the lines arrive. *)
Definition streamText (JSON_parse : jsstring -> option json) (pending : list jsstring)
  : jsstring :=
  List.concat (map (lineDelta JSON_parse) (flat_map (splitOn 10) pending)).


(** What the panel shows as the summary. *)
Definition visibleOutput (w : World) : jsstring := completion (panel w).

(** The visible output a generation ends with, by the answer of [fetch]:
    the text of the stream when it ends or is aborted, the retry message
    when the request or the stream fails otherwise. *)
Definition shownAfter (JSON_parse : jsstring -> option json) (answer : FetchResult)
  : jsstring :=
  match answer with
  | FetchRejects AbortError => []
  | FetchRejects OtherError => msgGenerationError
  | FetchResponds false _ => msgGenerationError
  | FetchResponds true None => msgGenerationError
  | FetchResponds true (Some stream) =>
      match streamEnd stream with
      | StreamDone | StreamFails AbortError => streamText JSON_parse (chunks stream)
      | StreamFails OtherError => msgGenerationError
      end
  end.




(** The world when the handler reaches its cache lookups. *)
Definition afterReset (res : ExtractResult) (w : World) : World :=
  snd ((setPagePromptDraft [] ;;; setPagePromptSaved [] ;;; setPageContent (content res)) w).

(** *** Sample configuration, stream and store *)

Definition quote : jsstring := [34%N].

(** The value of a payload that carries the delta [text]. *)
Definition deltaJson (text : jsstring) : json :=
  JObj [(lit "choices", JArr [JObj [(lit "delta", JObj [(lit "content", JStr text)])]])].

(** The text of such a payload, for a [text] without quotes or escapes. *)
Definition deltaPayload (text : jsstring) : jsstring :=
  lit "{" ++ quote ++ lit "choices" ++ quote ++ lit ":[{" ++ quote ++ lit "delta"
  ++ quote ++ lit ":{" ++ quote ++ lit "content" ++ quote ++ lit ":" ++ quote ++ text
  ++ quote ++ lit "}}]}".

(** A stand-in for [JSON.parse] that knows the payloads of the sample
    stream and rejects everything else. *)
Definition sampleParse (payload : jsstring) : option json :=
  if eqb payload (deltaPayload (lit "NEW")) then Some (deltaJson (lit "NEW"))
  else if eqb payload (deltaPayload (lit " text")) then Some (deltaJson (lit " text"))
  else if eqb payload (lit "null") then Some JNull
  else None.

Definition dataLine (payload : jsstring) : jsstring := lit "data: " ++ payload.

(** Two chunks: a delta, a line cut short, and a second delta; then the
    end-of-stream marker. *)
Definition sampleChunks : list jsstring :=
  [dataLine (deltaPayload (lit "NEW")) ++ [10%N] ++ dataLine (lit "{broken") ++ [10%N];
   dataLine (deltaPayload (lit " text")) ++ [10%N] ++ lit "data: [DONE]" ++ [10%N]].

Definition sampleFetch (_ : Request) : FetchResult :=
  FetchResponds true (Some (mkResponseBody sampleChunks StreamDone)).

(** A configuration with a credential; endpoint and model take their
    defaults. *)
Definition sampleStorage : LocalStorage :=
  Some [(STORAGE_KEYS.AI_API_KEY, lit "sk-test")].


(** A configured panel that shows the summary of the page before. *)
Definition readingPanel : PanelState :=
  mkPanelState (mkConfigStatus true []) (lit "previous page") false
    (lit "OLD summary") false [] [] (Some (lit "epubcfi(/6/2)")) true false false.

Definition readingWorld : World := mkWorld readingPanel [] [] [].

(** A configured panel on its first render. *)
Definition freshPanel : PanelState :=
  mkPanelState (mkConfigStatus true []) [] false [] false [] [] None false false false.

Definition freshWorld : World := mkWorld freshPanel [] [] [].


Definition chapterWorld : World :=
  mkWorld freshPanel
    [(lit "books:v2", lit "[]");
     (lit "ai-summary:b1:0:0-1:1998f2", lit "alpha beta gamma delta")] [] [].


(** *** Invariants and frames *)

(** The selection's bookkeeping: the texts are those of the selected
    indices, in order, and [total] is the length of their join. *)
Definition coherent (ib : list Element) (s : Selection) : Prop :=
  texts s = map (normalizedAt ib) (selectedIdxs s)
  /\ total s = windowChars (texts s)
  /\ NoDup (selectedIdxs s)
  /\ Forall (fun i => 0 <= i < len ib) (selectedIdxs s).

(** Once both boundary paragraphs are in, the budget rules every addition. *)
Definition budgeted (ib : list Element) (s : Selection) : Prop :=
  2 <= len (texts s)
  /\ ((forall i, In i (selectedIdxs s) -> isBoundary ib i) \/ total s <= charBudget).

(** [keeps proj c]: running [c] does not change the part [proj] of the world. *)
Definition keeps {A B : Type} (proj : World -> B) (c : Panel A) : Prop :=
  forall w, proj (snd (c w)) = proj w.

(** A degraded extraction whose text is further from the stored entry. *)
Definition distantResult : ExtractResult :=
  mkExtractResult (lit "alpha beta gamma delta epsilon zeta") None
    (Some (lit "ai-summary:b1:0:")) (Some (lit "alpha|zeta")).

(** ** The rest of [storage.ts] and of the panel *)

(** [parseInt(s, 10)]: leading white space is skipped, a sign is read, and
    the longest run of decimal digits is the value; [None] is [NaN].  The
    value is exact here; the callers clamp it to a small range, which the
    rounding of a long run of digits cannot change. *)
Definition isDigit (c : N) : bool := ((48 <=? c) && (c <=? 57))%N.

Fixpoint takeWhile {A : Type} (p : A -> bool) (l : list A) : list A :=
  match l with
  | [] => []
  | x :: r => if p x then x :: takeWhile p r else []
  end.

Definition digitsValue (digits : jsstring) : Z :=
  fold_left (fun acc c => acc * 10 + (Z.of_N c - 48)) digits 0.

Definition parseInt10 (s : jsstring) : option Z :=
  let t := trimStart s in
  let negative := match t with c :: _ => (c =? 45)%N | [] => false end in
  let rest := match t with
              | c :: r => if (c =? 45)%N || (c =? 43)%N then r else t
              | [] => t
              end in
  match takeWhile isDigit rest with
  | [] => None
  | digits => Some (if negative then - digitsValue digits else digitsValue digits)
  end.

Inductive Theme : Type := light | dark.

Definition themeName (t : Theme) : jsstring :=
  match t with
  | light => lit "light"
  | dark => lit "dark"
  end.

(** [themeStorage]; the [themeChanged] event that [set] dispatches is not
    part of the stored state. *)
Module themeStorage.
Definition set (theme : Theme) (ls : LocalStorage) : LocalStorage :=
  storageSetItem ls STORAGE_KEYS.THEME (themeName theme).
End themeStorage.


(** [readerStorage], without the line height, which is a fraction;
    [setFontSize] is [None] for a size [numberToString] does not cover. *)
Module readerStorage.
Definition getFontSize (ls : LocalStorage) : Z :=
  let fontSize := storageGetItem ls STORAGE_KEYS.READER_FONT_SIZE [] in
  if negb (nonEmpty fontSize) then 16
  else match parseInt10 fontSize with
       | None => 16
       | Some n => Z.min 28 (Z.max 12 n)
       end.
Definition getFontFamily (ls : LocalStorage) : jsstring :=
  storageGetItem ls STORAGE_KEYS.READER_FONT_FAMILY (lit "Noto Sans SC").
Definition setFontFamily (family : jsstring) (ls : LocalStorage) : LocalStorage :=
  storageSetItem ls STORAGE_KEYS.READER_FONT_FAMILY family.
End readerStorage.

(** The effect that runs when the panel is closed. *)
Definition closeEffect (open : bool) : Panel unit :=
  if negb open then
    stopGeneration ;;;
    setIsInitializedRef false ;;;
    setLastLocationRef None ;;;
    refs <- getPanel ;;
    if pendingTimerRef refs then setPendingTimerRef false else ret tt
  else ret tt.

(** The click handler of the update button, of the render [snap]. *)
Definition handleUpdateClick (JSON_parse : jsstring -> option json)
  (fetch : Request -> FetchResult) (localStorage : LocalStorage)
  (snap : PanelState) (book : option Book) (rendition : option Rendition)
  : Panel unit :=
  res <- extractPageContent book rendition ;;
  setPagePromptSaved (pagePromptDraft snap) ;;;
  generateSummary JSON_parse fetch localStorage snap (content res)
    (Some (pagePromptDraft snap)).

(** *** Shapes of normalized text *)

(** Every white-space character of [s] is a space that follows a character
    which is not white space; [afterSpace] tells that the character before
    [s] is white space. *)
Fixpoint singleSpaced (afterSpace : bool) (s : jsstring) : Prop :=
  match s with
  | [] => True
  | c :: r =>
      if isWhiteSpace c then c = 32%N /\ afterSpace = false /\ singleSpaced true r
      else singleSpaced false r
  end.

Definition startsClean (s : jsstring) : Prop :=
  match s with
  | [] => True
  | c :: _ => isWhiteSpace c = false
  end.

Definition endsClean (s : jsstring) : Prop := startsClean (rev s).

Definition notWhiteSpace (c : N) : bool := negb (isWhiteSpace c).

(** *** Whole windows *)

(** The normalized texts of all the paragraphs of an in-between sequence. *)
Definition allNormalized (inBetween : list Element) : list jsstring :=
  map (fun el => normalizeWhitespace (textContent el)) inBetween.

(** The sequence fits: every paragraph has text, there are at most 300 of
    them, and joined together they stay under the character budget. *)
Definition fitsWhole (inBetween : list Element) : Prop :=
  Forall (fun t => nonEmpty t = true) (allNormalized inBetween)
  /\ len inBetween <= maxParas
  /\ windowChars (allNormalized inBetween) < charBudget.

(** The sum of [f] over a list of indices. *)
Definition sumOver (f : Z -> Z) (l : list Z) : Z :=
  fold_right (fun i acc => f i + acc) 0 l.

(** The indices [0 .. n-1]. *)
Definition indicesBelow (n : nat) : list Z := map Z.of_nat (seq 0 n).

(** The positions of [ib] within [k] of either end are selected. *)
Definition covered (ib : list Element) (k : Z) (s : Selection) : Prop :=
  forall i, 0 <= i < len ib -> i < k \/ len ib - k <= i -> In i (selectedIdxs s).

(** *** Parts of the world *)

(** The state and refs [generateSummary] has no setter for. *)
Definition besidesGeneration (w : World) :=
  let p := panel w in
  (aiConfigStatus p, pageContent p, isExtractingContent p, pagePromptDraft p,
   pagePromptSaved p, lastLocationRef p, isInitializedRef p, pendingTimerRef p).

(** The refs of the page-change effect. *)
Definition effectRefs (w : World) : option jsstring * bool * bool :=
  (lastLocationRef (panel w), isInitializedRef (panel w), pendingTimerRef (panel w)).

(** *** A page located by its CFIs *)

(** The range from before [startBlock] to after [endBlock] meets the
    paragraphs that lie between the two in document order; [el_ref] numbers
    the sample paragraphs in that order. *)
Definition inDocumentOrder (startBlock endBlock el : Element) : bool :=
  (el_ref startBlock <=? el_ref el)%nat && (el_ref el <=? el_ref endBlock)%nat.

(** The two paragraphs of prose as the body of a chapter. *)
Definition pageBody : Element :=
  mkElement 0 false
    (lit "It was the best of times, it was the worstof times, it was the age of wisdom and folly").

Definition pageDoc : Document :=
  mkDocument (Some (textContent pageBody, twoParagraphs)) inDocumentOrder.

(** The text node of a paragraph of the page. *)
Definition textNodeOf (paragraph : Element) : DomNode :=
  mkDomNode 3 paragraph (mkDomNode 1 paragraph (mkDomNode 1 pageBody NullNode)).

Definition pageStartCfi : jsstring := lit "epubcfi(/6/8!/4/2/1:0)".
Definition pageEndCfi : jsstring := lit "epubcfi(/6/8!/4/4/1:44)".

(** The viewport starts in the first paragraph and ends in the second. *)
Definition pageLocation : Location :=
  mkLocation (Some (mkLocationEnd (Some pageStartCfi) (Some 3)))
    (Some (mkLocationEnd (Some pageEndCfi) (Some 3))).

Definition pageRange (c : jsstring) : outcome (option Range) :=
  if eqb c pageStartCfi then
    Returns (Some (mkRange (textNodeOf (para 1 "It was the best of times, it was the worst"))
                     (textNodeOf (para 1 "It was the best of times, it was the worst"))))
  else if eqb c pageEndCfi then
    Returns (Some (mkRange (textNodeOf (para 2 "of times, it was the age of wisdom and folly"))
                     (textNodeOf (para 2 "of times, it was the age of wisdom and folly"))))
  else Returns None.

Definition locatedRendition : Rendition :=
  mkRendition (Returns (Some [Some pageDoc])) (Some (Returns (Some pageLocation)))
    (Some pageRange).

(** * Properties *)

(** ** Strings *)

Lemma eqb_eq (a b : jsstring) : eqb a b = true <-> a = b.
Proof.
  unfold eqb. destruct (list_eq_dec N.eq_dec a b); split; congruence.
Qed.

Lemma eqb_refl (a : jsstring) : eqb a a = true.
Proof. apply eqb_eq. reflexivity. Qed.

Lemma len_nonneg {A : Type} (l : list A) : 0 <= len l.
Proof. unfold len. lia. Qed.

Lemma len_app {A : Type} (l1 l2 : list A) : len (l1 ++ l2) = len l1 + len l2.
Proof. unfold len. rewrite length_app. lia. Qed.

Lemma len_zero_nil {A : Type} (l : list A) : len l = 0 -> l = [].
Proof. destruct l; [reflexivity | unfold len; simpl; lia]. Qed.

Lemma nonEmpty_len (s : jsstring) : nonEmpty s = true <-> 0 < len s.
Proof.
  destruct s; unfold len; simpl; split; intros; try lia; congruence.
Qed.

Lemma startsWith_app (p s : jsstring) : startsWith (p ++ s) p = true.
Proof.
  induction p as [|c p IH]; simpl; [reflexivity|].
  rewrite N.eqb_refl. exact IH.
Qed.

Lemma len_cons {A : Type} (a : A) (l : list A) : len (a :: l) = 1 + len l.
Proof. unfold len. cbn [List.length]. lia. Qed.

Lemma len_nil {A : Type} : len (@nil A) = 0.
Proof. reflexivity. Qed.

Lemma windowChars_cons (a : jsstring) (ts : list jsstring) :
  windowChars (a :: ts) = len a + (if len ts =? 0 then 0 else 2 + windowChars ts).
Proof.
  destruct ts as [|b ts]; [reflexivity|].
  cbn [windowChars]. rewrite (len_cons b ts).
  pose proof (len_nonneg ts).
  destruct (Z.eqb_spec (1 + len ts) 0); [lia | reflexivity].
Qed.

Lemma windowChars_snoc (ts : list jsstring) (t : jsstring) :
  windowChars (ts ++ [t]) = windowChars ts + len t + (if len ts =? 0 then 0 else 2).
Proof.
  induction ts as [|a ts IH].
  - cbn [app windowChars]. change (len (@nil jsstring)) with 0. cbn [Z.eqb]. lia.
  - change ((a :: ts) ++ [t]) with (a :: (ts ++ [t])).
    rewrite !windowChars_cons, IH, len_app, !len_cons.
    change (len (@nil jsstring)) with 0.
    pose proof (len_nonneg ts).
    destruct (Z.eqb_spec (len ts + (1 + 0)) 0); [lia|].
    destruct (Z.eqb_spec (1 + len ts) 0); [lia|].
    destruct (Z.eqb_spec (len ts) 0) as [E|E].
    + apply len_zero_nil in E. subst ts. cbn [windowChars]. lia.
    + lia.
Qed.

Lemma join_length (ts : list jsstring) :
  len (join newline2 ts) = windowChars ts.
Proof.
  induction ts as [|a ts IH]; [reflexivity|].
  destruct ts as [|b ts].
  - cbn [join windowChars]. lia.
  - change (join newline2 (a :: b :: ts)) with (a ++ newline2 ++ join newline2 (b :: ts)).
    rewrite !len_app, IH. cbn [windowChars]. change (len newline2) with 2. lia.
Qed.

(** ** Window selector *)

(** What one call of [pushIdx] does: nothing, or append one paragraph. *)
Lemma pushIdx_cases (ib : list Element) (idx : Z) (s : Selection) :
  pushIdx ib idx s = (false, s)
  \/ exists el,
       let t := normalizeWhitespace (textContent el) in
       pushIdx ib idx s
       = (true, mkSelection (total s + len t + (if len (texts s) =? 0 then 0 else 2))
                  (texts s ++ [t]) (selectedIdxs s ++ [idx]))
       /\ 0 <= idx < len ib
       /\ ~ In idx (selectedIdxs s)
       /\ nth_error ib (Z.to_nat idx) = Some el
       /\ nonEmpty t = true
       /\ len (texts s) < maxParas
       /\ (2 <= len (texts s) ->
           total s + len t + (if len (texts s) =? 0 then 0 else 2) <= charBudget).
Proof.
  unfold pushIdx.
  destruct (Z.ltb_spec idx 0); [left; reflexivity|].
  destruct (Z.geb_spec idx (len ib)); [left; reflexivity|].
  cbn [orb].
  destruct (existsb (Z.eqb idx) (selectedIdxs s)) eqn:Hsel; [left; reflexivity|].
  destruct (nth_error ib (Z.to_nat idx)) as [el|] eqn:Hnth; [|left; reflexivity].
  destruct (nonEmpty (normalizeWhitespace (textContent el))) eqn:Hne;
    [|left; reflexivity].
  cbn [negb].
  destruct (Z.geb_spec (len (texts s)) maxParas); [left; reflexivity|].
  destruct (Z.geb_spec (len (texts s)) 2) as [H2|H2]; cbn [andb].
  - destruct (Z.gtb_spec
                (total s + len (normalizeWhitespace (textContent el))
                 + (if len (texts s) =? 0 then 0 else 2)) charBudget);
      [left; reflexivity|].
    right. exists el. cbn zeta. repeat split; try assumption; try lia.
    intros Hin. apply Bool.not_true_iff_false in Hsel. apply Hsel.
    apply existsb_exists. exists idx. split; [assumption | apply Z.eqb_refl].
  - right. exists el. cbn zeta. repeat split; try assumption; try lia.
    intros Hin. apply Bool.not_true_iff_false in Hsel. apply Hsel.
    apply existsb_exists. exists idx. split; [assumption | apply Z.eqb_refl].
Qed.

(** A property kept by every call of [pushIdx] is kept by the loop. *)
Lemma expandFromEnds_preserves (P : Selection -> Prop) (ib : list Element) :
  (forall idx s, P s -> P (snd (pushIdx ib idx s))) ->
  forall fuel step s, P s -> P (expandFromEnds fuel ib step s).
Proof.
  intros Hpush fuel.
  induction fuel as [|fuel IH]; intros step s Hs; [exact Hs|].
  cbn [expandFromEnds].
  destruct ((len (texts s) <? maxParas) && (total s <? charBudget)
            && (step <? len ib)); [|exact Hs].
  destruct (Z.gtb_spec step (len ib - 1 - step)) as [Hgt|Hle].
  - replace (step <=? len ib - 1 - step) with false
      by (symmetry; apply Z.leb_gt; lia).
    exact Hs.
  - replace (step <=? len ib - 1 - step) with true
      by (symmetry; apply Z.leb_le; lia).
    apply IH.
    destruct (negb (len ib - 1 - step =? step)); auto.
Qed.

(** The loop ends within [length inBetween] iterations: more fuel changes
    nothing. *)
Lemma fuel_enough (ib : list Element) (fuel : nat) :
  forall step s (extra : nat),
    len ib - step <= Z.of_nat fuel ->
    expandFromEnds (fuel + extra) ib step s = expandFromEnds fuel ib step s.
Proof.
  induction fuel as [|fuel IH]; intros step s extra Hfuel.
  - cbn [Nat.add expandFromEnds]. destruct extra as [|extra]; [reflexivity|].
    cbn [expandFromEnds].
    replace (step <? len ib) with false by (symmetry; apply Z.ltb_ge; lia).
    rewrite Bool.andb_false_r. reflexivity.
  - cbn [Nat.add expandFromEnds].
    destruct ((len (texts s) <? maxParas) && (total s <? charBudget)
              && (step <? len ib)); [|reflexivity].
    destruct (step >? len ib - 1 - step); [reflexivity|].
    apply IH. lia.
Qed.

Lemma selectWindow_any_fuel (ib : list Element) (extra : nat) :
  expandFromEnds (List.length ib + extra) ib 1 (pushBoundaries ib) = selectWindow ib.
Proof. apply fuel_enough. unfold len. lia. Qed.

Lemma pushIdx_coherent (ib : list Element) (idx : Z) (s : Selection) :
  coherent ib s -> coherent ib (snd (pushIdx ib idx s)).
Proof.
  intros (Ht & Htot & Hnd & Hrange).
  destruct (pushIdx_cases ib idx s) as [E | (el & E & Hidx & Hnin & Hnth & _)].
  - rewrite E. repeat split; assumption.
  - cbn zeta in E. rewrite E. cbn [snd]. unfold coherent. cbn [texts total selectedIdxs].
    repeat split.
    + rewrite map_app, <- Ht. cbn [map]. unfold normalizedAt. rewrite Hnth. reflexivity.
    + rewrite windowChars_snoc, Htot. reflexivity.
    + apply NoDup_app; [assumption | constructor; [intros [] | constructor] |].
      intros a Ha [Hb | []]. subst a. exact (Hnin Ha).
    + apply Forall_app. split; [assumption | constructor; [lia | constructor]].
Qed.

Lemma coherent_empty (ib : list Element) : coherent ib emptySelection.
Proof. repeat split; constructor. Qed.

Lemma pushBoundaries_coherent (ib : list Element) : coherent ib (pushBoundaries ib).
Proof.
  unfold pushBoundaries.
  destruct (len ib >? 1); repeat apply pushIdx_coherent; apply coherent_empty.
Qed.

Lemma selectWindow_coherent (ib : list Element) : coherent ib (selectWindow ib).
Proof.
  unfold selectWindow. apply (expandFromEnds_preserves (coherent ib)).
  - intros idx s. apply pushIdx_coherent.
  - apply pushBoundaries_coherent.
Qed.

(** When nothing stands in the way, [pushIdx] appends the paragraph. *)
Lemma pushIdx_success (ib : list Element) (idx : Z) (s : Selection) (el : Element) :
  0 <= idx < len ib ->
  ~ In idx (selectedIdxs s) ->
  nth_error ib (Z.to_nat idx) = Some el ->
  nonEmpty (normalizeWhitespace (textContent el)) = true ->
  len (texts s) < 2 ->
  pushIdx ib idx s
  = (true,
     mkSelection
       (total s + len (normalizeWhitespace (textContent el))
        + (if len (texts s) =? 0 then 0 else 2))
       (texts s ++ [normalizeWhitespace (textContent el)])
       (selectedIdxs s ++ [idx])).
Proof.
  intros Hidx Hnin Hnth Hne Hfew. unfold pushIdx.
  replace (idx <? 0) with false by (symmetry; apply Z.ltb_ge; lia).
  destruct (Z.geb_spec idx (len ib)); [lia|]. cbn [orb].
  destruct (existsb (Z.eqb idx) (selectedIdxs s)) eqn:Hex.
  - exfalso. apply existsb_exists in Hex. destruct Hex as (j & Hj & Hij).
    apply Z.eqb_eq in Hij. subst j. exact (Hnin Hj).
  - rewrite Hnth, Hne. cbn [negb].
    destruct (Z.geb_spec (len (texts s)) maxParas); [unfold maxParas in *; lia|].
    destruct (Z.geb_spec (len (texts s)) 2); [lia|]. reflexivity.
Qed.

Lemma pushIdx_keeps_selected (ib : list Element) (idx i : Z) (s : Selection) :
  In i (selectedIdxs s) -> In i (selectedIdxs (snd (pushIdx ib idx s))).
Proof.
  intros Hin.
  destruct (pushIdx_cases ib idx s) as [E | (el & E & _)].
  - rewrite E. exact Hin.
  - cbn zeta in E. rewrite E. cbn [snd selectedIdxs]. apply in_or_app. left. exact Hin.
Qed.

Lemma selectWindow_keeps_boundaries (ib : list Element) (i : Z) :
  In i (selectedIdxs (pushBoundaries ib)) -> In i (selectedIdxs (selectWindow ib)).
Proof.
  intros Hin. unfold selectWindow.
  apply (expandFromEnds_preserves (fun s => In i (selectedIdxs s))); [|exact Hin].
  intros idx s. apply pushIdx_keeps_selected.
Qed.

(** The selection after the first forced call holds at most index 0. *)
Lemma first_push_shape (ib : list Element) :
  let s1 := snd (pushIdx ib 0 emptySelection) in
  len (texts s1) <= 1 /\ (forall i, In i (selectedIdxs s1) -> i = 0).
Proof.
  cbn zeta.
  destruct (pushIdx_cases ib 0 emptySelection) as [E | (el & E & _)].
  - rewrite E. cbn. split; [lia | intros i []].
  - cbn zeta in E. rewrite E. cbn [snd texts selectedIdxs emptySelection app].
    split; [unfold len; cbn; lia | intros i [H | []]; auto].
Qed.

Lemma nth_error_normalizedAt (ib : list Element) (i : Z) :
  0 <= i < len ib ->
  exists el, nth_error ib (Z.to_nat i) = Some el
             /\ normalizedAt ib i = normalizeWhitespace (textContent el).
Proof.
  intros Hi. unfold normalizedAt.
  destruct (nth_error ib (Z.to_nat i)) as [el|] eqn:E.
  - exists el. split; reflexivity.
  - apply nth_error_None in E. unfold len in Hi. lia.
Qed.

Lemma first_boundary_selected (ib : list Element) :
  1 <= len ib ->
  nonEmpty (normalizedAt ib 0) = true ->
  In 0 (selectedIdxs (pushBoundaries ib)).
Proof.
  intros Hn Hne.
  destruct (nth_error_normalizedAt ib 0) as (el & Hnth & Hel); [lia|].
  rewrite Hel in Hne.
  assert (H0 : In 0 (selectedIdxs (snd (pushIdx ib 0 emptySelection)))).
  { rewrite (pushIdx_success ib 0 emptySelection el); try assumption.
    - cbn. left. reflexivity.
    - lia.
    - intros [].
    - cbn. lia. }
  unfold pushBoundaries. destruct (len ib >? 1); [|exact H0].
  apply pushIdx_keeps_selected. exact H0.
Qed.

Lemma last_boundary_selected (ib : list Element) :
  1 <= len ib ->
  nonEmpty (normalizedAt ib (len ib - 1)) = true ->
  In (len ib - 1) (selectedIdxs (pushBoundaries ib)).
Proof.
  intros Hn Hne.
  destruct (Z.gtb_spec (len ib) 1) as [Hgt|Hle].
  - destruct (nth_error_normalizedAt ib (len ib - 1)) as (el & Hnth & Hel); [lia|].
    rewrite Hel in Hne.
    destruct (first_push_shape ib) as [Hfew Hzero]. cbn zeta in Hfew, Hzero.
    unfold pushBoundaries.
    replace (len ib >? 1) with true by (symmetry; apply Z.gtb_lt; lia).
    rewrite (pushIdx_success ib (len ib - 1) _ el); try assumption.
    + cbn [snd selectedIdxs]. apply in_or_app. right. left. reflexivity.
    + lia.
    + intros Hin. apply Hzero in Hin. lia.
    + lia.
  - replace (len ib - 1) with 0 in * by lia.
    apply first_boundary_selected; assumption.
Qed.

Lemma pushIdx_budgeted (ib : list Element) (idx : Z) (s : Selection) :
  budgeted ib s -> budgeted ib (snd (pushIdx ib idx s)).
Proof.
  intros [Htwo Hb].
  destruct (pushIdx_cases ib idx s) as [E | (el & E & _ & _ & _ & _ & _ & Hbud)].
  - rewrite E. split; assumption.
  - cbn zeta in E. rewrite E. cbn [snd]. split; cbn [texts total selectedIdxs].
    + rewrite len_app. pose proof (len_nonneg [normalizeWhitespace (textContent el)]). lia.
    + right. apply Hbud. exact Htwo.
Qed.

(** With one paragraph or none the loop has nothing to add. *)
Lemma selectWindow_short (ib : list Element) :
  len ib <= 1 -> selectWindow ib = pushBoundaries ib.
Proof.
  intros Hn. unfold selectWindow.
  destruct (List.length ib) as [|n] eqn:E; [reflexivity|].
  cbn [expandFromEnds].
  replace (1 <? len ib) with false by (symmetry; apply Z.ltb_ge; lia).
  rewrite Bool.andb_false_r. reflexivity.
Qed.

Lemma pushBoundaries_only_boundaries (ib : list Element) :
  forall i, In i (selectedIdxs (pushBoundaries ib)) -> isBoundary ib i.
Proof.
  intros i. unfold pushBoundaries.
  destruct (first_push_shape ib) as [_ Hzero]. cbn zeta in Hzero.
  destruct (len ib >? 1).
  - destruct (pushIdx_cases ib (len ib - 1) (snd (pushIdx ib 0 emptySelection)))
      as [E | (el & E & _)].
    + rewrite E. intros Hin. left. apply Hzero. exact Hin.
    + cbn zeta in E. rewrite E. cbn [snd selectedIdxs]. intros Hin.
      apply in_app_or in Hin. destruct Hin as [Hin | [Hin | []]].
      * left. apply Hzero. exact Hin.
      * right. symmetry. exact Hin.
  - intros Hin. left. apply Hzero. exact Hin.
Qed.

(** In a sequence of two or more paragraphs with text, the forced calls
    select both boundaries. *)
Lemma pushBoundaries_two (ib : list Element) :
  2 <= len ib ->
  Forall (fun el => nonEmpty (normalizeWhitespace (textContent el)) = true) ib ->
  len (texts (pushBoundaries ib)) = 2.
Proof.
  intros Hn Hall.
  destruct (nth_error_normalizedAt ib 0) as (e0 & Hnth0 & _); [lia|].
  destruct (nth_error_normalizedAt ib (len ib - 1)) as (e1 & Hnth1 & _); [lia|].
  assert (He0 : nonEmpty (normalizeWhitespace (textContent e0)) = true).
  { rewrite Forall_forall in Hall. apply Hall. eapply nth_error_In. exact Hnth0. }
  assert (He1 : nonEmpty (normalizeWhitespace (textContent e1)) = true).
  { rewrite Forall_forall in Hall. apply Hall. eapply nth_error_In. exact Hnth1. }
  unfold pushBoundaries.
  replace (len ib >? 1) with true by (symmetry; apply Z.gtb_lt; lia).
  rewrite (pushIdx_success ib 0 emptySelection e0); try assumption;
    [|lia|intros []|cbn; lia].
  cbn [snd].
  rewrite (pushIdx_success ib (len ib - 1) _ e1); try assumption.
  - reflexivity.
  - lia.
  - cbn [selectedIdxs emptySelection app]. intros [H | []]. lia.
  - cbn. lia.
Qed.

(** The budget property of the window selector, for the sequences the
    extraction builds: a single seeded block, or paragraphs with text. *)
Lemma selectWindow_budget (ib : list Element) :
  len ib <= 1
  \/ Forall (fun el => nonEmpty (normalizeWhitespace (textContent el)) = true) ib ->
  total (selectWindow ib) <= charBudget
  \/ (forall i, In i (selectedIdxs (selectWindow ib)) -> isBoundary ib i).
Proof.
  intros Hwf.
  destruct (Z.leb_spec (len ib) 1) as [Hshort|Hlong].
  - right. rewrite selectWindow_short by assumption.
    apply pushBoundaries_only_boundaries.
  - destruct Hwf as [Hle|Hall]; [lia|].
    assert (Hb : budgeted ib (selectWindow ib)).
    { unfold selectWindow. apply (expandFromEnds_preserves (budgeted ib)).
      - intros idx s. apply pushIdx_budgeted.
      - split.
        + rewrite pushBoundaries_two; [lia | lia | assumption].
        + left. apply pushBoundaries_only_boundaries. }
    destruct Hb as [_ [Hb|Hb]]; [right | left]; assumption.
Qed.

(** What the extraction hands to the window selector. *)
Lemma inBetweenOf_shape (doc : Document) (blocks : list Element)
  (startBlock endBlock : Element) :
  let ib := inBetweenOf doc (collectParagraphElements blocks) startBlock endBlock in
  1 <= len ib
  /\ (ib = [startBlock]
      \/ Forall (fun el => 20 <= len (normalizeWhitespace (textContent el))) ib).
Proof.
  cbn zeta. unfold inBetweenOf.
  set (found := filter (intersectsNode doc startBlock endBlock)
                  (collectParagraphElements blocks)).
  destruct (Z.eqb_spec (len found) 0) as [E|E].
  - apply len_zero_nil in E. rewrite E. cbn [app]. split; [unfold len; cbn; lia|].
    left. reflexivity.
  - split; [pose proof (len_nonneg found); lia|].
    right. apply Forall_forall. intros el Hin.
    unfold found in Hin. apply filter_In in Hin. destruct Hin as [Hin _].
    unfold collectParagraphElements in Hin. apply filter_In in Hin.
    destruct Hin as [_ Hlen]. apply Z.geb_le in Hlen. exact Hlen.
Qed.

Lemma charBudget_value : charBudget = 40000 /\ charBudgetCap = 275251.
Proof. split; reflexivity. Qed.

(** C2: for the in-between sequence the extraction builds from any document,
    the selected window is the join of the selected paragraphs' normalized
    texts, its length is the running total (each text's length plus two per
    text after the first), and that total is at most the character budget,
    the lesser of the cap and 40000, unless the window holds nothing but the
    two boundary paragraphs, which are taken whatever their length. *)
Theorem window_within_budget (doc : Document) (blocks : list Element)
  (startBlock endBlock : Element) :
  let inBetween := inBetweenOf doc (collectParagraphElements blocks) startBlock endBlock in
  let sel := selectWindow inBetween in
  texts sel = map (normalizedAt inBetween) (selectedIdxs sel)
  /\ len (windowContent inBetween) = total sel
  /\ total sel = windowChars (texts sel)
  /\ charBudget = Z.min charBudgetCap 40000
  /\ (total sel <= charBudget
      \/ Forall (isBoundary inBetween) (selectedIdxs sel)).
Proof.
  cbn zeta.
  set (ib := inBetweenOf doc (collectParagraphElements blocks) startBlock endBlock).
  destruct (selectWindow_coherent ib) as (Ht & Htot & _ & _).
  split; [exact Ht|].
  split; [unfold windowContent; rewrite join_length; symmetry; exact Htot|].
  split; [exact Htot|].
  split; [reflexivity|].
  rewrite Forall_forall.
  apply selectWindow_budget.
  destruct (inBetweenOf_shape doc blocks startBlock endBlock) as [_ Hshape].
  cbn zeta in Hshape. fold ib in Hshape. destruct Hshape as [Hone|Hall].
  - left. rewrite Hone. unfold len. cbn. lia.
  - right. apply Forall_forall. intros el Hin. rewrite Forall_forall in Hall.
    apply nonEmpty_len. specialize (Hall el Hin). lia.
Qed.

(** A paragraph enters the selection only with a normalized text that is
    not empty. *)
Lemma pushIdx_selects_text (ib : list Element) (idx : Z) (s : Selection) :
  Forall (fun i => nonEmpty (normalizedAt ib i) = true) (selectedIdxs s) ->
  Forall (fun i => nonEmpty (normalizedAt ib i) = true)
    (selectedIdxs (snd (pushIdx ib idx s))).
Proof.
  intros Hs.
  destruct (pushIdx_cases ib idx s) as [E | (el & E & _ & _ & Hnth & Hne & _)].
  - rewrite E. exact Hs.
  - cbn zeta in E. rewrite E. cbn [snd selectedIdxs].
    apply Forall_app. split; [exact Hs|].
    constructor; [|constructor]. unfold normalizedAt. rewrite Hnth. exact Hne.
Qed.

Lemma selectWindow_selects_text (ib : list Element) :
  Forall (fun i => nonEmpty (normalizedAt ib i) = true) (selectedIdxs (selectWindow ib)).
Proof.
  unfold selectWindow.
  apply (expandFromEnds_preserves
           (fun s => Forall (fun i => nonEmpty (normalizedAt ib i) = true)
                       (selectedIdxs s))).
  - intros idx s. apply pushIdx_selects_text.
  - unfold pushBoundaries.
    destruct (len ib >? 1); repeat apply pushIdx_selects_text; constructor.
Qed.

(** C3, as the code has it: in a non-empty in-between sequence the first
    paragraph is selected when its normalized text is not empty, and so is
    the last; no index is selected twice; and a paragraph whose normalized
    text is empty, a boundary one included, is skipped: it is not selected
    and contributes no text. *)
Theorem boundary_paragraphs_selected (inBetween : list Element) :
  1 <= len inBetween ->
  (nonEmpty (normalizedAt inBetween 0) = true ->
   In 0 (selectedIdxs (selectWindow inBetween)))
  /\ (nonEmpty (normalizedAt inBetween (len inBetween - 1)) = true ->
      In (len inBetween - 1) (selectedIdxs (selectWindow inBetween)))
  /\ NoDup (selectedIdxs (selectWindow inBetween))
  /\ (nonEmpty (normalizedAt inBetween 0) = false ->
      ~ In 0 (selectedIdxs (selectWindow inBetween)))
  /\ (nonEmpty (normalizedAt inBetween (len inBetween - 1)) = false ->
      ~ In (len inBetween - 1) (selectedIdxs (selectWindow inBetween)))
  /\ (forall i, nonEmpty (normalizedAt inBetween i) = false ->
      ~ In i (selectedIdxs (selectWindow inBetween)))
  /\ Forall (fun t => nonEmpty t = true) (texts (selectWindow inBetween)).
Proof.
  intros Hn.
  assert (Hskip : forall i, nonEmpty (normalizedAt inBetween i) = false ->
                    ~ In i (selectedIdxs (selectWindow inBetween))).
  { intros i Hblank Hin.
    pose proof (selectWindow_selects_text inBetween) as Htext.
    rewrite Forall_forall in Htext. rewrite (Htext i Hin) in Hblank.
    discriminate Hblank. }
  split; [|split; [|split; [|split; [|split; [|split]]]]].
  - intros Hne. apply selectWindow_keeps_boundaries, first_boundary_selected; assumption.
  - intros Hne. apply selectWindow_keeps_boundaries, last_boundary_selected; assumption.
  - apply (selectWindow_coherent inBetween).
  - apply Hskip.
  - apply Hskip.
  - exact Hskip.
  - destruct (selectWindow_coherent inBetween) as (Ht & _).
    rewrite Ht. apply Forall_map. apply selectWindow_selects_text.
Qed.

(** ** The boundary paragraphs are taken in full *)

Lemma pushIdx_extends (ib : list Element) (idx : Z) (s : Selection) (base : list jsstring) :
  (exists more, texts s = base ++ more) ->
  exists more, texts (snd (pushIdx ib idx s)) = base ++ more.
Proof.
  intros (more & Hs).
  destruct (pushIdx_cases ib idx s) as [E | (el & E & _)].
  - rewrite E. exists more. exact Hs.
  - cbn zeta in E. rewrite E. cbn [snd texts]. rewrite Hs, <- app_assoc.
    eexists. reflexivity.
Qed.

Lemma windowChars_app_le (ts more : list jsstring) :
  windowChars ts <= windowChars (ts ++ more).
Proof.
  induction more as [|t more IH] using rev_ind.
  - rewrite app_nil_r. lia.
  - rewrite app_assoc, windowChars_snoc.
    pose proof (len_nonneg t). destruct (len (ts ++ more) =? 0); lia.
Qed.

(** X28: with two or more paragraphs whose boundary texts are not empty, the
    window starts with the first and the last paragraph's full normalized
    text, so its length is at least theirs plus the joiner, whatever the
    budget. *)
Lemma boundaries_in_full (ib : list Element) :
  2 <= len ib ->
  nonEmpty (normalizedAt ib 0) = true ->
  nonEmpty (normalizedAt ib (len ib - 1)) = true ->
  (exists more,
      texts (selectWindow ib)
      = [normalizedAt ib 0; normalizedAt ib (len ib - 1)] ++ more)
  /\ len (normalizedAt ib 0) + 2 + len (normalizedAt ib (len ib - 1))
     <= total (selectWindow ib).
Proof.
  intros Hn Hfirst Hlast.
  destruct (nth_error_normalizedAt ib 0) as (e0 & Hnth0 & He0); [lia|].
  destruct (nth_error_normalizedAt ib (len ib - 1)) as (e1 & Hnth1 & He1); [lia|].
  rewrite He0 in Hfirst. rewrite He1 in Hlast.
  assert (Hforced : texts (pushBoundaries ib)
                    = [normalizedAt ib 0; normalizedAt ib (len ib - 1)]).
  { unfold pushBoundaries.
    replace (len ib >? 1) with true by (symmetry; apply Z.gtb_lt; lia).
    rewrite (pushIdx_success ib 0 emptySelection e0); try assumption;
      [|lia|intros []|cbn; lia].
    cbn [snd].
    rewrite (pushIdx_success ib (len ib - 1) _ e1); try assumption.
    - cbn [snd texts emptySelection app]. rewrite He0, He1. reflexivity.
    - lia.
    - cbn [selectedIdxs emptySelection app]. intros [H | []]. lia.
    - cbn. lia. }
  assert (Hext : exists more,
             texts (selectWindow ib)
             = [normalizedAt ib 0; normalizedAt ib (len ib - 1)] ++ more).
  { unfold selectWindow.
    apply (expandFromEnds_preserves
             (fun s => exists more,
                  texts s = [normalizedAt ib 0; normalizedAt ib (len ib - 1)] ++ more)).
    - intros idx s. apply pushIdx_extends.
    - exists []. rewrite app_nil_r. exact Hforced. }
  split; [exact Hext|].
  destruct Hext as (more & Hmore).
  destruct (selectWindow_coherent ib) as (_ & Htot & _).
  rewrite Htot, Hmore.
  pose proof (windowChars_app_le [normalizedAt ib 0; normalizedAt ib (len ib - 1)] more)
    as Hle.
  cbn [windowChars] in Hle. lia.
Qed.

(** ** Signature and key *)

Lemma skipn_nth_cons (s : jsstring) (i : nat) :
  (i < List.length s)%nat -> skipn i s = nth i s 0%N :: skipn (S i) s.
Proof.
  revert i. induction s as [|c s IH]; intros i Hi; [cbn in Hi; lia|].
  destruct i as [|i]; [reflexivity|].
  cbn [skipn nth]. apply IH. cbn in Hi. lia.
Qed.

(** The index loop of [stableHash] is a left fold over the characters. *)
Lemma stableHashLoop_fold (str : jsstring) (n : nat) :
  forall i h,
    (i + n = List.length str)%nat ->
    stableHashLoop str n i h
    = fold_left (fun h c => (h * 131 + Z.of_N c) mod 2 ^ 32) (skipn i str) h.
Proof.
  induction n as [|n IH]; intros i h Hlen.
  - rewrite skipn_all2 by lia. reflexivity.
  - cbn [stableHashLoop]. rewrite IH by lia.
    rewrite (skipn_nth_cons str i) by lia. reflexivity.
Qed.

Lemma stableHashValue_rollingHash (str : jsstring) :
  stableHashValue str = rollingHash str.
Proof.
  unfold stableHashValue, rollingHash.
  rewrite stableHashLoop_fold by lia. reflexivity.
Qed.

(** Truncating after every step gives the untruncated sum, truncated once. *)
Lemma fold_truncated (s : jsstring) :
  forall a b,
    a = b mod 2 ^ 32 ->
    fold_left (fun h c => (h * 131 + Z.of_N c) mod 2 ^ 32) s a
    = fold_left (fun h c => h * 131 + Z.of_N c) s b mod 2 ^ 32.
Proof.
  induction s as [|c s IH]; intros a b Hab; [exact Hab|].
  cbn [fold_left]. apply IH. subst a.
  rewrite Z.add_mod by lia. rewrite Z.mul_mod_idemp_l by lia.
  rewrite <- Z.add_mod by lia. reflexivity.
Qed.

Lemma rollingHash_hornerSum (s : jsstring) :
  rollingHash s = hornerSum s mod 2 ^ 32.
Proof. apply fold_truncated. reflexivity. Qed.

Lemma rollingHash_range (s : jsstring) : 0 <= rollingHash s < 2 ^ 32.
Proof. rewrite rollingHash_hornerSum. apply Z.mod_pos_bound. lia. Qed.

(** [findIndex] gives the first position of the block, or -1. *)
Lemma findIndexFrom_spec (ps : list Element) (b : Element) :
  forall base,
    (findIndexFrom base ps b = -1 /\ (0 <= base -> forall el, In el ps -> sameElement el b = false))
    \/ exists i el,
         findIndexFrom base ps b = base + Z.of_nat i
         /\ nth_error ps i = Some el /\ sameElement el b = true
         /\ forall j el', (j < i)%nat -> nth_error ps j = Some el' -> sameElement el' b = false.
Proof.
  induction ps as [|p ps IH]; intros base.
  - left. split; [reflexivity | intros _ el []].
  - cbn [findIndexFrom]. destruct (sameElement p b) eqn:Hp.
    + right. exists 0%nat, p. repeat split; try assumption; [lia|].
      intros j el' Hj. lia.
    + destruct (IH (base + 1)) as [[E Hnone] | (i & el & E & Hnth & Hsame & Hfirst)].
      * left. split; [exact E|]. intros Hb el [Hel|Hel]; [subst; assumption|].
        apply Hnone; [lia | assumption].
      * right. exists (S i), el. repeat split; try assumption; [lia|].
        intros j el' Hj Hnj. destruct j as [|j]; cbn in Hnj.
        -- injection Hnj as <-. exact Hp.
        -- apply (Hfirst j el'); [lia | assumption].
Qed.

Lemma findIndex_range (ps : list Element) (b : Element) :
  -1 <= findIndex ps b < len ps.
Proof.
  unfold findIndex.
  destruct (findIndexFrom_spec ps b 0) as [[E _] | (i & el & E & Hnth & _)]; rewrite E.
  - pose proof (len_nonneg ps). lia.
  - assert (i < List.length ps)%nat by (apply nth_error_Some; congruence).
    unfold len. lia.
Qed.

(** The hexadecimal rendering reads back as the number it renders. *)
Lemma showHex_reads_back (n : Z) :
  0 <= n ->
  option_map (fun d => Z.of_N (N.of_hex_uint d))
    (HexadecimalString.NilZero.uint_of_string
       (string_of_list_ascii (map ascii_of_N (showHex n))))
  = Some n.
Proof.
  intros Hn. unfold showHex, lit.
  rewrite map_map. rewrite (map_ext _ (fun a => a)) by apply ascii_N_embedding.
  rewrite map_id, string_of_list_ascii_of_string.
  destruct (HexadecimalString.NilZero.usu_gen (N.to_hex_uint (Z.to_N n))) as [E|E];
    rewrite E; cbn [option_map].
  - rewrite HexadecimalN.Unsigned.of_to. f_equal. lia.
  - assert (Hz : N.of_hex_uint (N.to_hex_uint (Z.to_N n)) = 0%N).
    { remember (N.to_hex_uint (Z.to_N n)) as d eqn:Ed.
      assert (Hd : d = Hexadecimal.Nil \/ d <> Hexadecimal.Nil)
        by (destruct d; [left; reflexivity | right; discriminate ..]).
      destruct Hd as [Hd|Hd]; [rewrite Hd; reflexivity|].
      rewrite (HexadecimalString.NilZero.usu d Hd) in E.
      injection E as E. rewrite E. reflexivity. }
    rewrite HexadecimalN.Unsigned.of_to in Hz.
    change (Some 0 = Some n). f_equal. lia.
Qed.

Lemma paraHashSourceOf_ends (ib : list Element) (firstPara lastPara : Element) :
  nth_error ib 0 = Some firstPara ->
  nth_error ib (List.length ib - 1) = Some lastPara ->
  paraHashSourceOf ib
  = sliceTo 120 (normalizeWhitespace (textContent firstPara)) ++ lit "|"
    ++ sliceTo 120 (normalizeWhitespace (textContent lastPara)).
Proof.
  intros Hf Hl. unfold paraHashSourceOf. rewrite Hf, Hl. reflexivity.
Qed.

Lemma nonempty_ends (ib : list Element) :
  1 <= len ib ->
  exists firstPara lastPara,
    nth_error ib 0 = Some firstPara
    /\ nth_error ib (List.length ib - 1) = Some lastPara.
Proof.
  intros Hn.
  destruct (nth_error ib 0) as [f|] eqn:Ef;
    [|apply nth_error_None in Ef; unfold len in Hn; lia].
  destruct (nth_error ib (List.length ib - 1)) as [l|] eqn:El;
    [|apply nth_error_None in El; unfold len in Hn; lia].
  exists f, l. split; reflexivity.
Qed.

(** A key returned for a document with a body is the specified key. *)
Lemma extractFromBody_key_specified (book : option Book) (doc : Document)
  (bodyText : jsstring) (blocks : list Element)
  (startBlock0 endBlock0 : option Element) (spineId : option jsstring)
  (key : jsstring) :
  cacheKey (extractFromBody book doc bodyText blocks (startBlock0, endBlock0, spineId))
  = Some key ->
  keyAsSpecified book doc blocks startBlock0 endBlock0 spineId key.
Proof.
  unfold extractFromBody, keyAsSpecified.
  destruct (len (collectParagraphElements blocks) =? 0); [discriminate|].
  destruct (resolveBlocks (collectParagraphElements blocks) startBlock0 endBlock0)
    as [[startBlock|] [endBlock|]]; try discriminate.
  set (ib := inBetweenOf doc (collectParagraphElements blocks) startBlock endBlock).
  destruct (nonEmpty (windowContent ib) && (len (windowContent ib) >=? 50));
    [|discriminate].
  cbn [cacheKey]. intros Hkey. injection Hkey as Hkey.
  destruct (inBetweenOf_shape doc blocks startBlock endBlock) as [Hn _].
  cbn zeta in Hn. fold ib in Hn.
  destruct (nonempty_ends ib Hn) as (firstPara & lastPara & Hf & Hl).
  exists startBlock, endBlock, firstPara, lastPara. cbn zeta. fold ib.
  repeat split; try assumption.
  rewrite <- Hkey. unfold specifiedKey, cacheKeyOf, centerPartOf, stableHash.
  rewrite stableHashValue_rollingHash, (paraHashSourceOf_ends ib firstPara lastPara Hf Hl).
  rewrite <- !app_assoc. reflexivity.
Qed.

(** C5: a cache key the extraction returns is the string
    "ai-summary:{bookId}:{spineId}:{centerPart}:{hash}", with the center part
    made of the smaller and the larger position of the two boundary blocks
    in the collected paragraphs, and the hash the base-131 rolling hash of
    the first 120 normalized characters of the first in-between paragraph,
    a bar, and the first 120 of the last, truncated to 32 bits at every step
    and written in hexadecimal. *)
Theorem cache_key_format (book : option Book) (doc : Document)
  (bodyText : jsstring) (blocks : list Element)
  (startBlock0 endBlock0 : option Element) (spineId : option jsstring)
  (key : jsstring) :
  cacheKey (extractFromBody book doc bodyText blocks (startBlock0, endBlock0, spineId))
  = Some key ->
  keyAsSpecified book doc blocks startBlock0 endBlock0 spineId key
  /\ forall str,
       stableHash str = showHex (rollingHash str)
       /\ 0 <= rollingHash str < 2 ^ 32
       /\ rollingHash str = hornerSum str mod 2 ^ 32.
Proof.
  intros Hkey.
  split; [exact (extractFromBody_key_specified _ _ _ _ _ _ _ _ Hkey)|].
  intros str. unfold stableHash. rewrite stableHashValue_rollingHash.
  split; [reflexivity|].
  split; [apply rollingHash_range | apply rollingHash_hornerSum].
Qed.

Lemma cache_key_format_witness :
  cacheKey (extractFromBody sampleBook twoParagraphDoc (lit "x") twoParagraphs
              (nth_error twoParagraphs 0, nth_error twoParagraphs 1, Some (lit "3")))
  = Some twoParagraphKey
  /\ keyAsSpecified sampleBook twoParagraphDoc twoParagraphs
       (nth_error twoParagraphs 0) (nth_error twoParagraphs 1) (Some (lit "3"))
       twoParagraphKey.
Proof.
  assert (H : cacheKey (extractFromBody sampleBook twoParagraphDoc (lit "x") twoParagraphs
                (nth_error twoParagraphs 0, nth_error twoParagraphs 1, Some (lit "3")))
              = Some twoParagraphKey) by (vm_compute; reflexivity).
  split; [exact H | exact (proj1 (cache_key_format _ _ _ _ _ _ _ _ H))].
Defined.

(** ** Effects: what a computation leaves untouched *)

Lemma keeps_ret {A B : Type} (proj : World -> B) (a : A) : keeps proj (ret a).
Proof. intros w. reflexivity. Qed.

Lemma keeps_bind {A A' B : Type} (proj : World -> B) (c : Panel A) (k : A -> Panel A') :
  keeps proj c -> (forall a, keeps proj (k a)) -> keeps proj (bind c k).
Proof.
  intros Hc Hk w. unfold bind. specialize (Hc w).
  destruct (c w) as [a w']. cbn [snd] in Hc. rewrite (Hk a w'). exact Hc.
Qed.

Lemma bind_run {A B : Type} (c : Panel A) (k : A -> Panel B) (w : World) :
  bind c k w = k (fst (c w)) (snd (c w)).
Proof. unfold bind. destruct (c w); reflexivity. Qed.

Lemma modifyPanel_keeps_cache f : keeps cache (modifyPanel f).
Proof. intros w. reflexivity. Qed.
Lemma modifyPanel_keeps_requests f : keeps requests (modifyPanel f).
Proof. intros w. reflexivity. Qed.
Lemma modifyPanel_keeps_console f : keeps console (modifyPanel f).
Proof. intros w. reflexivity. Qed.
Lemma consoleLog_keeps_cache e : keeps cache (consoleLog e).
Proof. intros w. reflexivity. Qed.
Lemma consoleLog_keeps_requests e : keeps requests (consoleLog e).
Proof. intros w. reflexivity. Qed.
Lemma consoleLog_keeps_panel e : keeps panel (consoleLog e).
Proof. intros w. reflexivity. Qed.
Lemma sendRequest_keeps_cache r : keeps cache (sendRequest r).
Proof. intros w. reflexivity. Qed.
Lemma sendRequest_keeps_panel r : keeps panel (sendRequest r).
Proof. intros w. reflexivity. Qed.
Lemma getItem_keeps {B : Type} (proj : World -> B) k : keeps proj (getItem k).
Proof. intros w. reflexivity. Qed.
Lemma keys_keeps {B : Type} (proj : World -> B) : keeps proj keys.
Proof. intros w. reflexivity. Qed.
Lemma getPanel_keeps {B : Type} (proj : World -> B) : keeps proj getPanel.
Proof. intros w. reflexivity. Qed.

Create HintDb frame.
#[export] Hint Resolve keeps_ret modifyPanel_keeps_cache modifyPanel_keeps_requests
  modifyPanel_keeps_console consoleLog_keeps_cache consoleLog_keeps_requests
  consoleLog_keeps_panel sendRequest_keeps_cache sendRequest_keeps_panel
  getItem_keeps keys_keeps getPanel_keeps : frame.
#[export] Hint Unfold setAiConfigStatus setPageContent setIsExtractingContent
  setCompletion setIsLoading setPagePromptDraft setPagePromptSaved
  setLastLocationRef setIsInitializedRef setAbortControllerRef
  setPendingTimerRef : frame.

(** Splits a computation along its binds and case distinctions and closes
    the leaves with the hints. *)
Ltac frame :=
  repeat first
    [ solve [auto with frame]
    | progress autounfold with frame
    | apply keeps_bind; [|intro]
    | match goal with
      | |- keeps _ (if ?b then _ else _) => destruct b
      | |- keeps _ (match ?x with _ => _ end) => destruct x
      end ].

Lemma stopGeneration_keeps_cache : keeps cache stopGeneration.
Proof. unfold stopGeneration. frame. Qed.
Lemma stopGeneration_keeps_requests : keeps requests stopGeneration.
Proof. unfold stopGeneration. frame. Qed.
#[export] Hint Resolve stopGeneration_keeps_cache stopGeneration_keeps_requests : frame.

Lemma extractPageContent_keeps_cache book rendition :
  keeps cache (extractPageContent book rendition).
Proof. unfold extractPageContent. frame. Qed.
Lemma extractPageContent_keeps_requests book rendition :
  keeps requests (extractPageContent book rendition).
Proof. unfold extractPageContent. frame. Qed.
#[export] Hint Resolve extractPageContent_keeps_cache extractPageContent_keeps_requests : frame.

Section RuntimeFrames.
Variable JSON_parse : jsstring -> option json.
Variable fetch : Request -> FetchResult.
Variable localStorage : LocalStorage.

Lemma processLine_keeps_cache acc line :
  keeps cache (processLine JSON_parse acc line).
Proof. unfold processLine. frame. Qed.

Lemma processLines_keeps_cache lines :
  forall acc, keeps cache (processLines JSON_parse acc lines).
Proof.
  induction lines as [|l lines IH]; intros acc; cbn [processLines];
    [auto with frame|].
  apply keeps_bind; [apply processLine_keeps_cache | intro; apply IH].
Qed.

Lemma readLoop_keeps_cache pending :
  forall acc, keeps cache (readLoop JSON_parse acc pending).
Proof.
  induction pending as [|c pending IH]; intros acc; cbn [readLoop];
    [auto with frame|].
  apply keeps_bind; [apply processLines_keeps_cache | intro; apply IH].
Qed.

Lemma generateSummary_keeps_cache snap content override :
  keeps cache (generateSummary JSON_parse fetch localStorage snap content override).
Proof.
  unfold generateSummary, startGeneration, consumeResponse, onGenerationError,
    finishGeneration.
  pose proof readLoop_keeps_cache. frame.
Qed.

Lemma scanGroup_keeps {B : Type} (proj : World -> B) content groupKeys :
  forall best, keeps proj (scanGroup content groupKeys best).
Proof.
  induction groupKeys as [|k rest IH]; intros best; cbn [scanGroup];
    [apply keeps_ret|].
  apply keeps_bind; [apply getItem_keeps|]. intros cached.
  destruct (orNull cached); [|apply IH].
  destruct (Qltb _ _); apply IH.
Qed.

Lemma fuzzyLookup_keeps_cache content prefix :
  keeps cache (fuzzyLookup content prefix).
Proof. unfold fuzzyLookup. pose proof (scanGroup_keeps cache). frame. Qed.


Lemma exactLookup_keeps_cache key : keeps cache (exactLookup key).
Proof. unfold exactLookup. frame. Qed.

Lemma exactLookup_keeps_requests key : keeps requests (exactLookup key).
Proof. unfold exactLookup. frame. Qed.

End RuntimeFrames.

(** ** Extraction *)

Lemma extractPageContent_result (book : option Book) (rendition : option Rendition)
  (w : World) :
  fst (extractPageContent book rendition w) = extractionResult book rendition.
Proof.
  unfold extractPageContent, extractionResult.
  destruct rendition as [r|]; [|reflexivity].
  destruct (extractTry book r); reflexivity.
Qed.

Lemma startsWith_app_cancel (p s q : jsstring) :
  startsWith (p ++ s) (p ++ q) = startsWith s q.
Proof.
  induction p as [|c p IH]; [reflexivity|].
  cbn [app startsWith]. rewrite N.eqb_refl. exact IH.
Qed.

(** Where the extraction returns a key, it returns the group prefix and the
    key continues it. *)
Lemma extractFromBody_key_prefix book doc bodyText blocks located key :
  cacheKey (extractFromBody book doc bodyText blocks located) = Some key ->
  exists prefix,
    groupPrefix (extractFromBody book doc bodyText blocks located) = Some prefix
    /\ startsWith key prefix = true.
Proof.
  destruct located as [[sb eb] spineId]. unfold extractFromBody.
  destruct (len (collectParagraphElements blocks) =? 0); [discriminate|].
  destruct (resolveBlocks (collectParagraphElements blocks) sb eb)
    as [[startBlock|] [endBlock|]]; try discriminate.
  destruct (nonEmpty _ && _); [|discriminate].
  cbn [cacheKey groupPrefix]. intros Hkey. injection Hkey as <-.
  eexists. split; [reflexivity|].
  unfold cacheKeyOf, groupPrefixOf.
  rewrite !startsWith_app_cancel. apply startsWith_app.
Qed.

Lemma extractionResult_key_prefix book rendition key :
  cacheKey (extractionResult book rendition) = Some key ->
  exists prefix,
    groupPrefix (extractionResult book rendition) = Some prefix
    /\ startsWith key prefix = true.
Proof.
  unfold extractionResult, extractTry.
  destruct rendition as [r|]; [|discriminate].
  destruct (getContents r) as [[[|[doc|] rest]|]|]; try discriminate.
  destruct (body doc) as [[bodyText blocks]|]; try discriminate.
  apply extractFromBody_key_prefix.
Qed.

Lemma putItem_lists_key (key value : jsstring) (s : Store) :
  In key (map fst (putItem key value s)).
Proof.
  induction s as [|[k v] s IH]; cbn [putItem]; [left; reflexivity|].
  destruct (eqb k key) eqn:E.
  - left. apply eqb_eq. exact E.
  - right. exact IH.
Qed.


(** The key [extractPageContent] returns is the specified key of the first
    content's document. *)
Lemma extractPageContent_key_format (book : option Book) (r : Rendition)
  (w : World) (key : jsstring) :
  cacheKey (fst (extractPageContent book (Some r) w)) = Some key ->
  exists doc rest bodyText blocks,
    getContents r = Returns (Some (Some doc :: rest))
    /\ body doc = Some (bodyText, blocks)
    /\ keyAsSpecified book doc blocks (fst (fst (locateBlocks r)))
         (snd (fst (locateBlocks r))) (snd (locateBlocks r)) key.
Proof.
  rewrite extractPageContent_result. unfold extractionResult, extractTry.
  destruct (getContents r) as [[[|[doc|] rest]|]|]; try discriminate.
  destruct (body doc) as [[bodyText blocks]|] eqn:Hbody; try discriminate.
  intros Hkey. exists doc, rest, bodyText, blocks.
  split; [reflexivity|]. split; [exact Hbody|].
  destruct (locateBlocks r) as [[sb eb] spineId]. cbn [fst snd].
  apply (extractFromBody_key_specified book doc bodyText blocks sb eb spineId key).
  exact Hkey.
Qed.

(** C10: when [extractPageContent] returns a cache key it returns a group
    prefix too and the key starts with it, so that an entry written under
    the key is among the keys the fuzzy lookup's prefix filter keeps. *)
Theorem key_starts_with_group_prefix (book : option Book)
  (rendition : option Rendition) (w : World) (key : jsstring) :
  cacheKey (fst (extractPageContent book rendition w)) = Some key ->
  exists prefix,
    groupPrefix (fst (extractPageContent book rendition w)) = Some prefix
    /\ startsWith key prefix = true
    /\ forall (value : jsstring) (s : Store),
         In key (filter (fun k => startsWith k prefix) (map fst (putItem key value s))).
Proof.
  rewrite extractPageContent_result. intros Hkey.
  destruct (extractionResult_key_prefix book rendition key Hkey) as (prefix & Hp & Hs).
  exists prefix. repeat split; try assumption.
  intros value s. apply filter_In. split; [apply putItem_lists_key | exact Hs].
Qed.

Lemma key_starts_with_group_prefix_witness :
  cacheKey (fst (extractPageContent sampleBook (Some twoParagraphRendition) emptyWorld))
  = Some (lit "ai-summary:b1:0:1-1:89989628")
  /\ exists prefix,
       groupPrefix (fst (extractPageContent sampleBook (Some twoParagraphRendition) emptyWorld))
       = Some prefix
       /\ startsWith (lit "ai-summary:b1:0:1-1:89989628") prefix = true
       /\ forall (value : jsstring) (s : Store),
            In (lit "ai-summary:b1:0:1-1:89989628")
              (filter (fun k => startsWith k prefix)
                 (map fst (putItem (lit "ai-summary:b1:0:1-1:89989628") value s))).
Proof.
  assert (H : cacheKey (fst (extractPageContent sampleBook (Some twoParagraphRendition)
                               emptyWorld))
              = Some (lit "ai-summary:b1:0:1-1:89989628")) by (vm_compute; reflexivity).
  split; [exact H | exact (key_starts_with_group_prefix _ _ _ _ H)].
Defined.

(** C6: extraction run twice on the same book and the same rendering (the
    same location, ranges and document) returns the same cache key, the
    second run starting from the state the first one left. *)
Theorem extraction_is_deterministic (book : option Book)
  (rendition : option Rendition) (w : World) :
  let first := extractPageContent book rendition w in
  let second := extractPageContent book rendition (snd first) in
  cacheKey (fst second) = cacheKey (fst first)
  /\ fst second = fst first.
Proof.
  cbn zeta. rewrite !extractPageContent_result. split; reflexivity.
Qed.

(** The result does not depend on the world the extraction starts from. *)
Lemma extraction_ignores_world (book : option Book) (rendition : option Rendition)
  (w w' : World) :
  fst (extractPageContent book rendition w) = fst (extractPageContent book rendition w').
Proof. rewrite !extractPageContent_result. reflexivity. Qed.

(** ** Stream consumption *)

Section StreamFacts.
Variable JSON_parse : jsstring -> option json.

Lemma processLine_result (acc line : jsstring) (w : World) :
  fst (processLine JSON_parse acc line w) = acc ++ lineDelta JSON_parse line.
Proof.
  unfold processLine, lineDelta.
  destruct (negb (nonEmpty (trim line)) || eqb (trim line) (lit "data: [DONE]"));
    [cbn; rewrite app_nil_r; reflexivity|].
  destruct (startsWith (trim line) (lit "data: "));
    [|cbn; rewrite app_nil_r; reflexivity].
  destruct (JSON_parse (sliceFrom 6 (trim line))) as [jsonData|];
    [|cbn; rewrite app_nil_r; reflexivity].
  destruct (deltaContentOf jsonData) as [[v|]|];
    try (cbn; rewrite app_nil_r; reflexivity).
  destruct (truthy (Some v)); cbn; [reflexivity | rewrite app_nil_r; reflexivity].
Qed.

Lemma processLine_completion (acc line : jsstring) (w : World) :
  completion (panel w) = acc ->
  completion (panel (snd (processLine JSON_parse acc line w)))
  = acc ++ lineDelta JSON_parse line.
Proof.
  intros Hacc. unfold processLine, lineDelta.
  destruct (negb (nonEmpty (trim line)) || eqb (trim line) (lit "data: [DONE]"));
    [cbn; rewrite app_nil_r; exact Hacc|].
  destruct (startsWith (trim line) (lit "data: "));
    [|cbn; rewrite app_nil_r; exact Hacc].
  destruct (JSON_parse (sliceFrom 6 (trim line))) as [jsonData|];
    [|cbn; rewrite app_nil_r; exact Hacc].
  destruct (deltaContentOf jsonData) as [[v|]|];
    try (cbn; rewrite app_nil_r; exact Hacc).
  destruct (truthy (Some v)); cbn; [reflexivity | rewrite app_nil_r; exact Hacc].
Qed.


Lemma processLines_result (lines : list jsstring) :
  forall acc w,
    fst (processLines JSON_parse acc lines w)
    = acc ++ List.concat (map (lineDelta JSON_parse) lines).
Proof.
  induction lines as [|l lines IH]; intros acc w; cbn [processLines map List.concat].
  - cbn. rewrite app_nil_r. reflexivity.
  - rewrite bind_run, IH, processLine_result, <- app_assoc. reflexivity.
Qed.

Lemma processLines_completion (lines : list jsstring) :
  forall acc w,
    completion (panel w) = acc ->
    completion (panel (snd (processLines JSON_parse acc lines w)))
    = acc ++ List.concat (map (lineDelta JSON_parse) lines).
Proof.
  induction lines as [|l lines IH]; intros acc w Hacc; cbn [processLines map List.concat].
  - cbn. rewrite app_nil_r. exact Hacc.
  - rewrite bind_run, IH.
    + rewrite processLine_result, <- app_assoc. reflexivity.
    + rewrite processLine_result. apply processLine_completion. exact Hacc.
Qed.

Lemma readLoop_result (pending : list jsstring) :
  forall acc w,
    fst (readLoop JSON_parse acc pending w) = acc ++ streamText JSON_parse pending.
Proof.
  unfold streamText.
  induction pending as [|c pending IH]; intros acc w; cbn [readLoop flat_map].
  - cbn. rewrite app_nil_r. reflexivity.
  - rewrite bind_run, IH, processLines_result, map_app, concat_app, <- app_assoc.
    reflexivity.
Qed.

Lemma readLoop_completion (pending : list jsstring) :
  forall acc w,
    completion (panel w) = acc ->
    completion (panel (snd (readLoop JSON_parse acc pending w)))
    = acc ++ streamText JSON_parse pending.
Proof.
  unfold streamText.
  induction pending as [|c pending IH]; intros acc w Hacc; cbn [readLoop flat_map].
  - cbn. rewrite app_nil_r. exact Hacc.
  - rewrite bind_run, IH.
    + rewrite processLines_result, map_app, concat_app, <- app_assoc. reflexivity.
    + rewrite processLines_result. apply processLines_completion. exact Hacc.
Qed.

Lemma streamText_app (first later : list jsstring) :
  streamText JSON_parse (first ++ later)
  = streamText JSON_parse first ++ streamText JSON_parse later.
Proof.
  unfold streamText. rewrite flat_map_app, map_app, concat_app. reflexivity.
Qed.


End StreamFacts.

(** ** Generation *)

Lemma setIsLoading_keeps_shown v : keeps visibleOutput (setIsLoading v).
Proof. intros w. reflexivity. Qed.
Lemma setAbortControllerRef_keeps_shown v : keeps visibleOutput (setAbortControllerRef v).
Proof. intros w. reflexivity. Qed.
Lemma consoleLog_keeps_shown e : keeps visibleOutput (consoleLog e).
Proof. intros w. reflexivity. Qed.
Lemma sendRequest_keeps_shown r : keeps visibleOutput (sendRequest r).
Proof. intros w. reflexivity. Qed.
Lemma sendRequest_keeps_console r : keeps console (sendRequest r).
Proof. intros w. reflexivity. Qed.

#[export] Hint Resolve setIsLoading_keeps_shown setAbortControllerRef_keeps_shown
  consoleLog_keeps_shown sendRequest_keeps_shown sendRequest_keeps_console : frame.

Section GenerationFacts.
Variable JSON_parse : jsstring -> option json.
Variable fetch : Request -> FetchResult.
Variable localStorage : LocalStorage.

Lemma finishGeneration_keeps_shown : keeps visibleOutput finishGeneration.
Proof. unfold finishGeneration. apply keeps_bind; [|intro]; auto with frame. Qed.

Lemma finishGeneration_keeps_requests : keeps requests finishGeneration.
Proof. unfold finishGeneration. frame. Qed.

Lemma finishGeneration_idle (w : World) :
  isLoading (panel (snd (finishGeneration w))) = false.
Proof. reflexivity. Qed.

Lemma startGeneration_request snap content override (w : World) :
  fst (startGeneration localStorage snap content override w)
  = requestFor localStorage snap content override.
Proof.
  unfold startGeneration. rewrite !bind_run. reflexivity.
Qed.

Lemma startGeneration_shown snap content override (w : World) :
  visibleOutput (snd (startGeneration localStorage snap content override w)) = [].
Proof.
  unfold startGeneration. rewrite !bind_run. reflexivity.
Qed.

Lemma startGeneration_keeps_requests snap content override :
  keeps requests (startGeneration localStorage snap content override).
Proof. unfold startGeneration. frame. Qed.

Lemma startGeneration_keeps_cache snap content override :
  keeps cache (startGeneration localStorage snap content override).
Proof. unfold startGeneration. frame. Qed.

Lemma readLoop_keeps_requests pending :
  forall acc, keeps requests (readLoop JSON_parse acc pending).
Proof.
  assert (Hline : forall acc line, keeps requests (processLine JSON_parse acc line))
    by (intros; unfold processLine; frame).
  assert (Hlines : forall lines acc, keeps requests (processLines JSON_parse acc lines)).
  { induction lines as [|l lines IH]; intros acc; cbn [processLines];
      [auto with frame|].
    apply keeps_bind; [apply Hline | intro; apply IH]. }
  induction pending as [|c pending IH]; intros acc; cbn [readLoop];
    [auto with frame|].
  apply keeps_bind; [apply Hlines | intro; apply IH].
Qed.

Lemma consumeResponse_keeps_requests answer :
  keeps requests (consumeResponse JSON_parse answer).
Proof.
  unfold consumeResponse, onGenerationError.
  pose proof readLoop_keeps_requests. frame.
Qed.

(** What the panel shows once the answer is consumed. *)
Lemma consumeResponse_shown answer (w : World) :
  visibleOutput w = [] ->
  visibleOutput (snd (consumeResponse JSON_parse answer w))
  = shownAfter JSON_parse answer.
Proof.
  intros Hw. unfold consumeResponse, shownAfter, onGenerationError.
  destruct answer as [[|]|[|] [stream|]]; try reflexivity; try exact Hw.
  rewrite bind_run.
  pose proof (readLoop_completion JSON_parse (chunks stream) [] w Hw) as Hread.
  cbn [app] in Hread.
  destruct (streamEnd stream) as [|[|]]; try reflexivity; exact Hread.
Qed.

Lemma generateSummary_refused snap content override (w : World) :
  nonEmpty content = false \/ configured (aiConfigStatus snap) = false ->
  generateSummary JSON_parse fetch localStorage snap content override w = (tt, w).
Proof.
  intros [H|H]; unfold generateSummary; rewrite H;
    [|rewrite Bool.orb_true_r]; reflexivity.
Qed.

Lemma generateSummary_requests snap content override (w : World) :
  nonEmpty content = true ->
  configured (aiConfigStatus snap) = true ->
  requests (snd (generateSummary JSON_parse fetch localStorage snap content override w))
  = requests w ++ [requestFor localStorage snap content override].
Proof.
  intros Hne Hc. unfold generateSummary. rewrite Hne, Hc. cbn [negb orb].
  rewrite !bind_run, finishGeneration_keeps_requests, consumeResponse_keeps_requests.
  rewrite startGeneration_request. cbn [sendRequest snd requests].
  rewrite startGeneration_keeps_requests. reflexivity.
Qed.

Lemma generateSummary_shown snap content override (w : World) :
  nonEmpty content = true ->
  configured (aiConfigStatus snap) = true ->
  visibleOutput (snd (generateSummary JSON_parse fetch localStorage snap content override w))
  = shownAfter JSON_parse (fetch (requestFor localStorage snap content override)).
Proof.
  intros Hne Hc. unfold generateSummary. rewrite Hne, Hc. cbn [negb orb].
  rewrite !bind_run, finishGeneration_keeps_shown, startGeneration_request.
  apply consumeResponse_shown.
  rewrite sendRequest_keeps_shown. apply startGeneration_shown.
Qed.

Lemma generateSummary_idle snap content override (w : World) :
  nonEmpty content = true ->
  configured (aiConfigStatus snap) = true ->
  isLoading (panel (snd (generateSummary JSON_parse fetch localStorage snap content
                           override w))) = false.
Proof.
  intros Hne Hc. unfold generateSummary. rewrite Hne, Hc. cbn [negb orb].
  rewrite !bind_run. apply finishGeneration_idle.
Qed.

End GenerationFacts.

(** ** Fuzzy lookup *)



Lemma Qmaxb_cases (x y : Q) :
  ((x <= y)%Q /\ Qmaxb x y = y) \/ ((y < x)%Q /\ Qmaxb x y = x).
Proof.
  unfold Qmaxb. destruct (Qle_bool x y) eqn:E.
  - left. split; [apply Qle_bool_iff; exact E | reflexivity].
  - right. split; [|reflexivity]. apply Qnot_le_lt. intros H.
    apply Qle_bool_iff in H. congruence.
Qed.

Lemma similarity_nonneg (a b : jsstring) : (0 <= similarity a b)%Q.
Proof.
  unfold similarity.
  set (setA := newSet (words a)). set (setB := newSet (words b)).
  set (inter := len (filter (has setB) setA)).
  assert (Hi : 0 <= inter) by apply len_nonneg.
  assert (Hle : inter <= len setA).
  { unfold inter, len. apply inj_le. apply filter_length_le. }
  pose proof (len_nonneg setB).
  destruct (Z.eqb_spec (len setA + len setB - inter) 0); [apply Qle_refl|].
  apply Qle_shift_div_l.
  - change 0%Q with (inject_Z 0). rewrite <- Zlt_Qlt. lia.
  - rewrite Qmult_0_l. change 0%Q with (inject_Z 0). rewrite <- Zle_Qle. exact Hi.
Qed.








(** The maximum bounds every score of the group, and is 0 or the score of
    an entry of the group. *)
Lemma fold_max_bounds (content : jsstring) (entries : Store) :
  forall m,
    let M := fold_left (fun m kv => Qmaxb m (windowScore content (snd kv))) entries m in
    (m <= M)%Q
    /\ (forall k v, In (k, v) entries -> (windowScore content v <= M)%Q)
    /\ (M = m \/ exists k v, In (k, v) entries /\ M = windowScore content v).
Proof.
  induction entries as [|[k v] entries IH]; intros m; cbn zeta.
  - repeat split; [apply Qle_refl | intros k v [] | left; reflexivity].
  - cbn [fold_left snd].
    destruct (IH (Qmaxb m (windowScore content v))) as (Hm & Hub & Hatt).
    cbn zeta in Hm, Hub, Hatt.
    assert (Hmax : (m <= Qmaxb m (windowScore content v))%Q
                   /\ (windowScore content v <= Qmaxb m (windowScore content v))%Q).
    { destruct (Qmaxb_cases m (windowScore content v)) as [[H1 H2]|[H1 H2]];
        rewrite H2; split; try apply Qle_refl; try assumption.
      apply Qlt_le_weak. exact H1. }
    repeat split.
    + eapply Qle_trans; [apply Hmax | exact Hm].
    + intros k' v' [Heq|Hin].
      * injection Heq as <- <-. eapply Qle_trans; [apply Hmax | exact Hm].
      * eapply Hub. exact Hin.
    + destruct Hatt as [E | (k' & v' & Hin & E)].
      * destruct (Qmaxb_cases m (windowScore content v)) as [[_ H2]|[_ H2]].
        -- right. exists k, v. split; [left; reflexivity | rewrite E; exact H2].
        -- left. rewrite E. exact H2.
      * right. exists k', v'. split; [right; exact Hin | exact E].
Qed.

Lemma maxScore_is_maximum (content prefix : jsstring) (s : Store) :
  (forall k v, In (k, v) (groupEntries prefix s) ->
               (windowScore content v <= maxScore content prefix s)%Q)
  /\ (maxScore content prefix s = 0%Q
      \/ exists k v, In (k, v) (groupEntries prefix s)
                     /\ maxScore content prefix s = windowScore content v).
Proof.
  unfold maxScore.
  destruct (fold_max_bounds content (groupEntries prefix s) 0%Q) as (_ & Hub & Hatt).
  split; assumption.
Qed.


Lemma startsWith_nonEmpty (k prefix : jsstring) :
  nonEmpty prefix = true -> startsWith k prefix = true -> nonEmpty k = true.
Proof.
  destruct prefix as [|c prefix]; [discriminate|].
  destruct k; [discriminate | reflexivity].
Qed.


Lemma afterReset_cache (res : ExtractResult) (w : World) :
  cache (afterReset res w) = cache w /\ requests (afterReset res w) = requests w.
Proof. split; reflexivity. Qed.

Section ResolverFacts.
Variable JSON_parse : jsstring -> option json.
Variable fetch : Request -> FetchResult.
Variable localStorage : LocalStorage.

Local Abbreviation resolve := (resolveAndGenerate JSON_parse fetch localStorage).
Local Abbreviation generate := (generateSummary JSON_parse fetch localStorage).

(** The handler, from the world in which it reaches its lookups. *)
Lemma resolve_from_reset (snap : PanelState) (res : ExtractResult) (w : World) :
  resolve snap res w
  = (hit <- exactLookup (cacheKey res) ;;
     if hit then ret tt
     else
       fuzzyHit <-
         match orNull (cacheKey res), orNull (groupPrefix res), orNull (sigSource res) with
         | None, Some prefix, Some _ => fuzzyLookup (content res) prefix
         | _, _, _ => ret false
         end ;;
       if fuzzyHit then ret tt
       else
         generate snap (content res) None ;;;
         match orNull (cacheKey res) with
         | Some k => deferredCacheWrite snap k
         | None => ret tt
         end) (afterReset res w).
Proof. reflexivity. Qed.





End ResolverFacts.

(** ** Configuration *)



Section ConfigurationFacts.
Variable JSON_parse : jsstring -> option json.
Variable fetch : Request -> FetchResult.
Variable localStorage : LocalStorage.


End ConfigurationFacts.


(** ** Stream consumption and failures *)

Section StreamerFacts.
Variable JSON_parse : jsstring -> option json.
Variable fetch : Request -> FetchResult.
Variable localStorage : LocalStorage.


End StreamerFacts.


(** ** Degraded extraction and the cache write *)

Section WriteFacts.
Variable JSON_parse : jsstring -> option json.
Variable fetch : Request -> FetchResult.
Variable localStorage : LocalStorage.

(** Without a key the handler of the page-change effect leaves the store
    as it is. *)
Lemma resolve_without_key_keeps_cache (snap : PanelState) (res : ExtractResult) :
  cacheKey res = None ->
  keeps cache (resolveAndGenerate JSON_parse fetch localStorage snap res).
Proof.
  intros Hkey. unfold resolveAndGenerate. rewrite Hkey. cbn [orNull].
  pose proof (generateSummary_keeps_cache JSON_parse fetch localStorage).
  pose proof fuzzyLookup_keeps_cache.
  pose proof exactLookup_keeps_cache.
  frame.
Qed.

(** With a key that misses, what the deferred write stores is the
    [completion] of the render that created the effect, whatever the
    stream delivered. *)
Lemma cache_write_uses_render_value (snap : PanelState) (res : ExtractResult)
  (w : World) (k : jsstring) :
  orNull (cacheKey res) = Some k ->
  orNull (lookupItem k (cache w)) = None ->
  cache (snd (resolveAndGenerate JSON_parse fetch localStorage snap res w))
  = if nonEmpty (completion snap) then putItem k (completion snap) (cache w)
    else cache w.
Proof.
  intros Hkey Hmiss. rewrite resolve_from_reset.
  assert (Hexact : exactLookup (cacheKey res) (afterReset res w)
                   = (false, afterReset res w)).
  { unfold exactLookup. rewrite Hkey. unfold bind, getItem.
    change (cache (afterReset res w)) with (cache w). rewrite Hmiss. reflexivity. }
  rewrite bind_run, Hexact. cbn [fst snd]. rewrite Hkey.
  rewrite bind_run. cbn [ret fst snd]. rewrite bind_run.
  unfold deferredCacheWrite.
  destruct (nonEmpty (completion snap)).
  - rewrite bind_run. cbn [consoleLog snd cache setItem].
    rewrite (generateSummary_keeps_cache JSON_parse fetch localStorage). reflexivity.
  - cbn [ret snd].
    rewrite (generateSummary_keeps_cache JSON_parse fetch localStorage). reflexivity.
Qed.

(** C4, as the code has it: a degraded extraction has no cache key; it has
    neither group prefix nor signature source when no paragraph block
    qualifies, and it has the group prefix of its book and chapter, with
    the signature source of its in-between paragraphs, when the joined
    window is shorter than 50 characters; in both cases the handler of the
    page-change effect writes nothing to the store. *)
Theorem degraded_extraction_has_no_key (book : option Book) (doc : Document)
  (bodyText : jsstring) (blocks : list Element)
  (startBlock0 endBlock0 : option Element) (spineId : option jsstring) :
  let paragraphs := collectParagraphElements blocks in
  let res := extractFromBody book doc bodyText blocks (startBlock0, endBlock0, spineId) in
  (paragraphs = [] ->
   cacheKey res = None /\ groupPrefix res = None /\ sigSource res = None)
  /\ (forall startBlock endBlock,
        paragraphs <> [] ->
        resolveBlocks paragraphs startBlock0 endBlock0 = (Some startBlock, Some endBlock) ->
        len (windowContent (inBetweenOf doc paragraphs startBlock endBlock)) < 50 ->
        cacheKey res = None
        /\ groupPrefix res = Some (groupPrefixOf (bookIdOf book) (spinePartOf spineId))
        /\ sigSource res
           = Some (paraHashSourceOf (inBetweenOf doc paragraphs startBlock endBlock)))
  /\ (cacheKey res = None ->
      forall snap w,
        cache (snd (resolveAndGenerate JSON_parse fetch localStorage snap res w))
        = cache w).
Proof.
  cbn zeta. split; [|split].
  - intros Hnone. unfold extractFromBody. rewrite Hnone. repeat split.
  - intros startBlock endBlock Hsome Hblocks Hshort. unfold extractFromBody.
    destruct (Z.eqb_spec (len (collectParagraphElements blocks)) 0) as [E|E];
      [apply len_zero_nil in E; contradiction|].
    rewrite Hblocks.
    destruct (Z.geb_spec
                (len (windowContent
                        (inBetweenOf doc (collectParagraphElements blocks)
                           startBlock endBlock))) 50); [lia|].
    rewrite Bool.andb_false_r. repeat split.
  - intros Hkey snap w. apply resolve_without_key_keeps_cache. exact Hkey.
Qed.

End WriteFacts.

Lemma degraded_extraction_has_no_key_witness :
  collectParagraphElements shortParagraph <> []
  /\ len (windowContent
            (inBetweenOf shortDoc (collectParagraphElements shortParagraph)
               (para 1 "aaaaaaaaaaaaaaaaaaaa") (para 1 "aaaaaaaaaaaaaaaaaaaa"))) < 50
  /\ cacheKey (extractFromBody None shortDoc (lit "aaaaaaaaaaaaaaaaaaaa") shortParagraph
                 (None, None, None)) = None
  /\ groupPrefix (extractFromBody None shortDoc (lit "aaaaaaaaaaaaaaaaaaaa") shortParagraph
                    (None, None, None)) = Some (lit "ai-summary:unknown:0:")
  /\ sigSource (extractFromBody None shortDoc (lit "aaaaaaaaaaaaaaaaaaaa") shortParagraph
                  (None, None, None))
     = Some (lit "aaaaaaaaaaaaaaaaaaaa|aaaaaaaaaaaaaaaaaaaa")
  /\ cache (snd (resolveAndGenerate sampleParse sampleFetch sampleStorage freshPanel
                   (extractFromBody None shortDoc (lit "aaaaaaaaaaaaaaaaaaaa")
                      shortParagraph (None, None, None)) chapterWorld))
     = cache chapterWorld.
Proof.
  destruct (degraded_extraction_has_no_key sampleParse sampleFetch sampleStorage None
              shortDoc (lit "aaaaaaaaaaaaaaaaaaaa") shortParagraph None None None)
    as (_ & Hshort & Hwrite).
  assert (Hsome : collectParagraphElements shortParagraph <> []) by discriminate.
  assert (Hlen : len (windowContent
                        (inBetweenOf shortDoc (collectParagraphElements shortParagraph)
                           (para 1 "aaaaaaaaaaaaaaaaaaaa") (para 1 "aaaaaaaaaaaaaaaaaaaa")))
                 < 50) by reflexivity.
  destruct (Hshort _ _ Hsome eq_refl Hlen) as (Hkey & Hprefix & Hsig).
  split; [exact Hsome|]. split; [exact Hlen|]. split; [exact Hkey|].
  split; [exact Hprefix|]. split; [exact Hsig|].
  exact (Hwrite Hkey freshPanel chapterWorld).
Defined.

(** C4 fails as stated: with one qualifying paragraph of twenty characters
    the joined window has fewer than 50 characters, the extraction is
    degraded and has no cache key, and yet its group prefix is not null. *)
Lemma short_window_keeps_group_prefix :
  len (windowContent
         (inBetweenOf shortDoc (collectParagraphElements shortParagraph)
            (para 1 "aaaaaaaaaaaaaaaaaaaa") (para 1 "aaaaaaaaaaaaaaaaaaaa"))) = 20
  /\ fst (extractPageContent None (Some shortRendition) emptyWorld)
     = mkExtractResult (lit "aaaaaaaaaaaaaaaaaaaa") None
         (Some (lit "ai-summary:unknown:0:"))
         (Some (lit "aaaaaaaaaaaaaaaaaaaa|aaaaaaaaaaaaaaaaaaaa"))
  /\ ~ (cacheKey (fst (extractPageContent None (Some shortRendition) emptyWorld)) = None
        /\ groupPrefix (fst (extractPageContent None (Some shortRendition) emptyWorld))
           = None).
Proof.
  split; [reflexivity|]. split; [reflexivity|].
  intros [_ H]. discriminate H.
Qed.

(** C3 fails as stated: a viewport that starts in a block without text, met
    by no collected paragraph, gives an in-between sequence of that one
    block, and the selection stays empty. *)
Lemma blank_boundary_not_selected :
  inBetweenOf blankDoc (collectParagraphElements blankThenProse) blankBlock blankBlock
  = [blankBlock]
  /\ 1 <= len [blankBlock]
  /\ selectWindow [blankBlock] = emptySelection
  /\ ~ In 0 (selectedIdxs (selectWindow [blankBlock])).
Proof.
  split; [reflexivity|]. split; [unfold len; cbn; lia|].
  split; [reflexivity|]. intros H. exact H.
Qed.

Lemma boundary_paragraphs_selected_witness :
  1 <= len threeParagraphs
  /\ In 0 (selectedIdxs (selectWindow threeParagraphs))
  /\ In 2 (selectedIdxs (selectWindow threeParagraphs))
  /\ NoDup (selectedIdxs (selectWindow threeParagraphs)).
Proof.
  assert (Hn : 1 <= len threeParagraphs) by (unfold len; cbn; lia).
  destruct (boundary_paragraphs_selected threeParagraphs Hn)
    as (Hfirst & Hlast & Hnd & _).
  split; [exact Hn|].
  split; [apply Hfirst; reflexivity|].
  split; [apply Hlast; reflexivity | exact Hnd].
Defined.

(** C1 does not hold of the code.  The viewport of the new page starts in
    the first paragraph and ends in the second, both located through their
    CFIs; the range between them meets the two paragraphs, the window has
    more than 50 characters and the page has a cache key that is not in the
    store.  The panel shows the summary of the page before when the page is
    turned, and the stream delivers "NEW text".  The panel then shows
    "NEW text", and the entry written under the new page's key is the
    summary of the page before.  On a first render, where the panel shows
    nothing, no entry is written at all. *)
Lemma deferred_write_stores_previous_summary :
  let res := extractionResult sampleBook (Some locatedRendition) in
  let turned :=
    snd (pageChangeEffect sampleParse sampleFetch sampleStorage readingPanel true
           sampleBook (Some locatedRendition) (Some pageStartCfi) readingWorld) in
  let opened :=
    snd (pageChangeEffect sampleParse sampleFetch sampleStorage freshPanel true
           sampleBook (Some locatedRendition) (Some pageStartCfi) freshWorld) in
  locateBlocks locatedRendition
  = (nth_error twoParagraphs 0, nth_error twoParagraphs 1, Some (lit "3"))
  /\ inBetweenOf pageDoc (collectParagraphElements twoParagraphs)
       (para 1 "It was the best of times, it was the worst")
       (para 2 "of times, it was the age of wisdom and folly")
     = twoParagraphs
  /\ len (content res) = 88
  /\ cacheKey res = Some twoParagraphKey
  /\ lookupItem twoParagraphKey (cache readingWorld) = None
  /\ visibleOutput readingWorld = lit "OLD summary"
  /\ visibleOutput turned = lit "NEW text"
  /\ cache turned = [(twoParagraphKey, lit "OLD summary")]
  /\ lookupItem twoParagraphKey (cache turned) <> Some (lit "NEW text")
  /\ visibleOutput opened = lit "NEW text"
  /\ cache opened = [].
Proof.
  cbn zeta.
  repeat (split; [vm_compute; reflexivity|]).
  split; [vm_compute; discriminate|].
  split; vm_compute; reflexivity.
Qed.


(** ** The similarity is the Jaccard index of the two word sets *)

Lemma has_In (s : list jsstring) (w : jsstring) : has s w = true <-> In w s.
Proof.
  unfold has. rewrite existsb_exists. split.
  - intros (x & Hx & E). apply eqb_eq in E. subst x. exact Hx.
  - intros H. exists w. split; [exact H | apply eqb_refl].
Qed.

Lemma toSet_spec (l : list jsstring) :
  forall seen,
    NoDup seen ->
    NoDup (toSet seen l) /\ forall x, In x (toSet seen l) <-> In x seen \/ In x l.
Proof.
  induction l as [|w l IH]; intros seen Hnd; cbn [toSet].
  - split; [apply NoDup_rev; exact Hnd|].
    intros x. rewrite <- in_rev. cbn. tauto.
  - destruct (existsb (eqb w) seen) eqn:E.
    + destruct (IH seen Hnd) as [H1 H2]. split; [exact H1|].
      intros x. rewrite H2. cbn [In]. split; [tauto|].
      intros [H|[H|H]]; [tauto | | tauto]. subst x. left.
      apply (has_In seen w). exact E.
    + assert (Hnew : NoDup (w :: seen)).
      { constructor; [|exact Hnd]. intros Hin. apply (has_In seen w) in Hin.
        unfold has in Hin. congruence. }
      destruct (IH (w :: seen) Hnew) as [H1 H2]. split; [exact H1|].
      intros x. rewrite H2. cbn [In]. tauto.
Qed.

Lemma newSet_spec (l : list jsstring) :
  NoDup (newSet l) /\ forall x, In x (newSet l) <-> In x l.
Proof.
  destruct (toSet_spec l [] (NoDup_nil _)) as [H1 H2]. split; [exact H1|].
  intros x. rewrite (H2 x). cbn [In]. tauto.
Qed.

Lemma filter_split_length {A : Type} (p : A -> bool) (l : list A) :
  len l = len (filter p l) + len (filter (fun x => negb (p x)) l).
Proof.
  unfold len. induction l as [|a l IH]; [reflexivity|].
  cbn [filter]. destruct (p a); cbn [negb List.length]; lia.
Qed.

(** The two counts of the common words agree. *)
Lemma common_words_symmetric (setA setB : list jsstring) :
  NoDup setA -> NoDup setB ->
  len (filter (has setB) setA) = len (filter (has setA) setB).
Proof.
  intros HA HB. unfold len. f_equal.
  apply Permutation_length.
  apply NoDup_Permutation; try (apply NoDup_filter; assumption).
  intros x. rewrite !filter_In, !has_In. tauto.
Qed.

(** X29: [similarity] divides the number of common words by the number of
    words that occur in either text. *)
Lemma similarity_jaccard (a b : jsstring) :
  let setA := newSet (words a) in
  let setB := newSet (words b) in
  let common := filter (has setB) setA in
  let either := setA ++ filter (fun w => negb (has setA w)) setB in
  NoDup common /\ NoDup either
  /\ (forall w, In w common <-> In w (words a) /\ In w (words b))
  /\ (forall w, In w either <-> In w (words a) \/ In w (words b))
  /\ similarity a b
     = if len either =? 0 then 0%Q else (inject_Z (len common) / inject_Z (len either))%Q.
Proof.
  cbn zeta.
  destruct (newSet_spec (words a)) as [HA HinA].
  destruct (newSet_spec (words b)) as [HB HinB].
  set (setA := newSet (words a)) in *. set (setB := newSet (words b)) in *.
  split; [apply NoDup_filter; exact HA|].
  split.
  { apply NoDup_app; [exact HA | apply NoDup_filter; exact HB |].
    intros x Hx Hf. apply filter_In in Hf. destruct Hf as [_ Hf].
    apply (has_In setA x) in Hx. rewrite Hx in Hf. discriminate Hf. }
  split; [intros w; rewrite filter_In, has_In, HinA, HinB; tauto|].
  split.
  { intros w. rewrite in_app_iff, filter_In, HinA, HinB.
    split; [tauto|]. intros [H|H]; [tauto|].
    destruct (has setA w) eqn:E; [left; apply HinA, has_In; exact E | right; tauto]. }
  unfold similarity. fold setA setB.
  rewrite len_app.
  pose proof (filter_split_length (has setA) setB) as Hsplit.
  rewrite <- (common_words_symmetric setA setB HA HB) in Hsplit.
  replace (len setA + len (filter (fun w => negb (has setA w)) setB))
    with (len setA + len setB - len (filter (has setB) setA)) by lia.
  reflexivity.
Qed.

(** ** The built-ins on sample inputs *)

Example words_sample :
  words (lit "  the quick  brown") = [lit "the"; lit "quick"; lit "brown"].
Proof. reflexivity. Qed.

Example splitOn_sample :
  splitOn 10 (lit "a") = [lit "a"]
  /\ splitOn 10 [97%N; 10%N; 10%N; 98%N] = [lit "a"; []; lit "b"]
  /\ splitOn 10 [97%N; 10%N] = [lit "a"; []].
Proof. repeat split. Qed.

Example showInt_sample :
  showInt (-1) = lit "-1" /\ showInt 42 = lit "42" /\ showHex 255 = lit "ff"
  /\ showHex 0 = lit "0".
Proof. repeat split. Qed.

Example normalizeWhitespace_sample :
  normalizeWhitespace [32%N; 97%N; 9%N; 10%N; 98%N; 12288%N] = lit "a b".
Proof. reflexivity. Qed.

Example stableHash_sample : stableHash (lit "abc") = lit "1998f2".
Proof. reflexivity. Qed.

Example similarity_sample :
  similarity (lit "a b c d e") (lit "d c b a") = 4 # 5.
Proof. reflexivity. Qed.

(** ** Sample runs *)

(** A score of 4/6 is below the threshold: nothing cached is shown and one
    request is sent. *)
Example fuzzy_miss_generates :
  maxScore (content distantResult) (lit "ai-summary:b1:0:") (cache chapterWorld) = 4 # 6
  /\ fst (fuzzyLookup (content distantResult) (lit "ai-summary:b1:0:") chapterWorld) = false
  /\ List.length
       (requests (snd (resolveAndGenerate sampleParse sampleFetch sampleStorage freshPanel
                         distantResult chapterWorld))) = 1%nat
  /\ cache (snd (resolveAndGenerate sampleParse sampleFetch sampleStorage freshPanel
                   distantResult chapterWorld)) = cache chapterWorld.
Proof. vm_compute. repeat split. Qed.

(** The sample stream: the cut line is logged between the two deltas. *)
Example sample_stream_log :
  console (snd (generateSummary sampleParse sampleFetch sampleStorage freshPanel
                  (lit "some page text") None freshWorld))
  = [LogRequestInfo 14 3; LogStreamDelta (lit "NEW"); WarnParseFailed;
     LogStreamDelta (lit " text"); LogSummaryDone (lit "NEW text")].
Proof. vm_compute. reflexivity. Qed.

Section EntryPoints.
Variable JSON_parse : jsstring -> option json.
Variable fetch : Request -> FetchResult.
Variable localStorage : LocalStorage.

(** X30: when the extraction of the page has no key, neither the
    page-change effect nor a refresh touches the store. *)
Lemma keyless_page_keeps_cache (snap : PanelState) (open : bool)
  (book : option Book) (rendition : option Rendition) (location : option jsstring)
  (w : World) :
  cacheKey (extractionResult book rendition) = None ->
  cache (snd (pageChangeEffect JSON_parse fetch localStorage snap open book rendition
                location w)) = cache w
  /\ cache (snd (handleRefreshSummary JSON_parse fetch localStorage snap book rendition w))
     = cache w.
Proof.
  intros Hkey. split.
  - unfold pageChangeEffect.
    destruct (negb open || negb (configured (aiConfigStatus snap))); [reflexivity|].
    rewrite bind_run. cbn [getPanel fst snd].
    destruct (negb (isInitializedRef (panel w)) || _); [|reflexivity].
    rewrite !bind_run, extractPageContent_result.
    rewrite (resolve_without_key_keeps_cache JSON_parse fetch localStorage snap _ Hkey).
    rewrite extractPageContent_keeps_cache.
    cbn [setIsInitializedRef setLastLocationRef setPendingTimerRef modifyPanel snd cache].
    rewrite stopGeneration_keeps_cache.
    destruct (pendingTimerRef (panel w)); reflexivity.
  - unfold handleRefreshSummary. rewrite !bind_run, extractPageContent_result, Hkey.
    rewrite (generateSummary_keeps_cache JSON_parse fetch localStorage).
    cbn [orNull ret snd setPageContent modifyPanel cache].
    rewrite extractPageContent_keeps_cache, stopGeneration_keeps_cache. reflexivity.
Qed.

End EntryPoints.

(** * Further properties *)

(** ** Text normalizer *)

Lemma dropWhile_startsClean (s : jsstring) : startsClean (trimStart s).
Proof.
  unfold trimStart. induction s as [|c s IH]; cbn [dropWhile]; [exact I|].
  destruct (isWhiteSpace c) eqn:E; [exact IH | exact E].
Qed.

Lemma trimStart_clean (s : jsstring) : startsClean s -> trimStart s = s.
Proof.
  destruct s as [|c s]; [reflexivity|]. cbn. intros ->. reflexivity.
Qed.

Lemma trimStart_suffix (s : jsstring) :
  exists removed, s = removed ++ trimStart s /\ Forall (fun c => isWhiteSpace c = true) removed.
Proof.
  unfold trimStart. induction s as [|c s (removed & Hs & Hall)]; cbn [dropWhile].
  - exists []. split; [reflexivity | constructor].
  - destruct (isWhiteSpace c) eqn:E.
    + exists (c :: removed). split; [cbn; f_equal; exact Hs | constructor; assumption].
    + exists []. split; [reflexivity | constructor].
Qed.

Lemma trimEnd_prefix (s : jsstring) :
  exists removed, s = trimEnd s ++ removed /\ Forall (fun c => isWhiteSpace c = true) removed.
Proof.
  unfold trimEnd. destruct (trimStart_suffix (rev s)) as (removed & Hs & Hall).
  exists (rev removed). split.
  - rewrite <- rev_app_distr, <- Hs, rev_involutive. reflexivity.
  - apply Forall_rev. exact Hall.
Qed.

Lemma trimEnd_endsClean (s : jsstring) : endsClean (trimEnd s).
Proof.
  unfold endsClean, trimEnd. rewrite rev_involutive. apply dropWhile_startsClean.
Qed.

Lemma trimEnd_clean (s : jsstring) : endsClean s -> trimEnd s = s.
Proof.
  unfold endsClean, trimEnd. intros H. rewrite trimStart_clean by exact H.
  apply rev_involutive.
Qed.

Lemma startsClean_prefix (s removed : jsstring) :
  startsClean (s ++ removed) -> s <> [] -> startsClean s.
Proof. destruct s; [congruence | cbn; auto]. Qed.

Lemma trimEnd_keeps_start (s : jsstring) : startsClean s -> startsClean (trimEnd s).
Proof.
  intros Hs. destruct (trimEnd_prefix s) as (removed & E & _).
  destruct (trimEnd s) as [|c t] eqn:Et; [exact I|].
  rewrite E in Hs. exact Hs.
Qed.

Lemma singleSpaced_weaken (s : jsstring) (b : bool) :
  singleSpaced b s -> singleSpaced false s.
Proof.
  destruct s as [|c s]; [auto|]. cbn. destruct (isWhiteSpace c); [|auto].
  intros (H1 & _ & H3). auto.
Qed.

Lemma singleSpaced_prefix (s removed : jsstring) :
  forall b, singleSpaced b (s ++ removed) -> singleSpaced b s.
Proof.
  induction s as [|c s IH]; intros b; [intros _; exact I|].
  cbn. destruct (isWhiteSpace c).
  - intros (H1 & H2 & H3). repeat split; auto.
  - apply IH.
Qed.

Lemma singleSpaced_suffix (removed s : jsstring) :
  forall b, singleSpaced b (removed ++ s) -> singleSpaced false s.
Proof.
  induction removed as [|c removed IH]; intros b; [apply singleSpaced_weaken|].
  cbn. destruct (isWhiteSpace c).
  - intros (_ & _ & H). exact (IH _ H).
  - apply IH.
Qed.

Lemma collapseRuns_singleSpaced (s : jsstring) :
  forall b, singleSpaced b (collapseRuns b s).
Proof.
  induction s as [|c s IH]; intros b; [exact I|].
  cbn [collapseRuns]. destruct (isWhiteSpace c) eqn:E.
  - destruct b; [apply IH|].
    cbn. repeat split. apply IH.
  - cbn. rewrite E. apply IH.
Qed.

Lemma collapseRuns_fixed (s : jsstring) :
  forall b, singleSpaced b s -> collapseRuns b s = s.
Proof.
  induction s as [|c s IH]; intros b; [reflexivity|].
  cbn. destruct (isWhiteSpace c).
  - intros (-> & -> & H). f_equal. apply IH. exact H.
  - intros H. f_equal. apply IH. exact H.
Qed.

Lemma normalizeWhitespace_shape (text : jsstring) :
  singleSpaced false (normalizeWhitespace text)
  /\ startsClean (normalizeWhitespace text)
  /\ endsClean (normalizeWhitespace text).
Proof.
  unfold normalizeWhitespace, trim, replaceWhitespaceRuns.
  set (collapsed := collapseRuns false text).
  assert (Hc : singleSpaced false collapsed) by apply collapseRuns_singleSpaced.
  destruct (trimStart_suffix collapsed) as (r1 & E1 & _).
  destruct (trimEnd_prefix (trimStart collapsed)) as (r2 & E2 & _).
  split; [|split].
  - rewrite E1 in Hc. apply singleSpaced_suffix in Hc.
    rewrite E2 in Hc. eapply singleSpaced_prefix. exact Hc.
  - apply trimEnd_keeps_start, dropWhile_startsClean.
  - apply trimEnd_endsClean.
Qed.

Lemma normalizeWhitespace_fixed (s : jsstring) :
  singleSpaced false s -> startsClean s -> endsClean s -> normalizeWhitespace s = s.
Proof.
  intros H1 H2 H3. unfold normalizeWhitespace, trim, replaceWhitespaceRuns.
  rewrite collapseRuns_fixed by exact H1.
  rewrite trimStart_clean by exact H2. apply trimEnd_clean. exact H3.
Qed.

(** What [singleSpaced] says, character by character. *)
Lemma singleSpaced_spaces (s : jsstring) :
  forall b, singleSpaced b s ->
    Forall (fun c => isWhiteSpace c = true -> c = 32%N) s
    /\ forall before a c after,
         s = before ++ a :: c :: after ->
         isWhiteSpace a = true -> isWhiteSpace c = false.
Proof.
  induction s as [|x s IH]; intros b Hs.
  - split; [constructor|]. intros [|? ?] a c after E; discriminate E.
  - cbn in Hs. destruct (isWhiteSpace x) eqn:Ex.
    + destruct Hs as (Hx & _ & Hs). destruct (IH _ Hs) as [Hall Hadj].
      split; [constructor; auto|].
      intros before a c after E Ha. destruct before as [|y before].
      * injection E as E1 E2. subst x s. cbn in Hs.
        destruct (isWhiteSpace c); [destruct Hs as (_ & Hf & _); discriminate Hf|].
        reflexivity.
      * injection E as _ E. exact (Hadj before a c after E Ha).
    + destruct (IH _ Hs) as [Hall Hadj].
      split; [constructor; [intros Hx; congruence | exact Hall]|].
      intros before a c after E Ha. destruct before as [|y before].
      * injection E as E1 _. subst x. congruence.
      * injection E as _ E. exact (Hadj before a c after E Ha).
Qed.

Lemma collapseRuns_length (s : jsstring) :
  forall b, (List.length (collapseRuns b s) <= List.length s)%nat.
Proof.
  induction s as [|c s IH]; intros b; [apply le_n|].
  pose proof (IH true). pose proof (IH false).
  cbn [collapseRuns]. destruct (isWhiteSpace c); [destruct b|];
    cbn [List.length]; lia.
Qed.

Lemma normalizeWhitespace_length (text : jsstring) :
  len (normalizeWhitespace text) <= len text.
Proof.
  unfold normalizeWhitespace, trim, replaceWhitespaceRuns, len.
  destruct (trimStart_suffix (collapseRuns false text)) as (r1 & E1 & _).
  destruct (trimEnd_prefix (trimStart (collapseRuns false text))) as (r2 & E2 & _).
  pose proof (collapseRuns_length text false) as Hc.
  rewrite E1, length_app in Hc. rewrite E2, length_app in Hc. lia.
Qed.

(** X1: the normalized text has no white space at either end, its only
    white-space characters are single spaces, no two of them adjacent, and
    it is never longer than the text it comes from. *)
Theorem normalizeWhitespace_canonical (text : jsstring) :
  let t := normalizeWhitespace text in
  startsClean t /\ endsClean t
  /\ Forall (fun c => isWhiteSpace c = true -> c = 32%N) t
  /\ (forall before a c after,
        t = before ++ a :: c :: after -> isWhiteSpace a = true -> isWhiteSpace c = false)
  /\ len t <= len text.
Proof.
  cbn zeta. destruct (normalizeWhitespace_shape text) as (Hs & Hstart & Hend).
  destruct (singleSpaced_spaces _ _ Hs) as [Hall Hadj].
  repeat split; try assumption. apply normalizeWhitespace_length.
Qed.

(** X2: normalizing twice is normalizing once. *)
Theorem normalizeWhitespace_idempotent (text : jsstring) :
  normalizeWhitespace (normalizeWhitespace text) = normalizeWhitespace text.
Proof.
  destruct (normalizeWhitespace_shape text) as (Hs & Hstart & Hend).
  apply normalizeWhitespace_fixed; assumption.
Qed.

Lemma filter_all_removed (removed : jsstring) :
  Forall (fun c => isWhiteSpace c = true) removed -> filter notWhiteSpace removed = [].
Proof.
  induction 1 as [|c removed Hc _ IH]; [reflexivity|].
  cbn [filter]. unfold notWhiteSpace at 1. rewrite Hc. exact IH.
Qed.

Lemma collapseRuns_keeps_text (s : jsstring) :
  forall b, filter notWhiteSpace (collapseRuns b s) = filter notWhiteSpace s.
Proof.
  induction s as [|c s IH]; intros b; [reflexivity|].
  cbn [collapseRuns filter]. unfold notWhiteSpace at 2.
  destruct (isWhiteSpace c) eqn:E; cbn [negb].
  - destruct b; [apply IH|]. cbn [filter]. apply IH.
  - cbn [filter]. unfold notWhiteSpace at 1. rewrite E. cbn [negb]. f_equal. apply IH.
Qed.

Lemma normalizeWhitespace_keeps_text (text : jsstring) :
  filter notWhiteSpace (normalizeWhitespace text) = filter notWhiteSpace text.
Proof.
  unfold normalizeWhitespace, trim, replaceWhitespaceRuns.
  rewrite <- (collapseRuns_keeps_text text false).
  destruct (trimStart_suffix (collapseRuns false text)) as (r1 & E1 & H1).
  destruct (trimEnd_prefix (trimStart (collapseRuns false text))) as (r2 & E2 & H2).
  rewrite E1 at 2. rewrite filter_app, (filter_all_removed r1 H1). cbn [app].
  rewrite E2 at 2. rewrite filter_app, (filter_all_removed r2 H2), app_nil_r.
  reflexivity.
Qed.

(** X3: normalization changes white space only: the characters that are not
    white space are kept, all of them and in their order; and the result is
    empty exactly when the text has no such character. *)
Theorem normalizeWhitespace_keeps_characters (text : jsstring) :
  filter notWhiteSpace (normalizeWhitespace text) = filter notWhiteSpace text
  /\ (normalizeWhitespace text = [] <-> forallb isWhiteSpace text = true).
Proof.
  split; [apply normalizeWhitespace_keeps_text|].
  pose proof (normalizeWhitespace_keeps_text text) as Hkeep.
  destruct (normalizeWhitespace_shape text) as (_ & Hstart & _).
  split.
  - intros Hnil. rewrite Hnil in Hkeep. cbn in Hkeep.
    apply forallb_forall. intros c Hc.
    destruct (isWhiteSpace c) eqn:E; [reflexivity|].
    assert (Hin : In c (filter notWhiteSpace text))
      by (apply filter_In; split; [exact Hc | unfold notWhiteSpace; rewrite E; reflexivity]).
    rewrite <- Hkeep in Hin. destruct Hin.
  - intros Hall.
    assert (Hnone : filter notWhiteSpace text = []).
    { apply filter_all_removed. apply Forall_forall. intros c Hc.
      rewrite forallb_forall in Hall. exact (Hall c Hc). }
    rewrite Hnone in Hkeep.
    destruct (normalizeWhitespace text) as [|c t]; [reflexivity|].
    cbn in Hstart. cbn [filter] in Hkeep. unfold notWhiteSpace at 1 in Hkeep.
    rewrite Hstart in Hkeep. discriminate Hkeep.
Qed.

(** ** Block locator and fallbacks *)

Lemma getNearestBlockElement_matches (node : DomNode) (el : Element) :
  getNearestBlockElement node = Some el -> matchesParagraphSelector el = true.
Proof.
  induction node as [|nodeType e parent IH]; cbn [getNearestBlockElement];
    [discriminate|].
  destruct ((nodeType =? 1) && matchesParagraphSelector e) eqn:E; [|exact IH].
  intros H. injection H as <-. apply Bool.andb_true_iff in E. tauto.
Qed.

(** X4: every block the locator returns matches the paragraph selector; when
    [currentLocation] throws nothing is located and there is no spine id;
    when [getRange] is not a function no block is located; and when
    [getRange] throws for the start position the end block is not looked
    for, while the spine id read before is kept. *)
Theorem locateBlocks_edges (r : Rendition) :
  (forall el, fst (fst (locateBlocks r)) = Some el -> matchesParagraphSelector el = true)
  /\ (forall el, snd (fst (locateBlocks r)) = Some el -> matchesParagraphSelector el = true)
  /\ (currentLocation r = Some Throws -> locateBlocks r = (None, None, None))
  /\ (getRange r = None -> fst (locateBlocks r) = (None, None))
  /\ (forall loc range c,
        currentLocation r = Some (Returns loc) ->
        getRange r = Some range ->
        orNull (cfiOf (startOf loc)) = Some c ->
        range c = Throws ->
        locateBlocks r = (None, None, option_map showInt (indexOf (startOf loc)))).
Proof.
  unfold locateBlocks.
  split; [|split; [|split; [|split]]].
  - intros el.
    destruct (currentLocation r) as [[loc|]|]; cbn [fst snd]; try discriminate;
      (destruct (orNull (cfiOf (startOf _))) as [c|];
       destruct (getRange r) as [range|];
       try (destruct (orNull (cfiOf (endOf _))) as [c'|]);
       cbn [fst snd]; try discriminate;
       try (destruct (range c) as [[r1|]|]; cbn [fst snd]; try discriminate);
       try (destruct (range c') as [[r2|]|]; cbn [fst snd]; try discriminate);
       try apply getNearestBlockElement_matches).
  - intros el.
    destruct (currentLocation r) as [[loc|]|]; cbn [fst snd]; try discriminate;
      (destruct (orNull (cfiOf (startOf _))) as [c|];
       destruct (getRange r) as [range|];
       try (destruct (orNull (cfiOf (endOf _))) as [c'|]);
       cbn [fst snd]; try discriminate;
       try (destruct (range c) as [[r1|]|]; cbn [fst snd]; try discriminate);
       try (destruct (range c') as [[r2|]|]; cbn [fst snd]; try discriminate);
       try apply getNearestBlockElement_matches).
  - intros ->. reflexivity.
  - intros ->.
    destruct (currentLocation r) as [[loc|]|]; try reflexivity;
      destruct (orNull (cfiOf (startOf _))); destruct (orNull (cfiOf (endOf _)));
      reflexivity.
  - intros loc range c -> -> Hc Hthrow. rewrite Hc, Hthrow. reflexivity.
Qed.

Lemma middle_in_range {A : Type} (l : list A) :
  l <> [] -> exists x, nth_error l (Z.to_nat (len l / 2)) = Some x.
Proof.
  intros Hl. destruct (nth_error l (Z.to_nat (len l / 2))) as [x|] eqn:E;
    [exists x; reflexivity|].
  exfalso. apply nth_error_None in E.
  assert (0 < len l) by (destruct l; [congruence | unfold len; cbn; lia]).
  assert (len l / 2 < len l) by (apply Z.div_lt; lia).
  assert (0 <= len l / 2) by (apply Z.div_pos; lia).
  unfold len in *. lia.
Qed.

(** X5: as soon as one paragraph is collected both boundary blocks are
    resolved, so the fallback return that follows is never taken: a located
    block is kept, a missing one takes the other, and when neither is
    located both are the middle paragraph. *)
Theorem resolveBlocks_total (paragraphs : list Element)
  (startBlock0 endBlock0 : option Element) :
  paragraphs <> [] ->
  exists startBlock endBlock,
    resolveBlocks paragraphs startBlock0 endBlock0 = (Some startBlock, Some endBlock)
    /\ match startBlock0, endBlock0 with
       | Some s, Some e => startBlock = s /\ endBlock = e
       | Some s, None => startBlock = s /\ endBlock = s
       | None, Some e => startBlock = e /\ endBlock = e
       | None, None =>
           startBlock = endBlock
           /\ nth_error paragraphs (Z.to_nat (len paragraphs / 2)) = Some startBlock
       end.
Proof.
  intros Hne. unfold resolveBlocks.
  destruct startBlock0 as [s|], endBlock0 as [e|].
  - exists s, e. repeat split.
  - exists s, s. repeat split.
  - exists e, e. repeat split.
  - destruct (middle_in_range paragraphs Hne) as (m & Hm). rewrite Hm.
    exists m, m. repeat split.
Qed.

Lemma resolveBlocks_total_witness :
  twoParagraphs <> []
  /\ resolveBlocks twoParagraphs None None
     = (nth_error twoParagraphs 1, nth_error twoParagraphs 1).
Proof.
  assert (H : twoParagraphs <> []) by discriminate.
  destruct (resolveBlocks_total twoParagraphs None None H) as (s & e & E & Hse & Hm).
  split; [exact H|]. rewrite E. subst e.
  change (nth_error twoParagraphs 1 = Some s) in Hm. rewrite Hm. reflexivity.
Defined.

(** ** Extraction: content, bounds and failures *)

Lemma orElse_nonEmpty (a b : jsstring) : nonEmpty b = true -> nonEmpty (orElse a b) = true.
Proof. unfold orElse. destruct (nonEmpty a) eqn:E; auto. Qed.

Lemma orElse_length (a b : jsstring) (n : Z) :
  len a <= n -> len b <= n -> len (orElse a b) <= n.
Proof. unfold orElse. destruct (nonEmpty a); auto. Qed.

Lemma sliceTo_length (n : nat) (s : jsstring) : len (sliceTo n s) <= Z.of_nat n.
Proof. unfold sliceTo, len. pose proof (firstn_le_length n s). rewrite length_firstn. lia. Qed.

Lemma extractionResult_nonEmpty (book : option Book) (r : Rendition) :
  nonEmpty (content (extractionResult book (Some r))) = true.
Proof.
  unfold extractionResult, extractTry.
  destruct (getContents r) as [[[|[doc|] rest]|]|]; try reflexivity.
  destruct (body doc) as [[bodyText blocks]|]; try reflexivity.
  destruct (locateBlocks r) as [[sb eb] spineId]. unfold extractFromBody.
  destruct (len (collectParagraphElements blocks) =? 0);
    [apply orElse_nonEmpty; reflexivity|].
  destruct (resolveBlocks _ sb eb) as [[s|] [e|]];
    try (apply orElse_nonEmpty; reflexivity).
  destruct (nonEmpty (windowContent _) && _) eqn:E; cbn [content].
  - apply Bool.andb_true_iff in E. tauto.
  - apply orElse_nonEmpty. reflexivity.
Qed.

(** X6: with a rendition, [extractPageContent] never returns an empty
    content, ends with the extracting flag cleared, and touches neither the
    shown summary nor the store nor the requests; without a rendition it
    returns the empty content and changes nothing at all. *)
Theorem extractPageContent_content_and_state (book : option Book) (r : Rendition)
  (w : World) :
  let run := extractPageContent book (Some r) w in
  nonEmpty (content (fst run)) = true
  /\ isExtractingContent (panel (snd run)) = false
  /\ visibleOutput (snd run) = visibleOutput w
  /\ isLoading (panel (snd run)) = isLoading (panel w)
  /\ cache (snd run) = cache w
  /\ requests (snd run) = requests w
  /\ extractPageContent book None w = (noKeys [], w).
Proof.
  cbn zeta. rewrite extractPageContent_result.
  split; [apply extractionResult_nonEmpty|].
  unfold extractPageContent.
  destruct (extractTry book r); repeat split.
Qed.

(** X7: a result with a cache key has at least 50 characters of content; a
    result without one has at most 20000; and a signature source has at most
    241 characters, one of them the bar. *)
Theorem extraction_bounds (book : option Book) (rendition : option Rendition) :
  let res := extractionResult book rendition in
  (forall k, cacheKey res = Some k -> 50 <= len (content res))
  /\ (cacheKey res = None -> len (content res) <= 20000)
  /\ (forall s, sigSource res = Some s -> len s <= 241 /\ In 124%N s).
Proof.
  cbn zeta. unfold extractionResult, extractTry.
  assert (Hmsg : forall t n, (n <= 2000)%nat ->
             len (orElse (sliceTo n t) msgNoValidContent) <= 20000).
  { intros t n Hn. apply orElse_length; [|unfold len; cbn; lia].
    pose proof (sliceTo_length n t). lia. }
  destruct rendition as [r|];
    [|split; [discriminate | split; [intros _; unfold len; cbn; lia | discriminate]]].
  destruct (getContents r) as [[[|[doc|] rest]|]|];
    try (split; [discriminate | split; [intros _; unfold len; cbn; lia | discriminate]]).
  destruct (body doc) as [[bodyText blocks]|];
    try (split; [discriminate | split; [intros _; unfold len; cbn; lia | discriminate]]).
  destruct (locateBlocks r) as [[sb eb] spineId]. unfold extractFromBody.
  destruct (len (collectParagraphElements blocks) =? 0);
    [split; [discriminate | split; [intros _; apply Hmsg; lia | discriminate]]|].
  destruct (resolveBlocks _ sb eb) as [[s|] [e|]];
    try (split; [discriminate | split; [intros _; apply Hmsg; lia | discriminate]]).
  set (ib := inBetweenOf doc (collectParagraphElements blocks) s e).
  assert (Hsig : len (paraHashSourceOf ib) <= 241 /\ In 124%N (paraHashSourceOf ib)).
  { unfold paraHashSourceOf. split.
    - rewrite !len_app.
      pose proof (sliceTo_length 120 (normalizeWhitespace (textOfOpt (nth_error ib 0)))).
      pose proof (sliceTo_length 120
                    (normalizeWhitespace (textOfOpt (nth_error ib (List.length ib - 1))))).
      change (len (lit "|")) with 1. lia.
    - apply in_or_app. right. left. reflexivity. }
  destruct (nonEmpty (windowContent ib) && (len (windowContent ib) >=? 50)) eqn:E;
    cbn [content cacheKey sigSource].
  - apply Bool.andb_true_iff in E. destruct E as [_ E]. apply Z.geb_le in E.
    split; [intros k _; exact E|]. split; [discriminate|].
    intros src H. injection H as <-. exact Hsig.
  - split; [discriminate|]. split.
    + intros _. apply orElse_length; [|unfold len; cbn; lia].
      pose proof (sliceTo_length (Z.to_nat fallbackMaxChars) (normalizeWhitespace bodyText)).
      change (Z.of_nat (Z.to_nat fallbackMaxChars)) with 20000 in H. exact H.
    + intros src H. injection H as <-. exact Hsig.
Qed.

(** X8: when the rendering gives no usable document the result carries a
    fixed message and neither key nor group prefix nor signature source:
    no contents, no document or body, and a [getContents] that throws, which
    is also logged. *)
Theorem extraction_failures (book : option Book) (r : Rendition) (w : World) :
  (getContents r = Returns None \/ getContents r = Returns (Some []) ->
   fst (extractPageContent book (Some r) w) = noKeys msgNoPageContent)
  /\ (forall rest, getContents r = Returns (Some (None :: rest)) ->
      fst (extractPageContent book (Some r) w) = noKeys msgNoDocument)
  /\ (forall doc rest, getContents r = Returns (Some (Some doc :: rest)) ->
      body doc = None ->
      fst (extractPageContent book (Some r) w) = noKeys msgNoDocument)
  /\ (getContents r = Throws ->
      fst (extractPageContent book (Some r) w) = noKeys msgExtractError
      /\ console (snd (extractPageContent book (Some r) w))
         = console w ++ [WarnExtractFailed])
  /\ (forall doc rest bodyText blocks,
        getContents r = Returns (Some (Some doc :: rest)) ->
        body doc = Some (bodyText, blocks) ->
        collectParagraphElements blocks = [] ->
        fst (extractPageContent book (Some r) w)
        = noKeys (orElse (sliceTo 2000 (normalizeWhitespace bodyText)) msgNoValidContent)).
Proof.
  rewrite extractPageContent_result. unfold extractionResult, extractTry.
  split; [intros [-> | ->]; reflexivity|].
  split; [intros rest ->; reflexivity|].
  split; [intros doc rest -> ->; reflexivity|].
  split.
  - intros Hthrow. rewrite Hthrow. split; [reflexivity|].
    unfold extractPageContent, extractTry. rewrite Hthrow. reflexivity.
  - intros doc rest bodyText blocks -> -> Hnone.
    destruct (locateBlocks r) as [[sb eb] spineId]. unfold extractFromBody.
    rewrite Hnone. reflexivity.
Qed.

(** ** Window selector: size *)

Lemma distinct_indices_count (idxs : list Z) (n : Z) :
  NoDup idxs -> Forall (fun i => 0 <= i < n) idxs -> len idxs <= Z.max 0 n.
Proof.
  intros Hnd Hrange.
  assert (Hincl : incl (map Z.to_nat idxs) (seq 0 (Z.to_nat n))).
  { intros k Hk. apply in_map_iff in Hk. destruct Hk as (i & <- & Hi).
    rewrite Forall_forall in Hrange. specialize (Hrange i Hi).
    apply in_seq. lia. }
  assert (Hnd' : NoDup (map Z.to_nat idxs)).
  { clear Hincl. induction Hnd as [|i l Hi Hnd IH]; [constructor|].
    inversion Hrange as [|? ? Hi0 Hl]; subst. cbn [map]. constructor; [|auto].
    intros Hin. apply in_map_iff in Hin. destruct Hin as (j & Hj & Hjl).
    rewrite Forall_forall in Hl. specialize (Hl j Hjl).
    assert (j = i) by lia. subst j. exact (Hi Hjl). }
  pose proof (NoDup_incl_length Hnd' Hincl) as Hlen.
  rewrite length_map, length_seq in Hlen. unfold len. lia.
Qed.

Lemma pushIdx_capped (ib : list Element) (idx : Z) (s : Selection) :
  len (texts s) <= maxParas -> len (texts (snd (pushIdx ib idx s))) <= maxParas.
Proof.
  intros Hs.
  destruct (pushIdx_cases ib idx s) as [E | (el & E & _ & _ & _ & _ & Hcap & _)].
  - rewrite E. exact Hs.
  - cbn zeta in E. rewrite E. cbn [snd texts]. rewrite len_app.
    change (len [normalizeWhitespace (textContent el)]) with 1. lia.
Qed.

(** X9: the window never holds more than 300 paragraphs, nor more than the
    in-between sequence has; the selected indices are distinct positions of
    that sequence, one per selected text. *)
Theorem window_size (inBetween : list Element) :
  let sel := selectWindow inBetween in
  len (texts sel) <= 300
  /\ len (texts sel) <= len inBetween
  /\ len (texts sel) = len (selectedIdxs sel)
  /\ NoDup (selectedIdxs sel)
  /\ Forall (fun i => 0 <= i < len inBetween) (selectedIdxs sel).
Proof.
  cbn zeta.
  destruct (selectWindow_coherent inBetween) as (Ht & _ & Hnd & Hrange).
  assert (Hlen : len (texts (selectWindow inBetween))
                 = len (selectedIdxs (selectWindow inBetween)))
    by (rewrite Ht; unfold len; rewrite length_map; reflexivity).
  assert (Hcap : len (texts (selectWindow inBetween)) <= maxParas).
  { unfold selectWindow.
    apply (expandFromEnds_preserves (fun s => len (texts s) <= maxParas)).
    - intros idx s. apply pushIdx_capped.
    - unfold pushBoundaries. destruct (len inBetween >? 1);
        repeat apply pushIdx_capped; unfold len, maxParas; cbn; lia. }
  split; [exact Hcap|]. split; [|split; [exact Hlen | split; assumption]].
  rewrite Hlen. pose proof (distinct_indices_count _ _ Hnd Hrange).
  pose proof (len_nonneg inBetween). lia.
Qed.

Lemma boundaries_in_full_witness :
  2 <= len threeParagraphs
  /\ (exists more,
        texts (selectWindow threeParagraphs)
        = [lit "first paragraph"; lit "last paragraph"] ++ more)
  /\ 15 + 2 + 14 <= total (selectWindow threeParagraphs).
Proof.
  assert (Hn : 2 <= len threeParagraphs) by (unfold len; cbn; lia).
  destruct (boundaries_in_full threeParagraphs Hn eq_refl eq_refl) as [Hfirst Htotal].
  split; [exact Hn|]. split; [exact Hfirst | exact Htotal].
Defined.

(** ** Window selector: a sequence that fits is taken whole *)

Lemma sumOver_app (f : Z -> Z) (l1 l2 : list Z) :
  sumOver f (l1 ++ l2) = sumOver f l1 + sumOver f l2.
Proof.
  unfold sumOver. induction l1 as [|a l1 IH]; cbn [app fold_right]; [lia|].
  rewrite IH. lia.
Qed.

Lemma sumOver_nonneg (f : Z -> Z) (l : list Z) :
  (forall i, 0 <= f i) -> 0 <= sumOver f l.
Proof.
  intros Hf. unfold sumOver. induction l as [|a l IH]; cbn [fold_right]; [lia|].
  specialize (Hf a). lia.
Qed.

(** Distinct indices taken from a list weigh no more than the list. *)
Lemma sumOver_sub (f : Z -> Z) (l : list Z) :
  (forall i, 0 <= f i) ->
  NoDup l -> forall l', incl l l' -> sumOver f l <= sumOver f l'.
Proof.
  intros Hf Hnd. induction Hnd as [|a l Ha Hnd IH]; intros l' Hincl.
  - cbn. apply sumOver_nonneg. exact Hf.
  - assert (Hin : In a l') by (apply Hincl; left; reflexivity).
    apply in_split in Hin. destruct Hin as (l1 & l2 & ->).
    assert (Hrest : incl l (l1 ++ l2)).
    { intros x Hx. assert (Hx' : In x (l1 ++ a :: l2)) by (apply Hincl; right; exact Hx).
      apply in_app_or in Hx'. apply in_or_app.
      destruct Hx' as [H|[H|H]]; [left; exact H | subst x; contradiction | right; exact H]. }
    specialize (IH _ Hrest). rewrite sumOver_app in IH |- *.
    change (sumOver f (a :: l)) with (f a + sumOver f l).
    change (sumOver f (a :: l2)) with (f a + sumOver f l2). lia.
Qed.

Lemma windowChars_sum (f : Z -> jsstring) (l : list Z) :
  l <> [] ->
  windowChars (map f l) = sumOver (fun i => len (f i) + 2) l - 2.
Proof.
  induction l as [|a l IH]; [congruence|]. intros _.
  cbn [map]. rewrite windowChars_cons.
  change (sumOver (fun i => len (f i) + 2) (a :: l))
    with (len (f a) + 2 + sumOver (fun i => len (f i) + 2) l).
  destruct l as [|b l].
  - cbn. lia.
  - rewrite IH by discriminate.
    replace (len (map f (b :: l)) =? 0) with false
      by (symmetry; apply Z.eqb_neq; unfold len; cbn; lia).
    lia.
Qed.

Lemma windowChars_nonneg (ts : list jsstring) : 0 <= windowChars ts.
Proof.
  induction ts as [|t ts IH]; [cbn; lia|].
  rewrite windowChars_cons. pose proof (len_nonneg t).
  destruct (len ts =? 0); lia.
Qed.

Lemma map_seq_nth_error {A B : Type} (g : option A -> B) (l : list A) :
  forall pre,
    map (fun i => g (nth_error (pre ++ l) i)) (seq (List.length pre) (List.length l))
    = map (fun x => g (Some x)) l.
Proof.
  induction l as [|a l IH]; intros pre; [reflexivity|].
  cbn [List.length seq map]. f_equal.
  - rewrite nth_error_app2 by lia. rewrite Nat.sub_diag. reflexivity.
  - specialize (IH (pre ++ [a])). rewrite <- app_assoc in IH. cbn [app] in IH.
    rewrite length_app in IH. cbn [List.length] in IH.
    rewrite Nat.add_1_r in IH. exact IH.
Qed.

Lemma allNormalized_indices (ib : list Element) :
  map (normalizedAt ib) (indicesBelow (List.length ib)) = allNormalized ib.
Proof.
  unfold indicesBelow, allNormalized, normalizedAt. rewrite map_map.
  rewrite (map_ext _ (fun i => normalizeWhitespace (textOfOpt (nth_error ([] ++ ib) i))))
    by (intros i; rewrite Nat2Z.id; reflexivity).
  apply (map_seq_nth_error (fun o => normalizeWhitespace (textOfOpt o)) ib []).
Qed.

Lemma indicesBelow_In (n : nat) (i : Z) : In i (indicesBelow n) <-> 0 <= i < Z.of_nat n.
Proof.
  unfold indicesBelow. rewrite in_map_iff. split.
  - intros (k & <- & Hk). apply in_seq in Hk. lia.
  - intros Hi. exists (Z.to_nat i). split; [lia | apply in_seq; lia].
Qed.

Lemma indicesBelow_NoDup (n : nat) : NoDup (indicesBelow n).
Proof.
  unfold indicesBelow. apply Finite.Injective_map_NoDup; [|apply seq_NoDup].
  intros a b H. lia.
Qed.

(** Distinct positions of the sequence make a window no longer than the
    whole sequence does. *)
Lemma part_no_longer (ib : list Element) (idxs : list Z) :
  NoDup idxs ->
  Forall (fun i => 0 <= i < len ib) idxs ->
  windowChars (map (normalizedAt ib) idxs) <= windowChars (allNormalized ib).
Proof.
  intros Hnd Hrange. destruct idxs as [|i idxs].
  - cbn. apply windowChars_nonneg.
  - rewrite <- allNormalized_indices.
    assert (Hne : indicesBelow (List.length ib) <> []).
    { inversion Hrange as [|? ? Hi _]; subst.
      destruct ib; [unfold len in Hi; cbn in Hi; lia | discriminate]. }
    rewrite !windowChars_sum by (assumption || discriminate).
    assert (Hle : sumOver (fun j => len (normalizedAt ib j) + 2) (i :: idxs)
                  <= sumOver (fun j => len (normalizedAt ib j) + 2)
                       (indicesBelow (List.length ib))).
    { apply sumOver_sub; [|exact Hnd|].
      - intros j. pose proof (len_nonneg (normalizedAt ib j)). lia.
      - intros j Hj. apply indicesBelow_In. rewrite Forall_forall in Hrange.
        exact (Hrange j Hj). }
    lia.
Qed.

Section WholeWindow.
Variable ib : list Element.
Hypothesis Hfit : fitsWhole ib.

Lemma fits_text (i : Z) : 0 <= i < len ib -> nonEmpty (normalizedAt ib i) = true.
Proof.
  intros Hi. destruct Hfit as (Hall & _ & _).
  destruct (nth_error_normalizedAt ib i Hi) as (el & Hnth & ->).
  rewrite Forall_forall in Hall. apply Hall. unfold allNormalized.
  apply (in_map (fun e => normalizeWhitespace (textContent e))).
  eapply nth_error_In. exact Hnth.
Qed.

(** In a sequence that fits, a call of [pushIdx] for a position of the
    sequence leaves that position selected. *)
Lemma push_ensures (idx : Z) (s : Selection) :
  coherent ib s -> 0 <= idx < len ib ->
  In idx (selectedIdxs (snd (pushIdx ib idx s))).
Proof.
  intros Hcoh Hidx. pose proof Hcoh as (Ht & Htot & Hnd & Hrange).
  destruct Hfit as (_ & Hmax & Hbudget).
  unfold pushIdx.
  replace (idx <? 0) with false by (symmetry; apply Z.ltb_ge; lia).
  destruct (Z.geb_spec idx (len ib)); [lia|]. cbn [orb].
  destruct (existsb (Z.eqb idx) (selectedIdxs s)) eqn:Hex.
  - cbn [snd]. apply existsb_exists in Hex. destruct Hex as (j & Hj & E).
    apply Z.eqb_eq in E. subst j. exact Hj.
  - assert (Hnew : ~ In idx (selectedIdxs s)).
    { intros Hin. apply Bool.not_true_iff_false in Hex. apply Hex.
      apply existsb_exists. exists idx. split; [exact Hin | apply Z.eqb_refl]. }
    destruct (nth_error_normalizedAt ib idx Hidx) as (el & Hnth & Hel).
    rewrite Hnth. pose proof (fits_text idx Hidx) as Hne. rewrite Hel in Hne.
    rewrite Hne. cbn [negb].
    assert (Hnd' : NoDup (selectedIdxs s ++ [idx])).
    { apply NoDup_app; [assumption | constructor; [intros [] | constructor] |].
      intros a Ha [Hb | []]. subst a. exact (Hnew Ha). }
    assert (Hrange' : Forall (fun i => 0 <= i < len ib) (selectedIdxs s ++ [idx])).
    { apply Forall_app. split; [assumption | constructor; [lia | constructor]]. }
    pose proof (distinct_indices_count _ _ Hnd' Hrange') as Hcount.
    rewrite len_app in Hcount. change (len [idx]) with 1 in Hcount.
    assert (Hlen : len (texts s) = len (selectedIdxs s))
      by (rewrite Ht; unfold len; rewrite length_map; reflexivity).
    destruct (Z.geb_spec (len (texts s)) maxParas); [lia|].
    pose proof (part_no_longer ib _ Hnd' Hrange') as Hpart.
    rewrite map_app, <- Ht in Hpart. cbn [map] in Hpart.
    rewrite windowChars_snoc, <- Htot in Hpart. unfold normalizedAt at 1 in Hpart.
    rewrite Hnth in Hpart. cbn [textOfOpt] in Hpart.
    destruct (Z.gtb_spec
                (total s + len (normalizeWhitespace (textContent el))
                 + (if len (texts s) =? 0 then 0 else 2)) charBudget); [lia|].
    rewrite Bool.andb_false_r. cbn [snd selectedIdxs].
    apply in_or_app. right. left. reflexivity.
Qed.

Lemma full_when_capped (s : Selection) :
  coherent ib s -> maxParas <= len (texts s) -> covered ib (len ib) s.
Proof.
  intros (Ht & _ & Hnd & Hrange) Hcap i Hi _.
  destruct Hfit as (_ & Hmax & _).
  assert (Hlen : len (texts s) = len (selectedIdxs s))
    by (rewrite Ht; unfold len; rewrite length_map; reflexivity).
  assert (Hincl : incl (indicesBelow (List.length ib)) (selectedIdxs s)).
  { apply NoDup_length_incl; [exact Hnd | |].
    - unfold indicesBelow. rewrite length_map, length_seq. unfold len in *. lia.
    - intros j Hj. apply indicesBelow_In. rewrite Forall_forall in Hrange.
      exact (Hrange j Hj). }
  apply Hincl, indicesBelow_In. exact Hi.
Qed.

Lemma expand_covers (fuel : nat) :
  forall k s,
    1 <= k -> len ib - k <= Z.of_nat fuel ->
    coherent ib s -> covered ib k s ->
    covered ib (len ib) (expandFromEnds fuel ib k s)
    /\ coherent ib (expandFromEnds fuel ib k s).
Proof.
  induction fuel as [|fuel IH]; intros k s Hk Hfuel Hcoh Hcov.
  - cbn [expandFromEnds]. split; [|exact Hcoh].
    intros i Hi _. apply Hcov; [exact Hi | lia].
  - cbn [expandFromEnds].
    destruct (Z.ltb_spec (len (texts s)) maxParas) as [Hcap|Hcap]; cbn [andb];
      [|split; [apply full_when_capped; assumption | exact Hcoh]].
    destruct (Z.ltb_spec (total s) charBudget) as [Hbud|Hbud]; cbn [andb].
    2:{ exfalso. destruct Hcoh as (Ht & Htot & Hnd & Hrange).
        pose proof (part_no_longer ib _ Hnd Hrange) as Hpart.
        rewrite <- Ht, <- Htot in Hpart. destruct Hfit as (_ & _ & Hb). lia. }
    destruct (Z.ltb_spec k (len ib)) as [Hlt|Hge];
      [|split; [intros i Hi _; apply Hcov; [exact Hi | lia] | exact Hcoh]].
    destruct (Z.gtb_spec k (len ib - 1 - k)) as [Hgt|Hle].
    + replace (k <=? len ib - 1 - k) with false by (symmetry; apply Z.leb_gt; lia).
      split; [|exact Hcoh]. intros i Hi _. apply Hcov; [exact Hi | lia].
    + replace (k <=? len ib - 1 - k) with true by (symmetry; apply Z.leb_le; lia).
      set (s1 := snd (pushIdx ib k s)).
      assert (Hcoh1 : coherent ib s1) by (apply pushIdx_coherent; exact Hcoh).
      assert (Hk1 : In k (selectedIdxs s1)) by (apply push_ensures; [exact Hcoh | lia]).
      set (s2 := if negb (len ib - 1 - k =? k) then snd (pushIdx ib (len ib - 1 - k) s1)
                 else s1).
      assert (Hcoh2 : coherent ib s2)
        by (unfold s2; destruct (negb _); [apply pushIdx_coherent|]; exact Hcoh1).
      assert (Hkeep : forall i, In i (selectedIdxs s) -> In i (selectedIdxs s2)).
      { intros i Hin. unfold s2. destruct (negb _).
        - apply pushIdx_keeps_selected, pushIdx_keeps_selected. exact Hin.
        - apply pushIdx_keeps_selected. exact Hin. }
      assert (Hleft : In k (selectedIdxs s2)).
      { unfold s2. destruct (negb _); [apply pushIdx_keeps_selected|]; exact Hk1. }
      assert (Hright : In (len ib - 1 - k) (selectedIdxs s2)).
      { unfold s2. destruct (Z.eqb_spec (len ib - 1 - k) k) as [E|E]; cbn [negb].
        - rewrite E. exact Hk1.
        - apply push_ensures; [exact Hcoh1 | lia]. }
      apply IH; [lia | lia | exact Hcoh2 |].
      intros i Hi Hnear.
      destruct (Z.eq_dec i k) as [->|Hik]; [exact Hleft|].
      destruct (Z.eq_dec i (len ib - 1 - k)) as [->|Hir]; [exact Hright|].
      apply Hkeep, Hcov; [exact Hi | lia].
Qed.

Lemma whole_selected :
  (forall i, 0 <= i < len ib -> In i (selectedIdxs (selectWindow ib)))
  /\ coherent ib (selectWindow ib).
Proof.
  unfold selectWindow.
  destruct (expand_covers (List.length ib) 1 (pushBoundaries ib)) as [Hcov Hcoh].
  - lia.
  - unfold len. lia.
  - apply pushBoundaries_coherent.
  - intros i Hi Hnear.
    assert (Hn : 1 <= len ib) by lia.
    destruct Hnear as [H0|H1].
    + replace i with 0 by lia.
      apply first_boundary_selected; [exact Hn | apply fits_text; lia].
    + replace i with (len ib - 1) by lia.
      apply last_boundary_selected; [exact Hn | apply fits_text; lia].
  - split; [|exact Hcoh]. intros i Hi. apply Hcov; [exact Hi | left; lia].
Qed.

End WholeWindow.

(** X10: when every paragraph of the in-between sequence has text, there are
    at most 300 of them and their join stays under the character budget,
    the window holds every paragraph once and its length is that of the
    whole sequence joined. *)
Theorem fitting_sequence_taken_whole (inBetween : list Element) :
  fitsWhole inBetween ->
  let sel := selectWindow inBetween in
  (forall i, 0 <= i < len inBetween -> In i (selectedIdxs sel))
  /\ len (texts sel) = len inBetween
  /\ total sel = windowChars (allNormalized inBetween).
Proof.
  intros Hfit. cbn zeta.
  destruct (whole_selected inBetween Hfit) as [Hall (Ht & Htot & Hnd & Hrange)].
  assert (Hsame : incl (indicesBelow (List.length inBetween))
                    (selectedIdxs (selectWindow inBetween)))
    by (intros i Hi; apply Hall, indicesBelow_In; exact Hi).
  assert (Hback : incl (selectedIdxs (selectWindow inBetween))
                    (indicesBelow (List.length inBetween))).
  { intros i Hi. apply indicesBelow_In. rewrite Forall_forall in Hrange.
    exact (Hrange i Hi). }
  split; [exact Hall|].
  assert (Hcount : List.length (selectedIdxs (selectWindow inBetween))
                   = List.length inBetween).
  { pose proof (NoDup_incl_length Hnd Hback) as H1.
    pose proof (NoDup_incl_length (indicesBelow_NoDup _) Hsame) as H2.
    unfold indicesBelow in H1, H2. rewrite length_map, length_seq in H1, H2. lia. }
  split.
  - rewrite Ht. unfold len. rewrite length_map, Hcount. reflexivity.
  - rewrite Htot, Ht, <- allNormalized_indices.
    destruct (selectedIdxs (selectWindow inBetween)) as [|i idxs] eqn:Eidx.
    + cbn in Hcount. destruct inBetween; [reflexivity | discriminate Hcount].
    + assert (Hne : indicesBelow (List.length inBetween) <> []).
      { destruct inBetween; [discriminate Hcount | discriminate]. }
      rewrite !windowChars_sum by (assumption || discriminate).
      assert (Hw : forall j, 0 <= len (normalizedAt inBetween j) + 2)
        by (intros j; pose proof (len_nonneg (normalizedAt inBetween j)); lia).
      pose proof (sumOver_sub _ _ Hw Hnd _ Hback).
      pose proof (sumOver_sub _ _ Hw (indicesBelow_NoDup _) _ Hsame).
      lia.
Qed.

Lemma fitting_sequence_taken_whole_witness :
  fitsWhole threeParagraphs
  /\ len (texts (selectWindow threeParagraphs)) = 3
  /\ total (selectWindow threeParagraphs) = 15 + 2 + 6 + 2 + 14.
Proof.
  assert (Hfit : fitsWhole threeParagraphs).
  { split; [repeat constructor|]. split; [unfold len, maxParas; cbn; lia|].
    reflexivity. }
  destruct (fitting_sequence_taken_whole threeParagraphs Hfit) as (_ & Hlen & Htot).
  split; [exact Hfit|]. split; [exact Hlen | exact Htot].
Defined.

(** ** Summary streamer: the request, the lines and the chunks *)

Lemma stripTrailingSlash_slash (u : jsstring) : stripTrailingSlash (u ++ lit "/") = u.
Proof.
  unfold stripTrailingSlash. change (lit "/") with [47%N].
  rewrite rev_app_distr. cbn [rev app]. rewrite N.eqb_refl. apply rev_involutive.
Qed.

(** Splits a computation as [frame] does, and closes a setter that leaves
    the projected fields alone by computation. *)
Ltac frame_fields :=
  repeat first
    [ solve [auto with frame]
    | solve [intros ?; reflexivity]
    | progress autounfold with frame
    | apply keeps_bind; [|intro]
    | match goal with
      | |- keeps _ (if ?b then _ else _) => destruct b
      | |- keeps _ (match ?x with _ => _ end) => destruct x
      end ].

Section GenerationOutcome.
Variable JSON_parse : jsstring -> option json.
Variable fetch : Request -> FetchResult.
Variable localStorage : LocalStorage.

Lemma readLoop_keeps_rest pending :
  forall acc, keeps besidesGeneration (readLoop JSON_parse acc pending).
Proof.
  assert (Hline : forall acc line, keeps besidesGeneration (processLine JSON_parse acc line))
    by (intros; unfold processLine; frame_fields).
  assert (Hlines : forall lines acc,
             keeps besidesGeneration (processLines JSON_parse acc lines)).
  { induction lines as [|l lines IH]; intros acc; cbn [processLines];
      [auto with frame|].
    apply keeps_bind; [apply Hline | intro; apply IH]. }
  induction pending as [|c pending IH]; intros acc; cbn [readLoop];
    [auto with frame|].
  apply keeps_bind; [apply Hlines | intro; apply IH].
Qed.

Lemma generateSummary_keeps_rest snap content override :
  keeps besidesGeneration (generateSummary JSON_parse fetch localStorage snap content override).
Proof.
  unfold generateSummary, startGeneration, consumeResponse, onGenerationError,
    finishGeneration, stopGeneration.
  pose proof readLoop_keeps_rest. frame_fields.
Qed.

(** X11: a generation that runs sends one request.  Its messages are the
    system message, then a message for the page prompt and one for the
    global prompt, each only when it is not blank, then the rules and the
    page text; an override of the page prompt replaces the saved one even
    when it is blank; a slash at the end of the base URL is dropped before
    the path is appended. *)
Theorem generation_request (snap : PanelState) (content : jsstring)
  (override : option jsstring) (w : World) :
  nonEmpty content = true ->
  configured (aiConfigStatus snap) = true ->
  let page := trim (match override with Some p => p | None => pagePromptSaved snap end) in
  let user := trim (aiStorage.getUserPrompt localStorage) in
  exists r prompts,
    requests (snd (generateSummary JSON_parse fetch localStorage snap content override w))
    = requests w ++ [r]
    /\ req_messages r
       = (RoleSystem, systemMsg) :: prompts
         ++ [(RoleUser, rulesMsg); (RoleUser, bodyHeader ++ content)]
    /\ prompts
       = map (fun hp => (RoleUser, fst hp ++ snd hp))
           (filter (fun hp => nonEmpty (snd hp))
              [(pagePromptHeader, page); (userPromptHeader, user)])
    /\ 3 <= len (req_messages r) <= 5
    /\ req_authorization r = lit "Bearer " ++ aiStorage.getApiKey localStorage
    /\ req_model r = aiStorage.getModel localStorage
    /\ (forall u, aiStorage.getBaseUrl localStorage = u ++ lit "/" ->
        req_url r = u ++ lit "/chat/completions").
Proof.
  intros Hne Hconf. cbn zeta.
  set (page := trim (match override with Some p => p | None => pagePromptSaved snap end)).
  set (user := trim (aiStorage.getUserPrompt localStorage)).
  exists (requestFor localStorage snap content override).
  exists (map (fun hp => (RoleUser, fst hp ++ snd hp))
            (filter (fun hp => nonEmpty (snd hp))
               [(pagePromptHeader, page); (userPromptHeader, user)])).
  split; [apply generateSummary_requests; assumption|].
  assert (Hmsgs : req_messages (requestFor localStorage snap content override)
                  = (RoleSystem, systemMsg)
                    :: map (fun hp => (RoleUser, fst hp ++ snd hp))
                         (filter (fun hp => nonEmpty (snd hp))
                            [(pagePromptHeader, page); (userPromptHeader, user)])
                    ++ [(RoleUser, rulesMsg); (RoleUser, bodyHeader ++ content)]).
  { unfold requestFor. cbn [req_messages]. fold page user. unfold buildMessages.
    cbn [filter snd fst].
    destruct (nonEmpty page), (nonEmpty user); reflexivity. }
  split; [exact Hmsgs|]. split; [reflexivity|].
  split.
  { rewrite Hmsgs. cbn [filter snd fst].
    destruct (nonEmpty page), (nonEmpty user); unfold len; cbn; lia. }
  split; [reflexivity|]. split; [reflexivity|].
  intros u Hu. unfold requestFor. cbn [req_url aiStorage.getAll baseUrl].
  rewrite Hu, stripTrailingSlash_slash. reflexivity.
Qed.


(** X12: whatever the answer of [fetch] is, a generation that runs ends
    with the loading flag off and no abort controller, and changes neither
    the store nor any state or ref other than the summary, the loading flag
    and the controller. *)
Theorem generation_settles (snap : PanelState) (content : jsstring)
  (override : option jsstring) (w : World) :
  nonEmpty content = true ->
  configured (aiConfigStatus snap) = true ->
  let w' := snd (generateSummary JSON_parse fetch localStorage snap content override w) in
  isLoading (panel w') = false
  /\ abortControllerRef (panel w') = false
  /\ cache w' = cache w
  /\ besidesGeneration w' = besidesGeneration w.
Proof.
  intros Hne Hconf. cbn zeta.
  split; [apply generateSummary_idle; assumption|].
  split.
  { unfold generateSummary. rewrite Hne, Hconf. cbn [negb orb].
    rewrite !bind_run. reflexivity. }
  split; [apply generateSummary_keeps_cache | apply generateSummary_keeps_rest].
Qed.

(** X13: a line that is blank, or the end marker, or does not start with
    [data: ], and a data line whose delta is missing or falsy, changes
    nothing and logs nothing. *)
Theorem ignored_lines (acc line : jsstring) (w : World) :
  nonEmpty (trim line) = false
  \/ trim line = lit "data: [DONE]"
  \/ startsWith (trim line) (lit "data: ") = false
  \/ (exists jsonData delta,
        JSON_parse (sliceFrom 6 (trim line)) = Some jsonData
        /\ deltaContentOf jsonData = Returns delta
        /\ truthy delta = false) ->
  processLine JSON_parse acc line w = (acc, w).
Proof.
  intros H. unfold processLine.
  destruct (nonEmpty (trim line)) eqn:Hne; [|reflexivity]. cbn [negb orb].
  destruct (eqb (trim line) (lit "data: [DONE]")) eqn:Hdone; [reflexivity|].
  destruct (startsWith (trim line) (lit "data: ")) eqn:Hdata; [|reflexivity].
  destruct H as [H|[H|[H|(jsonData & delta & Hparse & Hdelta & Hfalsy)]]].
  - discriminate H.
  - rewrite H in Hdone. discriminate Hdone.
  - discriminate H.
  - rewrite Hparse, Hdelta, Hfalsy. reflexivity.
Qed.

End GenerationOutcome.

Lemma generation_request_witness :
  exists r,
    requests (snd (generateSummary sampleParse sampleFetch sampleStorage readingPanel
                     (lit "some page text") (Some (lit " why? ")) readingWorld))
    = [r]
    /\ req_messages r
       = [(RoleSystem, systemMsg); (RoleUser, pagePromptHeader ++ lit "why?");
          (RoleUser, rulesMsg); (RoleUser, bodyHeader ++ lit "some page text")].
Proof.
  destruct (generation_request sampleParse sampleFetch sampleStorage readingPanel (lit "some page text") (Some (lit " why? "))
              readingWorld eq_refl eq_refl)
    as (r & prompts & Hreq & Hmsgs & Hprompts & _).
  exists r. split; [exact Hreq|]. rewrite Hmsgs, Hprompts. reflexivity.
Defined.

Lemma generation_settles_witness :
  let w' := snd (generateSummary sampleParse sampleFetch sampleStorage readingPanel
                   (lit "some page text") None readingWorld) in
  isLoading (panel w') = false /\ cache w' = [] /\ lastLocationRef (panel w') = Some (lit "epubcfi(/6/2)").
Proof.
  destruct (generation_settles sampleParse sampleFetch sampleStorage readingPanel
              (lit "some page text") None readingWorld eq_refl eq_refl)
    as (Hidle & _ & Hcache & Hrest).
  cbn zeta. split; [exact Hidle|]. split; [exact Hcache|].
  exact (f_equal (fun t => snd (fst (fst t))) Hrest).
Defined.

Lemma ignored_lines_witness :
  processLine sampleParse (lit "so far") (lit "  event: ping ") readingWorld
  = (lit "so far", readingWorld)
  /\ processLine sampleParse (lit "so far") (dataLine (lit "null")) readingWorld
     <> (lit "so far", readingWorld).
Proof.
  split.
  - apply (ignored_lines sampleParse). right. right. left. reflexivity.
  - vm_compute. discriminate.
Defined.

Lemma splitOn_nonempty (s : jsstring) : splitOn 10 s <> [].
Proof.
  destruct s as [|c s]; cbn [splitOn]; [discriminate|].
  destruct (c =? 10)%N; [discriminate|]. destruct (splitOn 10 s); discriminate.
Qed.

Lemma splitOn_newline (a b : jsstring) :
  splitOn 10 (a ++ 10%N :: b) = splitOn 10 a ++ splitOn 10 b.
Proof.
  induction a as [|c a IH]; cbn [app splitOn].
  - reflexivity.
  - rewrite IH. destruct (c =? 10)%N; [reflexivity|].
    pose proof (splitOn_nonempty a) as Hne.
    destruct (splitOn 10 a) as [|l ls]; [congruence | reflexivity].
Qed.

Lemma splitOn_join (s : jsstring) : join [10%N] (splitOn 10 s) = s.
Proof.
  induction s as [|c s IH]; [reflexivity|].
  cbn [splitOn]. pose proof (splitOn_nonempty s) as Hne.
  destruct (splitOn 10 s) as [|l ls]; [congruence|].
  destruct (N.eqb_spec c 10) as [->|Hc].
  - change (join [10%N] ([] :: l :: ls)) with (10%N :: join [10%N] (l :: ls)).
    rewrite IH. reflexivity.
  - destruct ls as [|l2 ls].
    + cbn [join] in IH |- *. rewrite IH. reflexivity.
    + change (join [10%N] ((c :: l) :: l2 :: ls))
        with (c :: join [10%N] (l :: l2 :: ls)).
      rewrite IH. reflexivity.
Qed.

(** X14: the lines of a chunk joined by line feeds give the chunk back, and
    cutting a chunk in two after a line feed, or in place of one, leaves
    the accumulated text as it was. *)
Theorem chunk_cut_at_line_end (JSON_parse : jsstring -> option json)
  (a b acc : jsstring) (before after : list jsstring) (w : World) :
  join [10%N] (splitOn 10 (a ++ 10%N :: b)) = a ++ 10%N :: b
  /\ fst (readLoop JSON_parse acc (before ++ [a; b] ++ after) w)
     = fst (readLoop JSON_parse acc (before ++ [a ++ 10%N :: b] ++ after) w)
  /\ fst (readLoop JSON_parse acc (before ++ [a ++ [10%N]; b] ++ after) w)
     = fst (readLoop JSON_parse acc (before ++ [a ++ 10%N :: b] ++ after) w).
Proof.
  split; [apply splitOn_join|].
  rewrite !readLoop_result, !streamText_app.
  assert (Hcut : streamText JSON_parse [a; b] = streamText JSON_parse [a ++ 10%N :: b]).
  { unfold streamText. cbn [flat_map]. rewrite app_nil_r, app_nil_r.
    rewrite splitOn_newline. reflexivity. }
  assert (Hkeep : streamText JSON_parse [a ++ [10%N]; b]
                  = streamText JSON_parse [a ++ 10%N :: b]).
  { unfold streamText. cbn [flat_map]. rewrite app_nil_r, app_nil_r.
    rewrite !splitOn_newline. cbn [splitOn]. rewrite !map_app, !concat_app.
    cbn [map List.concat]. change (lineDelta JSON_parse []) with (@nil N).
    cbn [app]. rewrite app_nil_r. reflexivity. }
  rewrite Hcut, Hkeep. split; reflexivity.
Qed.

(** ** Cache resolver and the panel's entry points *)

Lemma keeps_map {A B C : Type} (proj : World -> B) (f : B -> C) (c : Panel A) :
  keeps proj c -> keeps (fun w => f (proj w)) c.
Proof. intros H w. rewrite H. reflexivity. Qed.

Lemma lookupItem_dropItem_same (k : jsstring) (s : Store) :
  lookupItem k (dropItem k s) = None.
Proof.
  unfold dropItem. induction s as [|[k0 v] s IH]; [reflexivity|].
  cbn [filter fst]. destruct (eqb k0 k) eqn:E; cbn [negb]; [exact IH|].
  cbn [lookupItem]. rewrite E. exact IH.
Qed.

Lemma lookupItem_dropItem_other (k k' : jsstring) (s : Store) :
  k' <> k -> lookupItem k' (dropItem k s) = lookupItem k' s.
Proof.
  intros Hne. unfold dropItem. induction s as [|[k0 v] s IH]; [reflexivity|].
  cbn [filter fst lookupItem]. destruct (eqb k0 k) eqn:E; cbn [negb].
  - apply eqb_eq in E. subst k0.
    destruct (eqb k k') eqn:E'; [apply eqb_eq in E'; congruence | exact IH].
  - cbn [lookupItem]. rewrite IH. reflexivity.
Qed.

Lemma extractionResult_key_truthy (book : option Book) (rendition : option Rendition)
  (k : jsstring) :
  cacheKey (extractionResult book rendition) = Some k ->
  orNull (cacheKey (extractionResult book rendition)) = Some k.
Proof.
  intros Hkey. rewrite Hkey.
  destruct (extractionResult_key_prefix book rendition k Hkey) as (prefix & Hp & Hstart).
  assert (Hne : nonEmpty k = true).
  { apply (startsWith_nonEmpty k prefix); [|exact Hstart].
    revert Hp. unfold extractionResult, extractTry.
    destruct rendition as [r|]; [|discriminate].
    destruct (getContents r) as [[[|[doc|] rest]|]|]; try discriminate.
    destruct (body doc) as [[bodyText blocks]|]; try discriminate.
    destruct (locateBlocks r) as [[sb eb] spineId]. unfold extractFromBody.
    destruct (len (collectParagraphElements blocks) =? 0); [discriminate|].
    destruct (resolveBlocks (collectParagraphElements blocks) sb eb)
      as [[startBlock|] [endBlock|]]; try discriminate.
    destruct (nonEmpty _ && _); cbn [groupPrefix]; intros E; injection E as <-;
      reflexivity. }
  cbn [orNull]. rewrite Hne. reflexivity.
Qed.

Section Resolution.
Variable JSON_parse : jsstring -> option json.
Variable fetch : Request -> FetchResult.
Variable localStorage : LocalStorage.

Lemma resolveAndGenerate_keeps_refs snap res :
  keeps effectRefs (resolveAndGenerate JSON_parse fetch localStorage snap res).
Proof.
  pose proof (fun content override =>
                keeps_map besidesGeneration
                  (fun t => (snd (fst (fst t)), snd (fst t), snd t))
                  _ (generateSummary_keeps_rest JSON_parse fetch localStorage snap
                       content override)) as Hgen.
  change (forall content override,
             keeps effectRefs
               (generateSummary JSON_parse fetch localStorage snap content override))
    in Hgen.
  pose proof (scanGroup_keeps effectRefs) as Hscan.
  unfold resolveAndGenerate, exactLookup, fuzzyLookup, deferredCacheWrite.
  frame_fields.
Qed.

Lemma extractPageContent_keeps_refs book rendition :
  keeps effectRefs (extractPageContent book rendition).
Proof. unfold extractPageContent. frame_fields. Qed.

Lemma stopGeneration_keeps_shown : keeps visibleOutput stopGeneration.
Proof. unfold stopGeneration. frame_fields. Qed.

Lemma extractPageContent_keeps_shown book rendition :
  keeps visibleOutput (extractPageContent book rendition).
Proof. unfold extractPageContent. frame_fields. Qed.

(** X15: when the page's key has a stored summary that is not empty, the
    handler shows it, logs the hit, and neither sends a request nor changes
    the store; the page prompts are cleared and the page content is set. *)
Theorem exact_hit_shows_stored (snap : PanelState) (res : ExtractResult) (w : World)
  (k text : jsstring) :
  orNull (cacheKey res) = Some k ->
  orNull (lookupItem k (cache w)) = Some text ->
  let w' := snd (resolveAndGenerate JSON_parse fetch localStorage snap res w) in
  visibleOutput w' = text
  /\ requests w' = requests w
  /\ cache w' = cache w
  /\ console w' = console w ++ [LogCacheHit k]
  /\ pageContent (panel w') = content res
  /\ pagePromptDraft (panel w') = []
  /\ pagePromptSaved (panel w') = []
  /\ isLoading (panel w') = isLoading (panel w).
Proof.
  intros Hkey Hhit. cbn zeta. rewrite resolve_from_reset.
  assert (Hexact : exactLookup (cacheKey res) (afterReset res w)
                   = (true, snd ((consoleLog (LogCacheHit k) ;;; setCompletion text)
                                   (afterReset res w)))).
  { unfold exactLookup. rewrite Hkey. unfold bind at 1. unfold getItem.
    change (cache (afterReset res w)) with (cache w). rewrite Hhit. reflexivity. }
  rewrite bind_run, Hexact. cbn [fst snd ret]. repeat split.
Qed.

(** X16: a refresh of a page with a key removes the stored summary of that
    key and stores nothing in its place: afterwards the key has no entry and
    every other key has the entry it had; the page content is set and the
    summary is generated anew. *)
Theorem refresh_invalidates (snap : PanelState) (book : option Book)
  (rendition : option Rendition) (w : World) (k : jsstring) :
  cacheKey (extractionResult book rendition) = Some k ->
  let res := extractionResult book rendition in
  let w' := snd (handleRefreshSummary JSON_parse fetch localStorage snap book rendition w) in
  cache w' = dropItem k (cache w)
  /\ lookupItem k (cache w') = None
  /\ (forall k', k' <> k -> lookupItem k' (cache w') = lookupItem k' (cache w))
  /\ pageContent (panel w') = content res
  /\ (configured (aiConfigStatus snap) = true ->
      requests w' = requests w ++ [requestFor localStorage snap (content res) None]
      /\ visibleOutput w'
         = shownAfter JSON_parse (fetch (requestFor localStorage snap (content res) None)))
  /\ (configured (aiConfigStatus snap) = false ->
      requests w' = requests w /\ visibleOutput w' = visibleOutput w).
Proof.
  intros Hkey. cbn zeta.
  pose proof (extractionResult_key_truthy book rendition k Hkey) as Htruthy.
  assert (Hcontent : nonEmpty (content (extractionResult book rendition)) = true).
  { destruct rendition as [r|]; [apply extractionResult_nonEmpty | discriminate Hkey]. }
  assert (Hcache : cache (snd (handleRefreshSummary JSON_parse fetch localStorage snap
                                 book rendition w)) = dropItem k (cache w)).
  { unfold handleRefreshSummary. rewrite !bind_run, extractPageContent_result, Htruthy.
    rewrite (generateSummary_keeps_cache JSON_parse fetch localStorage).
    cbn [removeItem snd cache setPageContent modifyPanel].
    rewrite extractPageContent_keeps_cache, stopGeneration_keeps_cache. reflexivity. }
  split; [exact Hcache|].
  split; [rewrite Hcache; apply lookupItem_dropItem_same|].
  split; [intros k' Hk'; rewrite Hcache; apply lookupItem_dropItem_other; exact Hk'|].
  split.
  { unfold handleRefreshSummary. rewrite !bind_run, extractPageContent_result, Htruthy.
    pose proof (generateSummary_keeps_rest JSON_parse fetch localStorage snap
                  (content (extractionResult book rendition)) None) as Hrest.
    match goal with
    | |- pageContent (panel (snd (generateSummary _ _ _ _ _ _ ?w0))) = _ =>
        specialize (Hrest w0);
        apply (f_equal (fun t => snd (fst (fst (fst (fst (fst (fst t)))))))) in Hrest;
        exact Hrest
    end. }
  split.
  - intros Hconf. unfold handleRefreshSummary.
    rewrite !bind_run, extractPageContent_result, Htruthy. split.
    + rewrite (generateSummary_requests JSON_parse fetch localStorage) by assumption.
      cbn [removeItem snd requests setPageContent modifyPanel].
      rewrite extractPageContent_keeps_requests, stopGeneration_keeps_requests.
      reflexivity.
    + apply generateSummary_shown; assumption.
  - intros Hconf. unfold handleRefreshSummary.
    rewrite !bind_run, extractPageContent_result, Htruthy.
    rewrite (generateSummary_refused JSON_parse fetch localStorage)
      by (right; exact Hconf).
    cbn [removeItem snd requests setPageContent modifyPanel].
    rewrite extractPageContent_keeps_requests, stopGeneration_keeps_requests.
    split; [reflexivity|].
    change (visibleOutput (snd (extractPageContent book rendition (snd (stopGeneration w))))
            = visibleOutput w).
    rewrite extractPageContent_keeps_shown, stopGeneration_keeps_shown. reflexivity.
Qed.

End Resolution.

Lemma exact_hit_shows_stored_witness :
  let res := mkExtractResult (lit "the page as extracted")
               (Some (lit "ai-summary:b1:0:0-1:1998f2"))
               (Some (lit "ai-summary:b1:0:")) (Some (lit "alpha|delta")) in
  let w' := snd (resolveAndGenerate sampleParse sampleFetch sampleStorage freshPanel res
                   chapterWorld) in
  visibleOutput w' = lit "alpha beta gamma delta"
  /\ requests w' = []
  /\ cache w' = cache chapterWorld.
Proof.
  cbn zeta.
  destruct (exact_hit_shows_stored sampleParse sampleFetch sampleStorage freshPanel
              (mkExtractResult (lit "the page as extracted")
                 (Some (lit "ai-summary:b1:0:0-1:1998f2"))
                 (Some (lit "ai-summary:b1:0:")) (Some (lit "alpha|delta")))
              chapterWorld (lit "ai-summary:b1:0:0-1:1998f2")
              (lit "alpha beta gamma delta") eq_refl eq_refl)
    as (Hshown & Hreq & Hcache & _).
  split; [exact Hshown|]. split; [exact Hreq | exact Hcache].
Defined.

Lemma refresh_invalidates_witness :
  let w := mkWorld readingPanel
             [(lit "ai-summary:b1:0:1-1:89989628", lit "OLD summary");
              (lit "ai-summary:b1:0:0-0:1", lit "another page")] [] [] in
  let w' := snd (handleRefreshSummary sampleParse sampleFetch sampleStorage readingPanel
                   sampleBook (Some twoParagraphRendition) w) in
  cacheKey (extractionResult sampleBook (Some twoParagraphRendition))
  = Some (lit "ai-summary:b1:0:1-1:89989628")
  /\ cache w' = [(lit "ai-summary:b1:0:0-0:1", lit "another page")]
  /\ visibleOutput w' = lit "NEW text".
Proof.
  cbn zeta.
  assert (Hkey : cacheKey (extractionResult sampleBook (Some twoParagraphRendition))
                 = Some (lit "ai-summary:b1:0:1-1:89989628")) by reflexivity.
  destruct (refresh_invalidates sampleParse sampleFetch sampleStorage readingPanel
              sampleBook (Some twoParagraphRendition)
              (mkWorld readingPanel
                 [(lit "ai-summary:b1:0:1-1:89989628", lit "OLD summary");
                  (lit "ai-summary:b1:0:0-0:1", lit "another page")] [] [])
              (lit "ai-summary:b1:0:1-1:89989628") Hkey)
    as (Hcache & _ & _ & _ & Hrun & _).
  split; [exact Hkey|]. split; [exact Hcache|].
  destruct (Hrun eq_refl) as [_ Hshown]. exact Hshown.
Defined.

Section Effects.
Variable JSON_parse : jsstring -> option json.
Variable fetch : Request -> FetchResult.
Variable localStorage : LocalStorage.

Local Abbreviation effect := (pageChangeEffect JSON_parse fetch localStorage).

(** The effect returns at once when the panel is closed or not configured,
    and when it has run before and the location is null or the one it ran
    for. *)
Lemma pageChangeEffect_idle (snap : PanelState) (open : bool) (book : option Book)
  (rendition : option Rendition) (location : option jsstring) (w : World) :
  open = false \/ configured (aiConfigStatus snap) = false
  \/ (isInitializedRef (panel w) = true
      /\ (location = None \/ location = lastLocationRef (panel w))) ->
  effect snap open book rendition location w = (tt, w).
Proof.
  intros H. unfold pageChangeEffect.
  destruct open; [|reflexivity].
  destruct (configured (aiConfigStatus snap)); [|reflexivity].
  destruct H as [H|[H|[Hinit Hloc]]]; try discriminate H.
  cbn [negb orb]. rewrite bind_run. cbn [getPanel fst snd].
  rewrite Hinit. cbn [negb orb].
  destruct Hloc as [->| ->]; [reflexivity|].
  destruct (lastLocationRef (panel w)) as [l|]; [|reflexivity].
  rewrite eqb_refl. reflexivity.
Qed.

(** When it runs, it leaves the refs set for the location it ran for. *)
Lemma pageChangeEffect_refs (snap : PanelState) (book : option Book)
  (rendition : option Rendition) (location : option jsstring) (w : World) :
  configured (aiConfigStatus snap) = true ->
  isInitializedRef (panel w) = false
  \/ (exists l, location = Some l /\ lastLocationRef (panel w) <> Some l) ->
  effectRefs (snd (effect snap true book rendition location w)) = (location, true, true).
Proof.
  intros Hconf Htrigger. unfold pageChangeEffect. rewrite Hconf. cbn [negb orb].
  rewrite bind_run. cbn [getPanel fst snd].
  match goal with
  | |- context [if ?c then _ else ret tt] => assert (Hc : c = true)
  end.
  { destruct Htrigger as [->|(l & -> & Hl)]; [reflexivity|].
    apply Bool.orb_true_iff. right.
    destruct (lastLocationRef (panel w)) as [l'|]; [|reflexivity].
    destruct (eqb l l') eqn:E; [|reflexivity].
    apply eqb_eq in E. subst l'. congruence. }
  rewrite Hc. rewrite !bind_run.
  rewrite resolveAndGenerate_keeps_refs, extractPageContent_keeps_refs. reflexivity.
Qed.

(** X17: the page-change effect does nothing while the panel is closed or
    not configured.  When it runs (first open, or a location other than the
    last one) it records the location, and the effect of any later render
    for that same location, or for no location, does nothing, whatever
    book, rendition or state that render has. *)
Theorem page_change_effect_runs_once (snap : PanelState) (book : option Book)
  (rendition : option Rendition) (location : option jsstring) (w : World) :
  configured (aiConfigStatus snap) = true ->
  isInitializedRef (panel w) = false
  \/ (exists l, location = Some l /\ lastLocationRef (panel w) <> Some l) ->
  let w' := snd (effect snap true book rendition location w) in
  lastLocationRef (panel w') = location
  /\ isInitializedRef (panel w') = true
  /\ pendingTimerRef (panel w') = true
  /\ (forall snap' open' book' rendition',
        effect snap' open' book' rendition' location w' = (tt, w')
        /\ effect snap' open' book' rendition' None w' = (tt, w'))
  /\ (forall snap' book' rendition' location' w0,
        effect snap' false book' rendition' location' w0 = (tt, w0))
  /\ (forall snap' open' book' rendition' location' w0,
        configured (aiConfigStatus snap') = false ->
        effect snap' open' book' rendition' location' w0 = (tt, w0)).
Proof.
  intros Hconf Htrigger. cbn zeta.
  pose proof (pageChangeEffect_refs snap book rendition location w Hconf Htrigger)
    as Hrefs.
  assert (Hloc : lastLocationRef
                   (panel (snd (effect snap true book rendition location w)))
                 = location)
    by exact (f_equal (fun t => fst (fst t)) Hrefs).
  assert (Hinit : isInitializedRef
                    (panel (snd (effect snap true book rendition location w)))
                  = true)
    by exact (f_equal (fun t => snd (fst t)) Hrefs).
  split; [exact Hloc|]. split; [exact Hinit|].
  split; [exact (f_equal snd Hrefs)|].
  split.
  { intros snap' open' book' rendition'. split; apply pageChangeEffect_idle; right; right;
      (split; [exact Hinit|]); [right; symmetry; exact Hloc | left; reflexivity]. }
  split.
  - intros. apply pageChangeEffect_idle. left. reflexivity.
  - intros snap' open' book' rendition' location' w0 Hc.
    apply pageChangeEffect_idle. right. left. exact Hc.
Qed.

(** X18: closing the panel clears the three refs of the page-change effect,
    the loading flag and the abort controller, and leaves the summary, the
    store, the requests and the console alone, so that the next open runs
    the effect again even at the location it last ran for; while the panel
    is open the close effect does nothing. *)
Theorem close_resets_refs (w : World) :
  let w' := snd (closeEffect false w) in
  effectRefs w' = (None, false, false)
  /\ isLoading (panel w') = false
  /\ abortControllerRef (panel w') = false
  /\ visibleOutput w' = visibleOutput w
  /\ cache w' = cache w
  /\ requests w' = requests w
  /\ console w' = console w
  /\ closeEffect true w = (tt, w)
  /\ (forall snap book rendition location,
        configured (aiConfigStatus snap) = true ->
        effectRefs (snd (effect snap true book rendition location w'))
        = (location, true, true)).
Proof.
  cbn zeta.
  assert (Hshape : effectRefs (snd (closeEffect false w)) = (None, false, false)
                   /\ isLoading (panel (snd (closeEffect false w))) = false
                   /\ abortControllerRef (panel (snd (closeEffect false w))) = false
                   /\ visibleOutput (snd (closeEffect false w)) = visibleOutput w
                   /\ cache (snd (closeEffect false w)) = cache w
                   /\ requests (snd (closeEffect false w)) = requests w
                   /\ console (snd (closeEffect false w)) = console w).
  { unfold closeEffect, stopGeneration. cbn [negb]. rewrite !bind_run.
    cbn [getPanel fst snd].
    destruct (abortControllerRef (panel w)) eqn:Ha, (pendingTimerRef (panel w)) eqn:Hp;
      cbn; rewrite ?Ha, ?Hp; cbn; rewrite ?Ha, ?Hp; repeat split; reflexivity. }
  destruct Hshape as (Hrefs & Hload & Habort & Hshown & Hcache & Hreq & Hcon).
  repeat (split; [assumption|]).
  split; [reflexivity|].
  intros snap book rendition location Hconf.
  apply pageChangeEffect_refs; [exact Hconf|]. left.
  exact (f_equal (fun t => snd (fst t)) Hrefs).
Qed.

(** X19: the update button extracts the page, saves the drafted page
    prompt and generates with it as the page prompt of the request, without
    reading or changing the store and without touching the refs of the
    page-change effect. *)
Theorem update_click_uses_draft (snap : PanelState) (book : option Book)
  (rendition : option Rendition) (w : World) :
  let res := extractionResult book rendition in
  let w' := snd (handleUpdateClick JSON_parse fetch localStorage snap book rendition w) in
  cache w' = cache w
  /\ effectRefs w' = effectRefs w
  /\ pagePromptSaved (panel w') = pagePromptDraft snap
  /\ (nonEmpty (content res) = true -> configured (aiConfigStatus snap) = true ->
      requests w'
      = requests w ++ [requestFor localStorage snap (content res)
                         (Some (pagePromptDraft snap))]
      /\ visibleOutput w'
         = shownAfter JSON_parse
             (fetch (requestFor localStorage snap (content res)
                       (Some (pagePromptDraft snap))))).
Proof.
  cbn zeta. unfold handleUpdateClick. rewrite !bind_run, extractPageContent_result.
  set (res := extractionResult book rendition).
  split.
  { rewrite (generateSummary_keeps_cache JSON_parse fetch localStorage).
    cbn [setPagePromptSaved modifyPanel snd cache].
    apply extractPageContent_keeps_cache. }
  split.
  { pose proof (keeps_map besidesGeneration
                  (fun t => (snd (fst (fst t)), snd (fst t), snd t)) _
                  (generateSummary_keeps_rest JSON_parse fetch localStorage snap
                     (content res) (Some (pagePromptDraft snap)))) as Hgen.
    change (keeps effectRefs
              (generateSummary JSON_parse fetch localStorage snap (content res)
                 (Some (pagePromptDraft snap)))) in Hgen.
    rewrite Hgen.
    change (effectRefs (snd (extractPageContent book rendition w)) = effectRefs w).
    apply extractPageContent_keeps_refs. }
  split.
  { pose proof (generateSummary_keeps_rest JSON_parse fetch localStorage snap
                  (content res) (Some (pagePromptDraft snap))) as Hrest.
    match goal with
    | |- pagePromptSaved (panel (snd (generateSummary _ _ _ _ _ _ ?w0))) = _ =>
        specialize (Hrest w0);
        exact (f_equal (fun t => snd (fst (fst (fst t)))) Hrest)
    end. }
  intros Hne Hconf. split.
  - rewrite (generateSummary_requests JSON_parse fetch localStorage) by assumption.
    cbn [setPagePromptSaved modifyPanel snd requests].
    rewrite extractPageContent_keeps_requests. reflexivity.
  - apply generateSummary_shown; assumption.
Qed.

End Effects.

Lemma page_change_effect_runs_once_witness :
  let w' := snd (pageChangeEffect sampleParse sampleFetch sampleStorage readingPanel true
                   sampleBook (Some twoParagraphRendition) (Some (lit "epubcfi(/6/4)"))
                   readingWorld) in
  lastLocationRef (panel readingWorld) = Some (lit "epubcfi(/6/2)")
  /\ lastLocationRef (panel w') = Some (lit "epubcfi(/6/4)")
  /\ pageChangeEffect sampleParse sampleFetch sampleStorage readingPanel true
       sampleBook (Some twoParagraphRendition) (Some (lit "epubcfi(/6/4)")) w'
     = (tt, w').
Proof.
  cbn zeta.
  assert (Htrigger : isInitializedRef (panel readingWorld) = false
                     \/ (exists l, Some (lit "epubcfi(/6/4)") = Some l
                                   /\ lastLocationRef (panel readingWorld) <> Some l)).
  { right. exists (lit "epubcfi(/6/4)"). split; [reflexivity | discriminate]. }
  destruct (page_change_effect_runs_once sampleParse sampleFetch sampleStorage
              readingPanel sampleBook (Some twoParagraphRendition)
              (Some (lit "epubcfi(/6/4)")) readingWorld eq_refl Htrigger)
    as (Hloc & _ & _ & Hidle & _).
  split; [reflexivity|]. split; [exact Hloc|].
  exact (proj1 (Hidle readingPanel true sampleBook (Some twoParagraphRendition))).
Defined.

(** ** Stored settings ([storage.ts]) *)




(** *** Decimal numerals *)








(** X20: the stored font size is read as an integer between 12 and 28; it is
    16 when the storage cannot be read, when nothing is stored and when what
    is stored has no leading number. *)
Theorem font_size_in_range (ls : LocalStorage) :
  12 <= readerStorage.getFontSize ls <= 28
  /\ readerStorage.getFontSize None = 16
  /\ (forall entries,
        lookupItem STORAGE_KEYS.READER_FONT_SIZE entries = None ->
        readerStorage.getFontSize (Some entries) = 16)
  /\ (forall entries v,
        lookupItem STORAGE_KEYS.READER_FONT_SIZE entries = Some v ->
        parseInt10 v = None ->
        readerStorage.getFontSize (Some entries) = 16).
Proof.
  split.
  { unfold readerStorage.getFontSize.
    destruct (negb (nonEmpty _)); [lia|].
    destruct (parseInt10 _); lia. }
  split; [reflexivity|].
  split.
  - intros entries Hnone. unfold readerStorage.getFontSize.
    cbn [storageGetItem]. rewrite Hnone. reflexivity.
  - intros entries v Hv Hnan. unfold readerStorage.getFontSize.
    cbn [storageGetItem]. rewrite Hv, Hnan. destruct (negb (nonEmpty v)); reflexivity.
Qed.



Lemma trim_nonEmpty (s : jsstring) : nonEmpty (trim s) = true -> nonEmpty s = true.
Proof. destruct s; [discriminate | reflexivity]. Qed.


(** X23: whenever the panel finds the configuration complete,
    [aiStorage.isConfigured] holds too; the panel's check is the stricter
    one, as it trims the three items.  With storage that is unreadable or
    holds none of the items, the key is the one item missing. *)
Theorem panel_check_is_stricter (ls : LocalStorage) (w : World) :
  let status := aiConfigStatus (panel (snd (checkAiConfig ls w))) in
  (configured status = true -> aiStorage.isConfigured ls = true)
  /\ (configured status = true <-> missing status = [])
  /\ (aiStorage.isConfigured ls = false -> In (lit "API Key") (missing status)
      \/ In (lit "Base URL") (missing status) \/ In (lit "Model") (missing status))
  /\ aiConfigStatus (panel (snd (checkAiConfig None w)))
     = mkConfigStatus false [lit "API Key"]
  /\ aiConfigStatus (panel (snd (checkAiConfig (Some []) w)))
     = mkConfigStatus false [lit "API Key"].
Proof.
  cbn zeta. unfold checkAiConfig, setAiConfigStatus, modifyPanel.
  cbn [snd panel aiConfigStatus configured missing].
  unfold missingItems, aiStorage.isConfigured. cbv zeta.
  set (config := aiStorage.getAll ls).
  split; [|split; [|split; [|split; reflexivity]]].
  - destruct (nonEmpty (trim (apiKey config))) eqn:E1,
      (nonEmpty (trim (baseUrl config))) eqn:E2,
      (nonEmpty (trim (model config))) eqn:E3; try (cbn; discriminate).
    intros _. rewrite (trim_nonEmpty _ E1), (trim_nonEmpty _ E2), (trim_nonEmpty _ E3).
    reflexivity.
  - destruct (nonEmpty (trim (apiKey config))),
      (nonEmpty (trim (baseUrl config))), (nonEmpty (trim (model config)));
      cbn; split; intros H; congruence.
  - destruct (nonEmpty (trim (apiKey config))) eqn:E1,
      (nonEmpty (trim (baseUrl config))) eqn:E2,
      (nonEmpty (trim (model config))) eqn:E3; cbn [negb app In];
      try (intros _; tauto).
    intros H.
    rewrite (trim_nonEmpty _ E1), (trim_nonEmpty _ E2), (trim_nonEmpty _ E3) in H.
    discriminate H.
Qed.


(** ** Similarity, the rolling hash and the block positions *)

Lemma filter_all_kept {A : Type} (p : A -> bool) (l : list A) :
  (forall x, In x l -> p x = true) -> filter p l = l.
Proof.
  induction l as [|a l IH]; intros H; [reflexivity|].
  cbn [filter]. rewrite (H a) by (left; reflexivity).
  rewrite IH by (intros x Hx; apply H; right; exact Hx). reflexivity.
Qed.

(** X25: the similarity of two texts does not depend on their order and
    lies between 0 and 1; a text with a word has similarity 1 to itself,
    and a text without words has similarity 0 to every text, itself
    included. *)
Theorem similarity_symmetric_bounded (a b : jsstring) :
  similarity a b = similarity b a
  /\ (0 <= similarity a b <= 1)%Q
  /\ (words a <> [] -> (similarity a a == 1)%Q)
  /\ (words a = [] -> (similarity a b == 0)%Q /\ (similarity a a == 0)%Q).
Proof.
  destruct (newSet_spec (words a)) as [HA HinA].
  destruct (newSet_spec (words b)) as [HB HinB].
  assert (Hcommon := common_words_symmetric _ _ HA HB).
  assert (HleA : len (filter (has (newSet (words b))) (newSet (words a)))
                 <= len (newSet (words a)))
    by (unfold len; apply inj_le, filter_length_le).
  assert (HleB : len (filter (has (newSet (words a))) (newSet (words b)))
                 <= len (newSet (words b)))
    by (unfold len; apply inj_le, filter_length_le).
  pose proof (len_nonneg (newSet (words a))) as HA0.
  pose proof (len_nonneg (newSet (words b))) as HB0.
  split; [|split; [|split]].
  - unfold similarity. cbv zeta. rewrite Hcommon.
    replace (len (newSet (words b)) + len (newSet (words a))
             - len (filter (has (newSet (words a))) (newSet (words b))))
      with (len (newSet (words a)) + len (newSet (words b))
            - len (filter (has (newSet (words a))) (newSet (words b)))) by lia.
    reflexivity.
  - split; [apply similarity_nonneg|].
    unfold similarity. cbv zeta.
    set (inter := len (filter (has (newSet (words b))) (newSet (words a)))) in *.
    set (union := len (newSet (words a)) + len (newSet (words b)) - inter).
    destruct (Z.eqb_spec union 0) as [E|E]; [discriminate|].
    apply Qle_shift_div_r.
    + change 0%Q with (inject_Z 0). rewrite <- Zlt_Qlt. unfold union. lia.
    + rewrite Qmult_1_l. rewrite <- Zle_Qle. unfold union. lia.
  - intros Hwords. unfold similarity. cbv zeta.
    rewrite (filter_all_kept (has (newSet (words a))) (newSet (words a)))
      by (intros x Hx; apply has_In; exact Hx).
    assert (Hpos : 0 < len (newSet (words a))).
    { destruct (words a) as [|w ws] eqn:E; [congruence|].
      assert (Hin : In w (newSet (w :: ws))) by (apply newSet_spec; left; reflexivity).
      destruct (newSet (w :: ws)); [destruct Hin | unfold len; cbn; lia]. }
    replace (len (newSet (words a)) + len (newSet (words a)) - len (newSet (words a)))
      with (len (newSet (words a))) by lia.
    destruct (Z.eqb_spec (len (newSet (words a))) 0); [lia|].
    unfold Qdiv. apply Qmult_inv_r. intros H0.
    unfold Qeq in H0. cbn in H0. lia.
  - intros Hwords. unfold similarity. cbv zeta. rewrite Hwords.
    change (newSet []) with (@nil jsstring). cbn [filter].
    change (len (@nil jsstring)) with 0. split; [|reflexivity].
    destruct (0 + len (newSet (words b)) - 0 =? 0); [reflexivity|].
    unfold Qdiv. apply Qmult_0_l.
Qed.

(** X26: the hash of the empty string is 0, written [0]; a further
    character multiplies the value by 131, adds the character code and
    truncates to 32 bits; and two strings have the same hash text exactly
    when their 32-bit values agree. *)
Theorem stableHash_values (s s' : jsstring) (c : N) :
  stableHashValue [] = 0
  /\ stableHash [] = lit "0"
  /\ stableHashValue (s ++ [c]) = (stableHashValue s * 131 + Z.of_N c) mod 2 ^ 32
  /\ (stableHash s = stableHash s' <-> stableHashValue s = stableHashValue s').
Proof.
  split; [reflexivity|]. split; [reflexivity|]. split.
  - rewrite !stableHashValue_rollingHash. unfold rollingHash.
    rewrite fold_left_app. reflexivity.
  - unfold stableHash. split; [|intros ->; reflexivity].
    intros Hsame.
    assert (Hs : 0 <= stableHashValue s)
      by (rewrite stableHashValue_rollingHash; apply rollingHash_range).
    assert (Hs' : 0 <= stableHashValue s')
      by (rewrite stableHashValue_rollingHash; apply rollingHash_range).
    pose proof (showHex_reads_back (stableHashValue s) Hs) as Ha.
    pose proof (showHex_reads_back (stableHashValue s') Hs') as Hb.
    rewrite Hsame, Hb in Ha. injection Ha as Ha. symmetry. exact Ha.
Qed.

(** X27: [findIndex] is -1 exactly when no paragraph is the block, and
    otherwise the position of the first paragraph that is; a block among
    the paragraphs has a position from 0 on; and the center part of the key
    is the same whichever of the two blocks comes first. *)
Theorem findIndex_first_position (paragraphs : list Element) (block other : Element) :
  (findIndex paragraphs block = -1
   <-> forall el, In el paragraphs -> sameElement el block = false)
  /\ (findIndex paragraphs block <> -1 ->
      exists el,
        nth_error paragraphs (Z.to_nat (findIndex paragraphs block)) = Some el
        /\ 0 <= findIndex paragraphs block
        /\ sameElement el block = true
        /\ forall j el', (j < Z.to_nat (findIndex paragraphs block))%nat ->
             nth_error paragraphs j = Some el' -> sameElement el' block = false)
  /\ (In block paragraphs -> 0 <= findIndex paragraphs block < len paragraphs)
  /\ centerPartOf (findIndex paragraphs block) (findIndex paragraphs other)
     = centerPartOf (findIndex paragraphs other) (findIndex paragraphs block).
Proof.
  unfold findIndex.
  destruct (findIndexFrom_spec paragraphs block 0)
    as [[E Hnone] | (i & el & E & Hnth & Hsame & Hfirst)].
  - split; [split; [intros _; apply Hnone; lia | intros _; exact E]|].
    split; [congruence|]. split.
    + intros Hin. specialize (Hnone (Z.le_refl 0) block Hin).
      unfold sameElement in Hnone. rewrite Nat.eqb_refl in Hnone. discriminate.
    + unfold centerPartOf. rewrite Z.min_comm, Z.max_comm. reflexivity.
  - split.
    { split; [intros H; rewrite E in H; lia|].
      intros Hnone. apply nth_error_In in Hnth. rewrite (Hnone el Hnth) in Hsame.
      discriminate. }
    split.
    { intros _. exists el. rewrite E. cbn [Z.add]. rewrite Nat2Z.id.
      repeat split; try assumption; lia. }
    split.
    + intros _. rewrite E.
      assert (i < List.length paragraphs)%nat by (apply nth_error_Some; congruence).
      unfold len. lia.
    + unfold centerPartOf. rewrite Z.min_comm, Z.max_comm. reflexivity.
Qed.

Lemma keyless_page_keeps_cache_witness :
  cacheKey (extractionResult sampleBook (Some shortRendition)) = None
  /\ cache (snd (pageChangeEffect sampleParse sampleFetch sampleStorage freshPanel true
                  sampleBook (Some shortRendition) (Some (lit "epubcfi(/6/4)"))
                  chapterWorld))
     = cache chapterWorld.
Proof.
  split; [reflexivity|].
  exact (proj1 (keyless_page_keeps_cache sampleParse sampleFetch sampleStorage
                  freshPanel true sampleBook (Some shortRendition)
                  (Some (lit "epubcfi(/6/4)")) chapterWorld eq_refl)).
Defined.
